(** * caver-js: role-based keyring, keystore codec and the
      FeeDelegatedChainDataAnchoring wire codec

    A shallow embedding of
    [packages/caver-wallet/src/keyring/keyring.js] and of the
    fee delegated chain data anchoring transaction type, followed by the
    properties established about them.

    JavaScript exceptions are values of [result]; code that draws random
    bytes, calls the cipher backend or writes to the console runs in the
    monad [M], which threads a [World] (the entropy source and the log of
    the observable calls). *)

From Stdlib Require Import String Ascii List ZArith NArith Bool Lia Arith.
From Stdlib Require Import Strings.Byte Strings.HexString.
Import ListNotations.

#[local] Open Scope string_scope.
#[local] Open Scope list_scope.

(** ** Exceptions *)

(** The errors the modelled code raises, one constructor per [throw]
    site (or family of sites with one message); [TypeError] is the
    runtime's own error for a property read on [undefined] or an
    iteration over a non-iterable. *)
Inductive Error : Type :=
| TypeError
| BackendError                (* raised inside a cryptographic library *)
| InvalidAddress              (* `Invalid address : ...` *)
| InvalidKeyFormat            (* `Invalid format for key variable in keyring` *)
| InvalidParameterFormat      (* `Invalid format of parameter. ...` *)
| InvalidPrivateKey           (* `Invalid private key: ...` *)
| TooManyKeys                 (* `The maximum number of private keys ...` *)
| UnsupportedRole             (* `Unsupported role number. ...` *)
| RoleUndefined               (* `role should be defined.` / `... to sign.` *)
| KeyNotExist                 (* `The key with ... role does not exist. ...` *)
| InvalidTransactionHash      (* `Invalid transaction hash: ...` *)
| ChainIdUndefined            (* `chainId should be defined to sign.` *)
| InvalidIndexType            (* `Invalid type of index(...)` *)
| NegativeIndex               (* `Invalid index(...): index cannot be negative.` *)
| IndexOutOfRange             (* `Invalid index(...): index must be less than ...` *)
| KeystoreV3WithoutCrypto     (* `Invalid keystore V3 format: 'crypto' is not defined.` *)
| KeystoreV4WithoutKeyring    (* `Invalid keystore V4 format: 'keyring' is not defined.` *)
| CryptoAndKeyringTogether    (* `Invalid key store format: 'crypto' and 'keyring' ...` *)
| UnsupportedPbkdf2Params     (* `Unsupported parameters to PBKDF2` *)
| UnsupportedKdfScheme        (* `Unsupported key derivation scheme` *)
| WrongPassword               (* `Key derivation failed - possibly wrong password` *)
| UnsupportedKdf              (* `Unsupported kdf` *)
| UnsupportedCipher           (* `Unsupported cipher` *)
| KeystoreV3NotAvailable      (* `This keyring cannot be encrypted keystore v3. use 'keyring.encrypt(password)'.` *)
| UnsupportedKeystoreVersion  (* `Unsupported version of keystore` *)
| TagMismatch                 (* `Cannot decode to FeeDelegatedChainDataAnchoring. The prefix must be ...` *)
| InvalidFrom                 (* `Invalid address of from: ...` *)
| InputAndDataTogether        (* `'input' and 'data' properties cannot be defined at the same time, ...` *)
| InvalidInputData            (* `Invalid input data ...` *)
| InvalidTransactionField.    (* raised by the abstract transaction classes *)

Inductive result (A : Type) : Type :=
| Ok (a : A)
| Throw (e : Error).

Arguments Ok {A} a.
Arguments Throw {A} e.

Definition rbind {A B} (r : result A) (k : A -> result B) : result B :=
  match r with
  | Ok a => k a
  | Throw e => Throw e
  end.

Declare Scope js_scope.
Delimit Scope js_scope with js.

Notation "'try!' x <- r ; k" := (rbind r (fun x => k))
  (at level 10, x name, r at level 100, k at level 200) : js_scope.

#[local] Open Scope js_scope.

Definition succeeded {A} (r : result A) : bool :=
  match r with Ok _ => true | Throw _ => false end.

(** The outcome of a call into a library outside the repository: the
    value it returns, or the exception it raises ([None]). *)
Definition of_backend {A} (o : option A) : result A :=
  match o with Some a => Ok a | None => Throw BackendError end.

(** ** Strings, hexadecimal text and buffers *)

Definition isHexDigit (c : ascii) : bool :=
  match HexString.ascii_to_digit c with Some _ => true | None => false end.

Fixpoint isHexString (s : string) : bool :=
  match s with
  | EmptyString => true
  | String c r => isHexDigit c && isHexString r
  end.

Definition lowerChar (c : ascii) : ascii :=
  let n := nat_of_ascii c in
  if (65 <=? n)%nat && (n <=? 90)%nat then ascii_of_nat (n + 32) else c.

(** [String.prototype.toLowerCase], on the ASCII range. *)
Fixpoint toLowerCase (s : string) : string :=
  match s with
  | EmptyString => EmptyString
  | String c r => String (lowerChar c) (toLowerCase r)
  end.

(** [String.prototype.startsWith]. *)
Definition startsWith (s p : string) : bool := String.prefix p s.

(** [s.slice(n)] for a non-negative [n]. *)
Fixpoint slice_from (n : nat) (s : string) : string :=
  match n, s with
  | O, _ => s
  | S n', String _ r => slice_from n' r
  | S _, EmptyString => EmptyString
  end.

(** [s.replace('0x', '')]: the first occurrence of the two characters
    is removed. *)
Fixpoint remove_first_0x (s : string) : string :=
  match s with
  | String a r =>
      match r with
      | String b r' =>
          if (Ascii.eqb a "0" && Ascii.eqb b "x")%bool then r'
          else String a (remove_first_0x r)
      | EmptyString => s
      end
  | EmptyString => EmptyString
  end.

(** A Node.js [Buffer]. *)
Definition Buffer : Type := list byte.

Definition hexDigitOf (n : N) : ascii :=
  match n with
  | 0 => "0" | 1 => "1" | 2 => "2" | 3 => "3" | 4 => "4" | 5 => "5"
  | 6 => "6" | 7 => "7" | 8 => "8" | 9 => "9" | 10 => "a" | 11 => "b"
  | 12 => "c" | 13 => "d" | 14 => "e" | _ => "f"
  end%N%char.

(** [buf.toString('hex')]: two lower-case digits per byte. *)
Fixpoint toString_hex (b : Buffer) : string :=
  match b with
  | [] => EmptyString
  | x :: r =>
      let n := Byte.to_N x in
      String (hexDigitOf (n / 16)) (String (hexDigitOf (n mod 16)) (toString_hex r))
  end.

(** [Buffer.from(s, 'hex')]: pairs of hexadecimal digits are decoded
    until the first pair that is not one; a trailing single digit is
    dropped. *)
Fixpoint Buffer_from_hex (s : string) : Buffer :=
  match s with
  | String a (String b r) =>
      match HexString.ascii_to_digit a, HexString.ascii_to_digit b with
      | Some x, Some y =>
          match Byte.of_N (16 * x + y) with
          | Some c => c :: Buffer_from_hex r
          | None => []
          end
      | _, _ => []
      end
  | _ => []
  end.

(** [Buffer.from(s)]: the bytes of the text. *)
Definition Buffer_from (s : string) : Buffer := list_byte_of_string s.

(** [buf.slice(a, b)] for [0 <= a <= b]. *)
Definition Buffer_slice (a b : nat) (buf : Buffer) : Buffer :=
  firstn (b - a) (skipn a buf).

(** ** caver-utils *)

(** Modelled from the spec: whether a text starts with the hex prefix,
    which the format checks of caver-utils (not among the sources)
    accept in either case of the letter. *)
Definition isHexPrefixed (s : string) : bool :=
  match s with
  | String a (String b _) =>
      Ascii.eqb a "0" && (Ascii.eqb b "x" || Ascii.eqb b "X")
  | _ => false
  end.

(** Modelled from the spec: [utils.addHexPrefix] (caver-utils, not among
    the sources) gives a text the [0x] prefix: a text that starts with
    the two characters [0x] is returned as it is, any other text gets
    them prepended. *)
Definition addHexPrefix (s : string) : string :=
  match s with
  | String "0" (String "x" _) => s
  | _ => "0x" ++ s
  end.

(** Modelled from the spec: the text behind the hex prefix, which is
    what the format checks of caver-utils (not among the sources) look
    at. *)
Definition stripHexPrefix (s : string) : string :=
  if isHexPrefixed s then slice_from 2 s else s.

(** Modelled from the spec: [utils.isAddress] (caver-utils, not among
    the sources) is the "address-format check" of a "20-byte hex"
    address: forty hexadecimal digits behind an optional prefix. *)
Definition isAddress (s : string) : bool :=
  let h := stripHexPrefix s in
  (String.length h =? 40)%nat && isHexString h.

(** Modelled from the spec: [utils.isValidHashStrict] (caver-utils, not
    among the sources) accepts "exactly a 32-byte hex value ([0x] + 64
    hex chars)". *)
Definition isValidHashStrict (s : string) : bool :=
  match s with
  | String "0" (String "x" h) => (String.length h =? 64)%nat && isHexString h
  | _ => false
  end.

(** Modelled from the spec: [utils.isHex] (caver-utils, not among the
    sources) is the "well-formed hex" check of the [input] field:
    hexadecimal digits behind an optional prefix. *)
Definition isHex (s : string) : bool := isHexString (stripHexPrefix s).

(** The hex digits without the zero bytes in front. *)
Fixpoint stripZeroBytes (h : string) : string :=
  match h with
  | String a (String b r) =>
      if Ascii.eqb a "0" && Ascii.eqb b "0" then stripZeroBytes r else h
  | _ => h
  end.

(** Modelled from the spec: [utils.trimLeadingZero] (caver-utils, not
    among the sources) "canonicalizes numeric fields by stripping any
    leading zero byte". *)
Definition trimLeadingZero (s : string) : string :=
  match s with
  | String "0" (String "x" h) => "0x" ++ stripZeroBytes h
  | _ => s
  end.

(** ** Roles and private keys *)

(** Modelled from the spec: [KEY_ROLE] is declared in keyringHelper,
    which is not among the sources.  The roles are a "fixed enumeration
    of exactly 3 ordered slots - TransactionKey (0), AccountUpdateKey
    (1), FeePayerKey (2)", and "RoleLast = 3". *)
Module KEY_ROLE.
Definition RoleTransactionKey : Z := 0.
Definition RoleAccountUpdateKey : Z := 1.
Definition RoleFeePayerKey : Z := 2.
Definition RoleLast : Z := 3.
End KEY_ROLE.

(** Modelled from the spec: the [PrivateKey] class (./privateKey) is not
    among the sources.  The spec makes it "a 32-byte scalar (hex string
    with canonical [0x] prefix)", immutable once constructed, whose
    construction "fails if the input is not a well-formed private key".
    The instance holds the scalar; [privateKey] is its hex string. *)
Record PrivateKey : Type := { scalar : Buffer }.

Definition privateKey (k : PrivateKey) : string :=
  "0x" ++ toString_hex (scalar k).

(** Modelled from the spec: [utils.isValidPrivateKey] (caver-utils, not
    among the sources) accepts a "well-formed private key", the hex
    string of a 32-byte scalar behind an optional prefix. *)
Definition isValidPrivateKey (s : string) : bool :=
  let h := stripHexPrefix s in
  (String.length h =? 64)%nat && isHexString h.

(** A signature: the triple [(v, r, s)] of hex strings. *)
Record Signature : Type := { sig_v : string; sig_r : string; sig_s : string }.

(** The secp256k1 side of [PrivateKey] and the chain id normalisation of
    caver-utils: trusted primitives with a fixed output shape. *)
Class KeyPrimitives : Type := {
  ChainId : Type;
  (* utils.toHex, applied to the chain id before it reaches the key *)
  toHex : ChainId -> string;
  (* PrivateKey.prototype.sign(transactionHash, chainId) *)
  key_sign : PrivateKey -> string -> string -> result Signature;
  (* PrivateKey.prototype.getDerivedAddress() *)
  getDerivedAddress : PrivateKey -> string;
}.

(** [MAXIMUM_KEY_NUM] of keyringHelper, a constant that is not among the
    sources. *)
Class KeyringHelper : Type := { MAXIMUM_KEY_NUM : nat }.

(** ** The cryptographic backend and the world *)

(** What [cipher.update(data)] followed by [cipher.final()] returns. *)
Definition CipherRun : Type := Buffer -> option Buffer.

(** scrypt-shim, the [crypto] module, [utils.sha3] and [uuid]; a call
    that raises an exception returns [None]. *)
Class Crypto : Type := {
  Entropy : Type;
  (* cryp.randomBytes(n) *)
  randomBytes : nat -> Entropy -> Buffer * Entropy;
  (* scrypt(password, salt, n, r, p, dklen); an absent parameter is None *)
  scrypt : Buffer -> Buffer -> option Z -> option Z -> option Z -> Z -> option Buffer;
  (* cryp.pbkdf2Sync(password, salt, c, dklen, digest) *)
  pbkdf2Sync : Buffer -> Buffer -> option Z -> Z -> string -> option Buffer;
  (* utils.sha3(buffer): the hash as 0x-prefixed hex *)
  sha3 : Buffer -> string;
  (* cryp.createCipheriv(name, key, iv): a falsy result is Some None *)
  createCipheriv : string -> Buffer -> Buffer -> option (option CipherRun);
  (* cryp.createDecipheriv(name, key, iv) *)
  createDecipheriv : string -> Buffer -> Buffer -> option CipherRun;
  (* uuid.v4({ random }) *)
  uuid_v4 : Buffer -> string;
}.

(** The calls the properties below observe. *)
Inductive Event : Type :=
| Warned (message : string)                       (* console.warn *)
| Enciphered (cipher : string) (key iv data : Buffer)
| Deciphered (cipher : string) (key iv data : Buffer).

Section Monad.
Context {crypto : Crypto}.

Record World : Type := { entropy : Entropy; events : list Event }.

Definition M (A : Type) : Type := World -> result A * World.

Definition ret {A} (a : A) : M A := fun w => (Ok a, w).
Definition throw {A} (e : Error) : M A := fun w => (Throw e, w).
Definition bind {A B} (m : M A) (k : A -> M B) : M B :=
  fun w =>
    match m w with
    | (Ok a, w') => k a w'
    | (Throw e, w') => (Throw e, w')
    end.
Definition lift {A} (r : result A) : M A := fun w => (r, w).

Definition emit (e : Event) : M unit :=
  fun w => (Ok tt, {| entropy := entropy w; events := events w ++ [e] |}).

Definition draw (n : nat) : M Buffer :=
  fun w =>
    let (b, s) := randomBytes n (entropy w) in
    (Ok b, {| entropy := s; events := events w |}).

(** [console.warn]. *)
Definition console_warn (message : string) : M unit := emit (Warned message).

(** [createCipheriv(...)], [update] and [final], logged. *)
Definition encipher (name : string) (key iv data : Buffer) : M Buffer :=
  bind (lift (of_backend (createCipheriv name key iv))) (fun c =>
  match c with
  | None => throw UnsupportedCipher
  | Some run =>
      bind (emit (Enciphered name key iv data)) (fun _ => lift (of_backend (run data)))
  end).

(** [createDecipheriv(...)], [update] and [final], logged. *)
Definition decipher (name : string) (key iv data : Buffer) : M Buffer :=
  bind (lift (of_backend (createDecipheriv name key iv))) (fun run =>
  bind (emit (Deciphered name key iv data)) (fun _ => lift (of_backend (run data)))).
End Monad.

Notation "'do!' x <- m ; k" := (bind m (fun x => k))
  (at level 10, x name, m at level 100, k at level 200) : js_scope.
Notation "'do!' ' p <- m ; k" := (bind m (fun x => match x with p => k end))
  (at level 10, p pattern, m at level 100, k at level 200) : js_scope.

(** ** Keyring: construction *)

(** One element of the key material handed to a keyring: a private key
    string, a [PrivateKey] instance, or [undefined]. *)
Inductive KeyValue : Type :=
| KeyString (s : string)
| KeyObject (k : PrivateKey)
| KeyUndefined.

(** The [key] argument of the constructor: one element, an array of
    elements, or an array of arrays (one per role). *)
Inductive KeyInput : Type :=
| SingleInput (k : KeyValue)
| ArrayInput (l : list KeyValue)
| NestedInput (l : list (list KeyValue)).

Definition isKey (v : KeyValue) : bool :=
  match v with KeyUndefined => false | _ => true end.

(** Modelled from the spec: [isMultipleKeysFormat] and
    [isRoleBasedKeysFormat] are declared in keyringHelper, which is not
    among the sources.  The accepted shapes are "single key, list of
    keys, role-partitioned lists, or the PrivateKey-object equivalents";
    a role partition has at most [RoleLast] slots.  The empty array is
    both an empty list of keys and an empty partition. *)
Definition isMultipleKeysFormat (key : KeyInput) : bool :=
  match key with
  | ArrayInput l => forallb isKey l
  | NestedInput [] => true
  | _ => false
  end.

Definition isRoleBasedKeysFormat (key : KeyInput) : bool :=
  match key with
  | NestedInput l => (length l <=? Z.to_nat KEY_ROLE.RoleLast)%nat
  | ArrayInput [] => true
  | _ => false
  end.

(** [new PrivateKey(key)], and the [instanceof] test of [fillRoleKey]
    that keeps an instance as it is. *)
Definition new_PrivateKey (key : KeyValue) : result PrivateKey :=
  match key with
  | KeyString s =>
      if isValidPrivateKey s
      then Ok {| scalar := Buffer_from_hex (stripHexPrefix s) |}
      else Throw InvalidPrivateKey
  | KeyObject k => Ok k
  | KeyUndefined => Throw InvalidPrivateKey
  end.

(** [generateKeysFormat()]: [RoleLast] empty lists. *)
Definition generateKeysFormat : list (list PrivateKey) :=
  repeat [] (Z.to_nat KEY_ROLE.RoleLast).

(** [keys[role].push(key)]. *)
Fixpoint push_key (keys : list (list PrivateKey)) (role : nat) (key : PrivateKey)
  : result (list (list PrivateKey)) :=
  match keys, role with
  | l :: rest, O => Ok ((l ++ [key]) :: rest)
  | l :: rest, S role' => try! rest' <- push_key rest role' key; Ok (l :: rest')
  | [], _ => Throw TypeError
  end.

Fixpoint push_keys (keys : list (list PrivateKey)) (role : nat) (keyToAdd : list KeyValue)
  : result (list (list PrivateKey)) :=
  match keyToAdd with
  | [] => Ok keys
  | keyString :: more =>
      try! key <- new_PrivateKey keyString;
      try! keys' <- push_key keys role key;
      push_keys keys' role more
  end.

Section KeyringConstruction.
Context {helper : KeyringHelper}.

(** [fillRoleKey(keys, role, keyToAdd)]; [keyToAdd] is [keyInput[role]],
    an array or [undefined] ([None]). *)
Definition fillRoleKey (keys : list (list PrivateKey)) (role : nat)
           (keyToAdd : option (list KeyValue)) : result (list (list PrivateKey)) :=
  match keyToAdd with
  | None => Ok keys
  | Some keyToAdd =>
      if (MAXIMUM_KEY_NUM <? length keyToAdd)%nat then Throw TooManyKeys
      else if (Z.to_nat KEY_ROLE.RoleLast <=? role)%nat then Throw UnsupportedRole
      else push_keys keys role keyToAdd
  end.

(** [formattingForKeyInKeyring(keyInput)] for a key input that is not
    [null]. *)
Definition formattingForKeyInKeyring (keyInput : KeyInput)
  : result (list (list PrivateKey)) :=
  try! keyInput <-
    match keyInput with
    | SingleInput KeyUndefined => Throw InvalidKeyFormat
    | SingleInput k => Ok [[k]; []; []]
    | ArrayInput l =>
        if isMultipleKeysFormat keyInput then Ok [l; []; []]
        else Throw InvalidKeyFormat
    | NestedInput l =>
        if isMultipleKeysFormat keyInput then Ok [[]; []; []]
        else if negb (isRoleBasedKeysFormat keyInput) then Throw InvalidKeyFormat
        else Ok l
    end;
  let keys := generateKeysFormat in
  try! keys <- fillRoleKey keys 0 (nth_error keyInput 0);
  try! keys <- fillRoleKey keys 1 (nth_error keyInput 1);
  try! keys <- fillRoleKey keys 2 (nth_error keyInput 2);
  Ok keys.

(** A keyring instance: [_address] and [_keys]. *)
Record Keyring : Type := { _address : string; _keys : list (list PrivateKey) }.

(** The [address] setter. *)
Definition set_address (addressInput : string) : result string :=
  if negb (isAddress addressInput) then Throw InvalidAddress
  else Ok (toLowerCase (addHexPrefix addressInput)).

(** [new Keyring(address, keys)]: both setters, in order. *)
Definition new_Keyring (address : string) (keys : KeyInput) : result Keyring :=
  try! a <- set_address address;
  try! ks <- formattingForKeyInKeyring keys;
  Ok {| _address := a; _keys := ks |}.

Definition createWithRoleBasedKey (address : string) (roledBasedKeyArray : KeyInput)
  : result Keyring :=
  if negb (isRoleBasedKeysFormat roledBasedKeyArray) then Throw InvalidParameterFormat
  else new_Keyring address roledBasedKeyArray.

Definition createWithMultipleKey (address : string) (keyArray : KeyInput)
  : result Keyring :=
  if negb (isMultipleKeysFormat keyArray) then Throw InvalidParameterFormat
  else new_Keyring address keyArray.

(** [copy()]. *)
Definition copy (this : Keyring) : result Keyring :=
  new_Keyring (_address this) (NestedInput (map (map KeyObject) (_keys this))).
End KeyringConstruction.

(** ** Keyring: reading and signing *)

(** [array[i]] for a number [i]: [undefined] outside the array. *)
Definition at_index {A} (l : list A) (i : Z) : option A :=
  if (i <? 0)%Z then None else nth_error l (Z.to_nat i).

(** The [index] argument of [signWithKey]. *)
Inductive IndexArg : Type :=
| IndexOmitted
| IndexNumber (i : Z)
| IndexNotNumber.

Section KeyringReading.
Context {helper : KeyringHelper} {prim : KeyPrimitives}.

(** [getKeyByRole(role)]; [None] is [undefined]. *)
Definition getKeyByRole (this : Keyring) (role : option Z) : result (list PrivateKey) :=
  match role with
  | None => Throw RoleUndefined
  | Some role =>
      match at_index (_keys this) role with
      | None => Throw TypeError
      | Some key =>
          if (length key =? 0)%nat && (role >? KEY_ROLE.RoleTransactionKey)%Z then
            match at_index (_keys this) KEY_ROLE.RoleTransactionKey with
            | None => Throw TypeError
            | Some txKey =>
                if (length txKey =? 0)%nat then Throw KeyNotExist else Ok txKey
            end
          else Ok key
      end
  end.

(** [signWithKey(transactionHash, chainId, role, index = 0)]. *)
Definition signWithKey (this : Keyring) (transactionHash : string)
           (chainId : option ChainId) (role : option Z) (index : IndexArg)
  : result Signature :=
  if negb (isValidHashStrict transactionHash) then Throw InvalidTransactionHash
  else
    match chainId with
    | None => Throw ChainIdUndefined
    | Some chainId =>
        let chainId := toHex chainId in
        match role with
        | None => Throw RoleUndefined
        | Some _ =>
            try! keys <- getKeyByRole this role;
            match index with
            | IndexNotNumber => Throw InvalidIndexType
            | IndexOmitted | IndexNumber _ =>
                let index := match index with IndexNumber i => i | _ => 0%Z end in
                if (index <? 0)%Z then Throw NegativeIndex
                else if (index >=? Z.of_nat (length keys))%Z then Throw IndexOutOfRange
                else
                  match at_index keys index with
                  | None => Throw TypeError
                  | Some key => key_sign key transactionHash chainId
                  end
            end
        end
    end.

(** [signWithKeys(transactionHash, chainId, role)]. *)
Definition signWithKeys (this : Keyring) (transactionHash : string)
           (chainId : option ChainId) (role : option Z) : result (list Signature) :=
  if negb (isValidHashStrict transactionHash) then Throw InvalidTransactionHash
  else
    match chainId with
    | None => Throw ChainIdUndefined
    | Some chainId =>
        let chainId := toHex chainId in
        match role with
        | None => Throw RoleUndefined
        | Some _ =>
            try! keys <- getKeyByRole this role;
            fold_left
              (fun signatures key =>
                 try! signatures <- signatures;
                 try! s <- key_sign key transactionHash chainId;
                 Ok (signatures ++ [s]))
              keys (Ok [])
        end
    end.

(** [isDecoupled()]. *)
Definition isDecoupled (this : Keyring) : result bool :=
  let isMultiple := existsb (fun roledKey => (1 <? length roledKey)%nat) (_keys this) in
  if isMultiple then Ok true
  else
    match at_index (_keys this) 0 with
    | None => Throw TypeError
    | Some roledKey =>
        match at_index roledKey 0 with
        | None => Throw TypeError
        | Some key =>
            let derived := getDerivedAddress key in
            Ok (negb (String.eqb (toLowerCase (_address this)) (toLowerCase derived)))
        end
    end.

(** [isEmptyKey(keys)]. *)
Definition isEmptyKey (keys : list (list PrivateKey)) : bool :=
  forallb (fun key => negb (0 <? length key)%nat) keys.
End KeyringReading.

(** ** Keystore records *)

(** [kdfparams]: [dklen] and [salt], then [c] and [prf] (pbkdf2) or [n],
    [r] and [p] (scrypt); an absent property is [None]. *)
Record KdfParams : Type := {
  kdf_dklen : Z;
  kdf_salt : string;
  kdf_c : option Z;
  kdf_prf : option string;
  kdf_n : option Z;
  kdf_r : option Z;
  kdf_p : option Z;
}.

(** One crypto object of a keystore. *)
Record CryptoObject : Type := {
  ciphertext : string;
  cipherparams_iv : string;
  cipher : string;
  kdf : string;
  kdfparams : KdfParams;
  mac : string;
}.

(** What the [crypto] and [keyring] fields hold: crypto objects and
    arrays of them. *)
#[warnings="-register-all"]
Inductive Json : Type :=
| JCrypto (c : CryptoObject)
| JArray (l : list Json).

(** A keystore; [ks_version] is [None] when the field is not an integer
    (absent, a string, ...). *)
Record Keystore : Type := {
  ks_version : option Z;
  ks_id : string;
  ks_address : string;
  ks_crypto : option Json;
  ks_keyring : option Json;
}.

(** The [options] of the encrypt functions; an absent property is
    [None]. *)
Record Options : Type := {
  opt_salt : option Buffer;
  opt_iv : option Buffer;
  opt_kdf : option string;
  opt_dklen : option Z;
  opt_c : option Z;
  opt_n : option Z;
  opt_r : option Z;
  opt_p : option Z;
  opt_cipher : option string;
  opt_uuid : option Buffer;
  opt_address : option string;
}.

(** [x || d] on a number: [0] and [undefined] are falsy. *)
Definition num_or (x : option Z) (d : Z) : Z :=
  match x with
  | Some v => if (v =? 0)%Z then d else v
  | None => d
  end.

(** [x || d] on a string: the empty string and [undefined] are falsy. *)
Definition str_or (x : option string) (d : string) : string :=
  match x with
  | Some EmptyString | None => d
  | Some s => s
  end.

(** The truthiness of a property that holds an object or is absent. *)
Definition is_object {A} (x : option A) : bool :=
  match x with Some _ => true | None => false end.

(** [json[i]]: an array's element, [undefined] otherwise. *)
Definition json_index (j : Json) (i : Z) : option Json :=
  match j with
  | JArray l => at_index l i
  | JCrypto _ => None
  end.

(** [_.isArray(x)]. *)
Definition isArray (x : option Json) : bool :=
  match x with Some (JArray _) => true | _ => false end.

(** The [privateKey] argument of [encryptKey]: [undefined], one
    [PrivateKey], or an array of them. *)
Inductive KeyArg : Type :=
| ArgUndefined
| ArgKey (k : PrivateKey)
| ArgKeys (l : list PrivateKey).

Section KeystoreCodec.
Context {helper : KeyringHelper} {crypto : Crypto}.

(** [for (... of l) out.push(f(...))]: in order, up to the first
    exception. *)
Fixpoint for_each {A B} (f : A -> M B) (l : list A) : M (list B) :=
  match l with
  | [] => ret []
  | x :: rest =>
      do! y <- f x;
      do! ys <- for_each f rest;
      ret (y :: ys)
  end.

(** [options.salt || cryp.randomBytes(n)] for a buffer option. *)
Definition buffer_or_random (x : option Buffer) (n : nat) : M Buffer :=
  match x with
  | Some b => ret b
  | None => draw n
  end.

(** The mac of a crypto object:
    [utils.sha3(Buffer.concat([derivedKey.slice(16, 32), ciphertext])).replace('0x', '')]. *)
Definition compute_mac (derivedKey ciphertext : Buffer) : string :=
  remove_first_0x (sha3 (Buffer_slice 16 32 derivedKey ++ ciphertext)).

(** The body of the loop of [encryptKey]. *)
Definition encryptKey_step (password : string) (options : Options) (key : PrivateKey)
  : M CryptoObject :=
  do! salt <- buffer_or_random (opt_salt options) 32;
  do! iv <- buffer_or_random (opt_iv options) 16;
  let kdf := str_or (opt_kdf options) "scrypt" in
  let dklen := num_or (opt_dklen options) 32 in
  let salt_hex := toString_hex salt in
  do! '(kdfparams, derivedKey) <-
    (if String.eqb kdf "pbkdf2" then
       let c := num_or (opt_c options) 262144 in
       do! derivedKey <- lift (of_backend
                                 (pbkdf2Sync (Buffer_from password) (Buffer_from_hex salt_hex)
                                             (Some c) dklen "sha256"));
       ret ({| kdf_dklen := dklen; kdf_salt := salt_hex;
               kdf_c := Some c; kdf_prf := Some "hmac-sha256";
               kdf_n := None; kdf_r := None; kdf_p := None |}, derivedKey)
     else if String.eqb kdf "scrypt" then
       let n := num_or (opt_n options) 4096 in
       let r := num_or (opt_r options) 8 in
       let p := num_or (opt_p options) 1 in
       do! derivedKey <- lift (of_backend
                                 (scrypt (Buffer_from password) (Buffer_from_hex salt_hex)
                                         (Some n) (Some r) (Some p) dklen));
       ret ({| kdf_dklen := dklen; kdf_salt := salt_hex;
               kdf_c := None; kdf_prf := None;
               kdf_n := Some n; kdf_r := Some r; kdf_p := Some p |}, derivedKey)
     else throw UnsupportedKdf);
  let cipherName := str_or (opt_cipher options) "aes-128-ctr" in
  do! ciphertext <- encipher cipherName (Buffer_slice 0 16 derivedKey) iv
                      (Buffer_from_hex (remove_first_0x (privateKey key)));
  let mac := compute_mac derivedKey ciphertext in
  ret {| ciphertext := toString_hex ciphertext;
         cipherparams_iv := toString_hex iv;
         cipher := cipherName;
         kdf := kdf;
         kdfparams := kdfparams;
         mac := mac |}.

(** [encryptKey(privateKey, password, options)]. *)
Definition encryptKey (privateKey : KeyArg) (password : string) (options : Options)
  : M (list CryptoObject) :=
  match privateKey with
  | ArgUndefined => ret []
  | ArgKey k => for_each (encryptKey_step password options) [k]
  | ArgKeys l => for_each (encryptKey_step password options) l
  end.

(** [formatEncrypted(version, address, keyringOrCrypto, options)]. *)
Definition formatEncrypted (version : Z) (address : string) (keyringOrCrypto : Json)
           (options : Options) : M Keystore :=
  do! random <- buffer_or_random (opt_uuid options) 16;
  let id := uuid_v4 random in
  let address := toLowerCase address in
  if (version =? 3)%Z then
    ret {| ks_version := Some version; ks_id := id; ks_address := address;
           ks_crypto := Some keyringOrCrypto; ks_keyring := None |}
  else if (version =? 4)%Z then
    ret {| ks_version := Some version; ks_id := id; ks_address := address;
           ks_crypto := None; ks_keyring := Some keyringOrCrypto |}
  else throw UnsupportedKeystoreVersion.

Definition crypto_array (l : list CryptoObject) : Json := JArray (map JCrypto l).

(** One turn of the loop of [encrypt]: role [i] of the keyring. *)
Definition encrypt_role (this : Keyring) (password : string) (options : Options)
           (i : Z) (isRoleBased : bool) : M (Json * bool) :=
  let roledKey := at_index (_keys this) i in
  do! isRoleBased <-
    (if (i >? KEY_ROLE.RoleTransactionKey)%Z then
       match roledKey with
       | None => throw TypeError
       | Some roledKey => ret (if (0 <? length roledKey)%nat then true else isRoleBased)
       end
     else ret isRoleBased);
  do! encrypted <- encryptKey (match roledKey with
                               | Some roledKey => ArgKeys roledKey
                               | None => ArgUndefined
                               end) password options;
  ret (crypto_array encrypted, isRoleBased).

(** [Keyring.prototype.encrypt(password, options)]. *)
Definition encrypt (this : Keyring) (password : string) (options : Options) : M Keystore :=
  do! '(k0, isRoleBased) <- encrypt_role this password options 0 false;
  do! '(k1, isRoleBased) <- encrypt_role this password options 1 isRoleBased;
  do! '(k2, isRoleBased) <- encrypt_role this password options 2 isRoleBased;
  let keyring := if negb isRoleBased then k0 else JArray [k0; k1; k2] in
  formatEncrypted 4 (_address this) keyring options.

(** [Keyring.prototype.encryptV3(password, options)]. *)
Definition encryptV3 (this : Keyring) (password : string) (options : Options) : M Keystore :=
  match at_index (_keys this) KEY_ROLE.RoleTransactionKey with
  | None => throw TypeError
  | Some txKey =>
      if (1 <? length txKey)%nat then throw KeystoreV3NotAvailable
      else
        do! _ <- for_each
              (fun i =>
                 match at_index (_keys this) i with
                 | None => throw TypeError
                 | Some roledKey =>
                     if (0 <? length roledKey)%nat then throw KeystoreV3NotAvailable
                     else ret tt
                 end)
              [KEY_ROLE.RoleAccountUpdateKey; KEY_ROLE.RoleFeePayerKey];
        do! crypto <- encryptKey (match at_index txKey 0 with
                                  | Some k => ArgKey k
                                  | None => ArgUndefined
                                  end) password options;
        formatEncrypted 3 (_address this) (crypto_array crypto) options
  end.

(** The key derivation of [decryptKey] for one crypto object. *)
Definition derive (encrypted : CryptoObject) (password : string) : result Buffer :=
  let kdfparams := kdfparams encrypted in
  if String.eqb (kdf encrypted) "scrypt" then
    of_backend
      (scrypt (Buffer_from password) (Buffer_from_hex (kdf_salt kdfparams))
              (kdf_n kdfparams) (kdf_r kdfparams) (kdf_p kdfparams) (kdf_dklen kdfparams))
  else if String.eqb (kdf encrypted) "pbkdf2" then
    if negb (match kdf_prf kdfparams with
             | Some prf => String.eqb prf "hmac-sha256"
             | None => false
             end)
    then Throw UnsupportedPbkdf2Params
    else of_backend
           (pbkdf2Sync (Buffer_from password) (Buffer_from_hex (kdf_salt kdfparams))
                       (kdf_c kdfparams) (kdf_dklen kdfparams) "sha256")
  else Throw UnsupportedKdfScheme.

(** The body of the loop of [decryptKey]; an element that is not a
    crypto object has no [kdf]. *)
Definition decryptKey_step (password : string) (encrypted : Json) : M string :=
  match encrypted with
  | JArray _ => throw UnsupportedKdfScheme
  | JCrypto encrypted =>
      do! derivedKey <- lift (derive encrypted password);
      let ciphertext := Buffer_from_hex (ciphertext encrypted) in
      let mac' := compute_mac derivedKey ciphertext in
      if negb (String.eqb mac' (mac encrypted)) then throw WrongPassword
      else
        do! plain <- decipher (cipher encrypted) (Buffer_slice 0 16 derivedKey)
                              (Buffer_from_hex (cipherparams_iv encrypted)) ciphertext;
        ret ("0x" ++ toString_hex plain)%string
  end.

(** [decryptKey(encryptedArray, password)]; the result [None] is
    [undefined]. *)
Definition decryptKey (encryptedArray : option Json) (password : string)
  : M (option (list string)) :=
  match encryptedArray with
  | None => ret None
  | Some (JArray []) => ret None
  | Some (JCrypto _) => throw TypeError
  | Some (JArray l) =>
      do! decryptedArray <- for_each (decryptKey_step password) l;
      ret (Some decryptedArray)
  end.

(** [decrypted ? keys.push(decrypted) : keys.push([])]. *)
Definition role_keys (decrypted : option (list string)) : list KeyValue :=
  match decrypted with
  | Some l => map KeyString l
  | None => []
  end.

(** The first part of [Keyring.decrypt]: the warning, the checks of the
    record and the wrapping of a [crypto] field; the result is what
    [json.keyring] then holds. *)
Definition decrypt_checks (keystore : Keystore) : M (option Json) :=
  let version := ks_version keystore in
  let versionIs v := match version with Some x => (x =? v)%Z | None => false end in
  do! _ <- (if negb (versionIs 3%Z) && negb (versionIs 4%Z)
            then console_warn "This is not a V3 or V4 wallet." else ret tt);
  do! _ <- (if versionIs 3%Z && negb (is_object (ks_crypto keystore))
            then throw KeystoreV3WithoutCrypto
            else if versionIs 4%Z && negb (is_object (ks_keyring keystore))
                 then throw KeystoreV4WithoutKeyring
                 else ret tt);
  match ks_crypto keystore with
  | Some c =>
      if is_object (ks_keyring keystore) then throw CryptoAndKeyringTogether
      else ret (Some (JArray [c]))
  | None => ret (ks_keyring keystore)
  end.

(** The second part of [Keyring.decrypt]: the key material decrypted
    from [json.keyring], one list per role. *)
Definition decrypt_keys (keyring : option Json) (password : string)
  : M (list (list KeyValue)) :=
  match keyring with
  | None => throw TypeError
  | Some keyring =>
      if isArray (json_index keyring 0) then
        do! transactionKey <-
          decryptKey (json_index keyring KEY_ROLE.RoleTransactionKey) password;
        do! updateKey <-
          decryptKey (json_index keyring KEY_ROLE.RoleAccountUpdateKey) password;
        do! feePayerKey <-
          decryptKey (json_index keyring KEY_ROLE.RoleFeePayerKey) password;
        ret [role_keys transactionKey; role_keys updateKey; role_keys feePayerKey]
      else
        do! decrypted <- decryptKey (Some keyring) password;
        let decrypted := match decrypted with
                         | Some l => map KeyString l
                         | None => [KeyUndefined]
                         end in
        ret (decrypted ::
             repeat [] (Z.to_nat (KEY_ROLE.RoleLast - Z.of_nat (length decrypted))))
  end.

(** [Keyring.decrypt(keystore, password)] on a keystore object. *)
Definition decrypt (keystore : Keystore) (password : string) : M Keyring :=
  do! keyring <- decrypt_checks keystore;
  do! keys <- decrypt_keys keyring password;
  lift (createWithRoleBasedKey (ks_address keystore) (NestedInput keys)).
End KeystoreCodec.

(** ** The FeeDelegatedChainDataAnchoring transaction *)

(** A property value of a transaction object and an item of an RLP
    tree: a string, or an array of values.  An absent property
    ([undefined]) is [None]. *)
#[warnings="-register-all"]
Inductive Value : Type :=
| VString (s : string)
| VArray (l : list Value).

(** [RLP] of eth-lib, a library outside the repository. *)
Class RlpCodec : Type := {
  RLP_encode : Value -> string;
  RLP_decode : string -> Value;
}.

(** The entries of [TX_TYPE_STRING] and [TX_TYPE_TAG] of
    transactionHelper for this transaction type; the tables are not
    among the sources. *)
Class TransactionHelper : Type := {
  TX_TYPE_STRING : string;
  TX_TYPE_TAG : string;
}.

(** Modelled from the spec: [Bytes.fromNat] of eth-lib, a library
    outside the repository, gives a quantity its wire form, the
    "minimal big-endian encoding (no leading zero byte, empty encoding
    for zero)": the zero quantity becomes the empty byte string, an odd
    number of digits gets a zero digit in front to make whole bytes. *)
Definition Bytes_fromNat (bn : string) : string :=
  if String.eqb bn "0x0" then "0x"
  else if Nat.even (String.length bn) then bn
  else "0x0" ++ slice_from 2 bn.

(** The truthiness of a property value. *)
Definition truthy (v : option Value) : bool :=
  match v with
  | None => false
  | Some (VString EmptyString) => false
  | Some _ => true
  end.

(** [a || b]. *)
Definition value_or (a b : option Value) : option Value :=
  if truthy a then a else b.

(** [const [x0, x1, ...] = v]: the [i]-th element the destructuring
    receives; a string hands out its characters. *)
Definition destructure (v : Value) (i : nat) : option Value :=
  match v with
  | VArray l => nth_error l i
  | VString s =>
      match String.get i s with
      | Some c => Some (VString (String c EmptyString))
      | None => None
      end
  end.

(** [utils.trimLeadingZero] on what the destructuring hands over:
    [undefined] is returned as it is, an array has no [startsWith]. *)
Definition trimLeadingZero_value (v : option Value) : result (option Value) :=
  match v with
  | None => Ok None
  | Some (VString s) => Ok (Some (VString (trimLeadingZero s)))
  | Some (VArray _) => Throw TypeError
  end.

(** The object a transaction is created from. *)
Record CreateTxObj : Type := {
  o_nonce : option Value;
  o_gasPrice : option Value;
  o_gas : option Value;
  o_from : option Value;
  o_input : option Value;
  o_data : option Value;
  o_signatures : option Value;
  o_feePayer : option Value;
  o_feePayerSignatures : option Value;
  o_chainId : option Value;
}.

(** Modelled from the spec: the state kept by the abstract classes
    (AbstractTransaction and AbstractFeeDelegatedTransaction), which are
    not among the sources.  [nonce], [gasPrice] and [gas] are
    "non-negative integers", [signatures] and [feePayerSignatures] are
    lists of [(v, r, s)] triples, [feePayer] is an address "stored
    lower-cased", or the empty hex text [0x] while there is no fee
    payer.  The nonce, the gas price and the chain id are the optional
    fields: an object may leave them out, and they are [undefined]
    until they are set; [encode] "requires all optional/required fields
    already validated". *)
Record BaseTransaction : Type := {
  _type : string;
  _nonce : option N;
  _gasPrice : option N;
  _gas : N;
  _signatures : list Signature;
  _feePayer : string;
  _feePayerSignatures : list Signature;
  _chainId : option Value;
}.

(** Modelled from the spec: the setter of a numeric field reads a hex
    quantity as the non-negative integer it denotes; any other value is
    refused ("setters that re-validate on every assignment"). *)
Definition set_quantity (v : option Value) : result N :=
  match v with
  | Some (VString (String "0" (String "x" digits))) =>
      if isHexString digits then Ok (HexString.Raw.to_N digits 0%N)
      else Throw InvalidTransactionField
  | _ => Throw InvalidTransactionField
  end.

(** [v !== undefined]. *)
Definition is_defined {A} (v : option A) : bool :=
  match v with Some _ => true | None => false end.

(** Modelled from the spec: an optional numeric field stays
    [undefined] when the object does not define it, and goes through
    the setter when it does. *)
Definition set_optional_quantity (v : option Value) : result (option N) :=
  match v with
  | None => Ok None
  | Some _ => try! n <- set_quantity v; Ok (Some n)
  end.

(** Modelled from the spec: a signature list is an array of [(v, r, s)]
    string triples. *)
Definition as_signature (v : Value) : result Signature :=
  match v with
  | VArray [VString v; VString r; VString s] =>
      Ok {| sig_v := v; sig_r := r; sig_s := s |}
  | _ => Throw InvalidTransactionField
  end.

Fixpoint as_signatures (l : list Value) : result (list Signature) :=
  match l with
  | [] => Ok []
  | v :: rest =>
      try! s <- as_signature v;
      try! ss <- as_signatures rest;
      Ok (s :: ss)
  end.

Definition set_signatures (v : option Value) : result (list Signature) :=
  match v with
  | None => Ok []
  | Some (VArray l) => as_signatures l
  | Some (VString _) => Throw InvalidTransactionField
  end.

(** Modelled from the spec: the fee payer "must pass the address-format
    check" and is "stored lower-cased"; a fee payer that is absent,
    empty or the empty hex text is kept as the empty hex text [0x]. *)
Definition set_feePayer (v : option Value) : result string :=
  match v with
  | None => Ok "0x"
  | Some (VString a) =>
      if negb (truthy v) || String.eqb a "0x" then Ok "0x"
      else if isAddress a then Ok (toLowerCase a)
      else Throw InvalidTransactionField
  | Some (VArray _) => Throw InvalidTransactionField
  end.

(** Modelled from the spec: the constructor of the abstract classes,
    [super(typeString, createTxObj)].  The "presence of both [input]
    and [data] at construction time is a hard error"; the gas is set
    from the object, the optional fields are set when the object
    defines them. *)
Definition super (typeString : string) (createTxObj : CreateTxObj) : result BaseTransaction :=
  if is_defined (o_input createTxObj) && is_defined (o_data createTxObj)
  then Throw InvalidTransactionField
  else
    try! gas <- set_quantity (o_gas createTxObj);
    try! nonce <- set_optional_quantity (o_nonce createTxObj);
    try! gasPrice <- set_optional_quantity (o_gasPrice createTxObj);
    try! signatures <- set_signatures (o_signatures createTxObj);
    try! feePayer <- set_feePayer (o_feePayer createTxObj);
    try! feePayerSignatures <- set_signatures (o_feePayerSignatures createTxObj);
    Ok {| _type := typeString; _nonce := nonce; _gasPrice := gasPrice; _gas := gas;
          _signatures := signatures; _feePayer := feePayer;
          _feePayerSignatures := feePayerSignatures;
          _chainId := o_chainId createTxObj |}.

(** Modelled from the spec: [validateOptionalValues()] of the abstract
    classes; encoding "requires all optional/required fields already
    validated (chain id defined, addresses well-formed)": the gas
    price, the nonce and the chain id have to be defined. *)
Definition validateOptionalValues (base : BaseTransaction) : result unit :=
  match _gasPrice base, _nonce base, _chainId base with
  | Some _, Some _, Some _ => Ok tt
  | _, _, _ => Throw InvalidTransactionField
  end.

(** Modelled from the spec: the getters of the numeric fields hand out
    the hex quantity, the getters of the signature lists the arrays of
    triples. *)
Definition quantity (n : N) : string := HexString.of_N n.

(** Modelled from the spec: the getter of an optional numeric field;
    the text [undefined] stands for a field that is not set.  The
    encoders read the getter behind [validateOptionalValues], which
    throws for such a field, so that this text is never encoded. *)
Definition optional_quantity (n : option N) : string :=
  match n with
  | Some n => quantity n
  | None => "undefined"
  end.

Definition signature_value (s : Signature) : Value :=
  VArray [VString (sig_v s); VString (sig_r s); VString (sig_s s)].

Definition signatures_value (l : list Signature) : Value :=
  VArray (map signature_value l).

(** An instance of the transaction: the state of the abstract classes,
    [_from] and [_input]. *)
Record FeeDelegatedChainDataAnchoring : Type := {
  base : BaseTransaction;
  _from : string;
  _input : string;
}.

(** The [from] setter. *)
Definition set_from (address : option Value) : result string :=
  match address with
  | Some (VString address) =>
      if negb (isAddress address) then Throw InvalidFrom
      else Ok (toLowerCase address)
  | _ => Throw InvalidFrom
  end.

(** The [input] setter. *)
Definition set_input (input : option Value) : result string :=
  match input with
  | Some (VString input) =>
      if negb (truthy (Some (VString input))) || negb (isHex input)
      then Throw InvalidInputData
      else Ok (addHexPrefix input)
  | _ => Throw InvalidInputData
  end.

Section Transaction.
Context {rlp : RlpCodec} {txHelper : TransactionHelper}.

(** [_decode(rlpEncoded)]. *)
Definition _decode (rlpEncoded : string) : result CreateTxObj :=
  let rlpEncoded := addHexPrefix rlpEncoded in
  if negb (startsWith rlpEncoded TX_TYPE_TAG) then Throw TagMismatch
  else
    let typeDettached := ("0x" ++ slice_from 4 rlpEncoded)%string in
    let decoded := RLP_decode typeDettached in
    try! nonce <- trimLeadingZero_value (destructure decoded 0);
    try! gasPrice <- trimLeadingZero_value (destructure decoded 1);
    try! gas <- trimLeadingZero_value (destructure decoded 2);
    Ok {| o_nonce := nonce;
          o_gasPrice := gasPrice;
          o_gas := gas;
          o_from := destructure decoded 3;
          o_input := destructure decoded 4;
          o_data := None;
          o_signatures := destructure decoded 5;
          o_feePayer := destructure decoded 6;
          o_feePayerSignatures := destructure decoded 7;
          o_chainId := None |}.

(** [new FeeDelegatedChainDataAnchoring(createTxObj)] for an object. *)
Definition new_FeeDelegatedChainDataAnchoring (createTxObj : CreateTxObj)
  : result FeeDelegatedChainDataAnchoring :=
  try! base <- super TX_TYPE_STRING createTxObj;
  try! from <- set_from (o_from createTxObj);
  if truthy (o_input createTxObj) && truthy (o_data createTxObj)
  then Throw InputAndDataTogether
  else
    try! input <- set_input (value_or (o_input createTxObj) (o_data createTxObj));
    Ok {| base := base; _from := from; _input := input |}.

(** [FeeDelegatedChainDataAnchoring.decode(rlpEncoded)], which is also
    what the constructor does with a string. *)
Definition decode (rlpEncoded : string) : result FeeDelegatedChainDataAnchoring :=
  try! createTxObj <- _decode rlpEncoded;
  new_FeeDelegatedChainDataAnchoring createTxObj.

(** The eight fields of the wire tuple, in order. *)
Definition wire_tuple (this : FeeDelegatedChainDataAnchoring) : Value :=
  VArray [ VString (Bytes_fromNat (optional_quantity (_nonce (base this))));
           VString (Bytes_fromNat (optional_quantity (_gasPrice (base this))));
           VString (Bytes_fromNat (quantity (_gas (base this))));
           VString (toLowerCase (_from this));
           VString (_input this);
           signatures_value (_signatures (base this));
           VString (toLowerCase (_feePayer (base this)));
           signatures_value (_feePayerSignatures (base this)) ].

(** [getRLPEncoding()]. *)
Definition getRLPEncoding (this : FeeDelegatedChainDataAnchoring) : result string :=
  try! _ <- validateOptionalValues (base this);
  Ok (TX_TYPE_TAG ++ slice_from 2 (RLP_encode (wire_tuple this)))%string.

(** [getCommonRLPEncodingForSignature()]. *)
Definition getCommonRLPEncodingForSignature (this : FeeDelegatedChainDataAnchoring)
  : result string :=
  try! _ <- validateOptionalValues (base this);
  Ok (RLP_encode
        (VArray [ VString TX_TYPE_TAG;
                  VString (Bytes_fromNat (optional_quantity (_nonce (base this))));
                  VString (Bytes_fromNat (optional_quantity (_gasPrice (base this))));
                  VString (Bytes_fromNat (quantity (_gas (base this))));
                  VString (toLowerCase (_from this));
                  VString (_input this) ])).
End Transaction.

(** ** Keyring: the other methods *)

(** What the functions below throw besides the errors above, one
    constructor per [throw] site; [Raised] carries an error of the
    functions above, or of the runtime. *)
Inductive Failure : Type :=
| Raised (e : Error)
| DefaultKeyEmpty          (* `Default key(...) does not have enough keys to sign.` *)
| RoleAndIndexNeeded       (* `To sign the given message, both role and index ...` *)
| WalletKeyNotAvailable    (* `The keyring cannot be exported in KlaytnWalletKey ...` *)
| EmptyKeyInKeyring        (* `Failed to create Account instance: Empty key in keyring.` *)
| OptionsNotArray          (* `options for an account should define threshold and ...` *)
| OptionsWithSingleKey     (* `options cannot be defined with single key.` *)
| UnsupportedKeyType       (* `Unsupported key type: ...` *)
| InvalidKlaytnWalletKey   (* `Invalid KlaytnWalletKey: ...` *)
| AddressNotDefined        (* `The address must be defined inside the options object ...` *)
| InvalidKeyToEncrypt      (* `Invalid key format.` *)
| AddressMismatch          (* `The address defined in options(...) does not match ...` *)
| InvalidKeyParameter.     (* `Invalid parameter. key should be a private key string, ...` *)

Inductive outcome (A : Type) : Type :=
| Returned (a : A)
| Failed (f : Failure).

Arguments Returned {A} a.
Arguments Failed {A} f.

Definition of_result {A} (r : result A) : outcome A :=
  match r with
  | Ok a => Returned a
  | Throw e => Failed (Raised e)
  end.

Definition obind {A B} (r : outcome A) (k : A -> outcome B) : outcome B :=
  match r with
  | Returned a => k a
  | Failed f => Failed f
  end.

Notation "'attempt!' x <- r ; k" := (obind r (fun x => k))
  (at level 10, x name, r at level 100, k at level 200) : js_scope.
Notation "'attempt!' ' p <- r ; k" := (obind r (fun x => match x with p => k end))
  (at level 10, p pattern, r at level 100, k at level 200) : js_scope.

(** [utils.hashMessage] and the message and public key side of
    [PrivateKey]: trusted primitives, as [KeyPrimitives] above. *)
Class MessagePrimitives : Type := {
  (* utils.hashMessage(message) *)
  hashMessage : string -> string;
  (* PrivateKey.prototype.signMessage(messageHash) *)
  key_signMessage : PrivateKey -> string -> result Signature;
  (* PrivateKey.prototype.getPublicKey() *)
  key_getPublicKey : PrivateKey -> string;
}.

(** What [signMessage] returns. *)
Record SignedMessage : Type := {
  sm_messageHash : string;
  sm_signature : Signature;
  sm_message : string;
}.

Section KeyringMessages.
Context {prim : KeyPrimitives} {messages : MessagePrimitives}.

(** [signMessage(message, role, index)]; [role] and [index] are numbers
    or [undefined] ([None]). *)
Definition signMessage (this : Keyring) (message : string) (role index : option Z)
  : outcome SignedMessage :=
  let messageHash := hashMessage message in
  attempt! '(role, index) <-
    match role, index with
    | None, None =>
        let role := KEY_ROLE.RoleTransactionKey in
        match at_index (_keys this) role with
        | None => Failed (Raised TypeError)
        | Some key =>
            if (length key =? 0)%nat then Failed DefaultKeyEmpty
            else Returned (role, 0%Z)
        end
    | None, Some _ | Some _, None => Failed RoleAndIndexNeeded
    | Some role, Some index => Returned (role, index)
    end;
  attempt! keys <- of_result (getKeyByRole this (Some role));
  if (index >=? Z.of_nat (length keys))%Z then Failed (Raised IndexOutOfRange)
  else
    match at_index keys index with
    | None => Failed (Raised TypeError)
    | Some key =>
        attempt! signature <- of_result (key_signMessage key messageHash);
        Returned {| sm_messageHash := messageHash;
                    sm_signature := signature;
                    sm_message := message |}
    end.

(** The getters [roleTransactionKey], [roleAccountUpdateKey] and
    [roleFeePayerKey]. *)
Definition roleTransactionKey (this : Keyring) : result (list PrivateKey) :=
  getKeyByRole this (Some KEY_ROLE.RoleTransactionKey).
Definition roleAccountUpdateKey (this : Keyring) : result (list PrivateKey) :=
  getKeyByRole this (Some KEY_ROLE.RoleAccountUpdateKey).
Definition roleFeePayerKey (this : Keyring) : result (list PrivateKey) :=
  getKeyByRole this (Some KEY_ROLE.RoleFeePayerKey).

(** [getPublicKey()]: the public keys of the keys, role by role. *)
Definition getPublicKey (this : Keyring) : result (list (list string)) :=
  let publicKeys (i : Z) : result (list string) :=
    match at_index (_keys this) i with
    | None => Throw TypeError
    | Some roledKey => Ok (map key_getPublicKey roledKey)
    end in
  try! p0 <- publicKeys 0%Z;
  try! p1 <- publicKeys 1%Z;
  try! p2 <- publicKeys 2%Z;
  Ok [p0; p1; p2].

(** [getKlaytnWalletKey()]. *)
Definition getKlaytnWalletKey (this : Keyring) : outcome string :=
  match at_index (_keys this) KEY_ROLE.RoleTransactionKey with
  | None => Failed (Raised TypeError)
  | Some txKey =>
      if (1 <? length txKey)%nat then Failed WalletKeyNotAvailable
      else
        attempt! _ <-
          fold_left
            (fun checked i =>
               attempt! _ <- checked;
               match at_index (_keys this) i with
               | None => Failed (Raised TypeError)
               | Some roledKey =>
                   if (0 <? length roledKey)%nat then Failed WalletKeyNotAvailable
                   else Returned tt
               end)
            [KEY_ROLE.RoleAccountUpdateKey; KEY_ROLE.RoleFeePayerKey] (Returned tt);
        let address := addHexPrefix (_address this) in
        match at_index txKey 0 with
        | None => Failed (Raised TypeError)
        | Some key =>
            let privateKey := addHexPrefix (privateKey key) in
            Returned (privateKey ++ "0x00" ++ address)%string
        end
  end.
End KeyringMessages.

(** ** Keyring: accounts *)

(** One element of the [options] of [toAccount]: an object with the
    properties [threshold] and [weights], each of which may be absent. *)
Record WeightedMultiSigOptions : Type := {
  threshold : option Z;
  weights : option (list Z);
}.

(** The [options] of [toAccount]: one such object, or an array of
    them. *)
Inductive AccountOptions : Type :=
| OptionsObject (o : WeightedMultiSigOptions)
| OptionsArray (l : list WeightedMultiSigOptions).

(** caver-account and its accountKeyHelper, a package outside the
    sources; a call that raises an exception returns [None]. *)
Class AccountBackend : Type := {
  Account : Type;
  (* what the two fill functions return *)
  FilledOptions : Type;
  (* fillWeightedMultiSigOptionsForRoleBased(lengths, options) *)
  fillWeightedMultiSigOptionsForRoleBased :
    list nat -> option AccountOptions -> option FilledOptions;
  (* fillWeightedMultiSigOptionsForMultiSig(length, options) *)
  fillWeightedMultiSigOptionsForMultiSig :
    nat -> option AccountOptions -> option FilledOptions;
  (* Account.createWithAccountKeyRoleBased(address, publicKeysByRole, options) *)
  createWithAccountKeyRoleBased :
    string -> list (list string) -> FilledOptions -> option Account;
  (* Account.createWithAccountKeyWeightedMultiSig(address, publicKeys, options) *)
  createWithAccountKeyWeightedMultiSig :
    string -> list string -> FilledOptions -> option Account;
  (* Account.createWithAccountKeyPublic(address, publicKeyString) *)
  createWithAccountKeyPublic : string -> option string -> option Account;
}.

Section KeyringAccounts.
Context {prim : KeyPrimitives} {messages : MessagePrimitives} {accounts : AccountBackend}.

(** [keys[i].length > 0]. *)
Definition role_holds_key (this : Keyring) (i : Z) : outcome bool :=
  match at_index (_keys this) i with
  | None => Failed (Raised TypeError)
  | Some roledKey => Returned (0 <? length roledKey)%nat
  end.

(** [toAccount(options)]; [options] is [undefined] ([None]), an object
    or an array of objects. *)
Definition toAccount (this : Keyring) (options : option AccountOptions) : outcome Account :=
  if isEmptyKey (_keys this) then Failed EmptyKeyInKeyring
  else
    (* the loop from the last role down to the one after TransactionKey *)
    attempt! isRoleBased <-
      (attempt! last <- role_holds_key this (KEY_ROLE.RoleLast - 1);
       if last then Returned true
       else role_holds_key this (KEY_ROLE.RoleLast - 2));
    attempt! '(options, isWeightedMultiSig) <-
      (if negb isRoleBased then
         match at_index (_keys this) KEY_ROLE.RoleTransactionKey with
         | None => Failed (Raised TypeError)
         | Some txKey =>
             let '(options, isWeightedMultiSig) :=
               if (length txKey =? 1)%nat && is_object options then
                 let options :=
                   match options with
                   | Some (OptionsArray (first :: _)) => Some (OptionsObject first)
                   | _ => options
                   end in
                 (options,
                  match options with
                  | Some (OptionsObject o) =>
                      is_object (threshold o) && is_object (weights o)
                  | _ => false
                  end)
               else (options, false) in
             Returned (options,
                       if (1 <? length txKey)%nat then true else isWeightedMultiSig)
         end
       else Returned (options, false));
    if isRoleBased && is_object options
       && negb (match options with Some (OptionsArray _) => true | _ => false end)
    then Failed OptionsNotArray
    else if isRoleBased then
      let lengths := map (@length PrivateKey) (_keys this) in
      attempt! options <-
        of_result (of_backend (fillWeightedMultiSigOptionsForRoleBased lengths options));
      attempt! publicKeysByRole <- of_result (getPublicKey this);
      of_result (of_backend
                   (createWithAccountKeyRoleBased (_address this) publicKeysByRole options))
    else if isWeightedMultiSig then
      match at_index (_keys this) 0 with
      | None => Failed (Raised TypeError)
      | Some txKey =>
          attempt! options <-
            of_result (of_backend
                         (fillWeightedMultiSigOptionsForMultiSig (length txKey) options));
          attempt! publicKeysByRole <- of_result (getPublicKey this);
          match at_index publicKeysByRole 0 with
          | None => Failed (Raised TypeError)
          | Some publicKeys =>
              of_result (of_backend
                           (createWithAccountKeyWeightedMultiSig
                              (_address this) publicKeys options))
          end
      end
    else if is_object options then Failed OptionsWithSingleKey
    else
      attempt! publicKeysByRole <- of_result (getPublicKey this);
      match at_index publicKeysByRole 0 with
      | None => Failed (Raised TypeError)
      | Some publicKeys =>
          of_result (of_backend
                       (createWithAccountKeyPublic (_address this) (at_index publicKeys 0)))
      end.
End KeyringAccounts.

(** ** Keyring: the factory functions *)

(** What [utils.parsePrivateKey] and [AccountLib.fromPrivate] return:
    an address and a private key string. *)
Record AddressAndKey : Type := { ak_address : string; ak_privateKey : string }.

(** The KlaytnWalletKey side of caver-utils and [AccountLib] of eth-lib,
    outside the sources; a call that raises an exception returns
    [None]. *)
Class WalletKeyUtils : Type := {
  (* utils.isKlaytnWalletKey(key) *)
  isKlaytnWalletKey : string -> bool;
  (* utils.parsePrivateKey(klaytnWalletKey) *)
  parsePrivateKey : string -> option AddressAndKey;
  (* AccountLib.fromPrivate(privateKey) *)
  AccountLib_fromPrivate : string -> option AddressAndKey;
}.

(** The [key] argument of [Keyring.encrypt] and [Keyring.encryptV3]:
    key material, or an instance of [Keyring]. *)
Inductive KeyOrKeyring : Type :=
| KeyMaterial (key : KeyInput)
| KeyringInstance (keyring : Keyring).

Section KeyringFactory.
Context {helper : KeyringHelper} {crypto : Crypto} {walletKeys : WalletKeyUtils}.

(** [Keyring.createWithSingleKey(address, key)]. *)
Definition createWithSingleKey (address : string) (key : KeyInput) : result Keyring :=
  match key with
  | SingleInput (KeyString s) =>
      if isKlaytnWalletKey s then Throw InvalidParameterFormat
      else new_Keyring address key
  | _ => Throw InvalidParameterFormat
  end.

(** [Keyring.createFromKlaytnWalletKey(klaytnWalletKey)]. *)
Definition createFromKlaytnWalletKey (klaytnWalletKey : KeyInput) : outcome Keyring :=
  match klaytnWalletKey with
  | SingleInput (KeyString s) =>
      if negb (isKlaytnWalletKey s) then Failed InvalidKlaytnWalletKey
      else
        attempt! parsed <- of_result (of_backend (parsePrivateKey s));
        of_result (createWithSingleKey (ak_address parsed)
                                       (SingleInput (KeyString (ak_privateKey parsed))))
  | _ => Failed (Raised InvalidParameterFormat)
  end.

(** [Keyring.createFromPrivateKey(privateKey)]. *)
Definition createFromPrivateKey (privateKey : KeyInput) : outcome Keyring :=
  match privateKey with
  | SingleInput (KeyString s) =>
      if isKlaytnWalletKey s then createFromKlaytnWalletKey privateKey
      else
        attempt! acct <- of_result (of_backend (AccountLib_fromPrivate (addHexPrefix s)));
        of_result (createWithSingleKey (ak_address acct)
                                       (SingleInput (KeyString (ak_privateKey acct))))
  | _ => Failed (Raised InvalidParameterFormat)
  end.

(** [Keyring.create(address, key)]. *)
Definition create (address : string) (key : KeyInput) : outcome Keyring :=
  match key with
  | SingleInput (KeyString _) => of_result (createWithSingleKey address key)
  | _ =>
      if isMultipleKeysFormat key then of_result (createWithMultipleKey address key)
      else if isRoleBasedKeysFormat key then of_result (createWithRoleBasedKey address key)
      else Failed UnsupportedKeyType
  end.

(** [options.address] as a condition: [undefined] and the empty string
    are falsy. *)
Definition address_given (options : Options) : option string :=
  match opt_address options with
  | Some EmptyString | None => None
  | Some address => Some address
  end.

(** The keyring that [Keyring.encrypt(key, password, options)]
    encrypts. *)
Definition keyring_to_encrypt (key : KeyOrKeyring) (options : Options) : outcome Keyring :=
  match key with
  | KeyMaterial (SingleInput (KeyString s)) =>
      match address_given options with
      | Some address =>
          attempt! _ <-
            (if isKlaytnWalletKey s then
               attempt! fromKlaytnWalletKey <-
                 createFromKlaytnWalletKey (SingleInput (KeyString s));
               if negb (String.eqb (toLowerCase (_address fromKlaytnWalletKey))
                                   (toLowerCase address))
               then Failed AddressMismatch
               else Returned tt
             else Returned tt);
          of_result (createWithSingleKey address (SingleInput (KeyString s)))
      | None => createFromPrivateKey (SingleInput (KeyString s))
      end
  | KeyMaterial (SingleInput _) => Failed InvalidKeyToEncrypt
  | KeyMaterial key =>
      match opt_address options with
      | None => Failed AddressNotDefined
      | Some address =>
          if isRoleBasedKeysFormat key then
            of_result (createWithRoleBasedKey address key)
          else if isMultipleKeysFormat key then
            of_result (createWithMultipleKey address key)
          else Failed InvalidKeyToEncrypt
      end
  | KeyringInstance keyring => Returned keyring
  end.

(** The keyring that [Keyring.encryptV3(key, password, options)]
    encrypts. *)
Definition keyring_to_encryptV3 (key : KeyOrKeyring) (options : Options)
  : outcome Keyring :=
  match key with
  | KeyringInstance keyring => Returned keyring
  | KeyMaterial (SingleInput (KeyString s)) =>
      match address_given options with
      | Some address => of_result (createWithSingleKey address (SingleInput (KeyString s)))
      | None => createFromPrivateKey (SingleInput (KeyString s))
      end
  | KeyMaterial _ => Failed InvalidKeyParameter
  end.

(** A method of a keyring run on the keyring that a static function
    made: nothing happens to the world when no keyring was made. *)
Definition on_keyring {A} (keyring : outcome Keyring) (method : Keyring -> M A)
  : World -> outcome A * World :=
  fun w =>
    match keyring with
    | Failed f => (Failed f, w)
    | Returned keyring => let (r, w') := method keyring w in (of_result r, w')
    end.

(** [Keyring.encrypt(key, password, options)]. *)
Definition Keyring_encrypt (key : KeyOrKeyring) (password : string) (options : Options)
  : World -> outcome Keystore * World :=
  on_keyring (keyring_to_encrypt key options)
             (fun keyring => encrypt keyring password options).

(** [Keyring.encryptV3(key, password, options)]. *)
Definition Keyring_encryptV3 (key : KeyOrKeyring) (password : string) (options : Options)
  : World -> outcome Keystore * World :=
  on_keyring (keyring_to_encryptV3 key options)
             (fun keyring => encryptV3 keyring password options).
End KeyringFactory.

(** ** Invariants and assumptions on the backend *)

(** A key built by the [PrivateKey] constructor holds 32 bytes. *)
Definition well_formed_key (k : PrivateKey) : Prop := length (scalar k) = 32%nat.

Section Invariants.
Context {helper : KeyringHelper} {crypto : Crypto}.

(** What the two setters of the constructor establish: the address
    passes the format check and is stored with the prefix, lower-cased;
    there is one key list per role, none longer than the maximum, and
    every key is well formed. *)
Definition keyring_invariant (this : Keyring) : Prop :=
  isAddress (_address this) = true /\
  toLowerCase (addHexPrefix (_address this)) = _address this /\
  toLowerCase (_address this) = _address this /\
  length (_keys this) = 3%nat /\
  Forall (fun roledKey =>
            (length roledKey <= MAXIMUM_KEY_NUM)%nat /\ Forall well_formed_key roledKey)
         (_keys this).

(** What the model assumes of the backend: [randomBytes(n)] returns [n]
    bytes, and a decipher created with the name, key and iv of a cipher
    recovers what the cipher was given. *)
Record backend_sound : Prop := {
  randomBytes_length :
    forall n s, length (fst (randomBytes n s)) = n;
  decipher_inverts :
    forall name key iv run data ct,
      createCipheriv name key iv = Some (Some run) ->
      run data = Some ct ->
      exists run', createDecipheriv name key iv = Some run' /\ run' ct = Some data;
}.

(** The options select a key derivation the backend supports: [scrypt]
    (the default) or [pbkdf2], with parameters it accepts for every
    salt, deriving at least the 16 bytes the cipher key takes. *)
Definition supported_kdf (options : Options) (password : string) : Prop :=
  let dklen := num_or (opt_dklen options) 32 in
  forall salt : Buffer,
  exists derivedKey,
    (16 <= length derivedKey)%nat /\
    ((str_or (opt_kdf options) "scrypt" = "pbkdf2" /\
      pbkdf2Sync (Buffer_from password) salt
                 (Some (num_or (opt_c options) 262144)) dklen "sha256" = Some derivedKey)
     \/
     (str_or (opt_kdf options) "scrypt" = "scrypt" /\
      scrypt (Buffer_from password) salt
             (Some (num_or (opt_n options) 4096)) (Some (num_or (opt_r options) 8))
             (Some (num_or (opt_p options) 1)) dklen = Some derivedKey)).

(** The options select a cipher the backend supports: it takes a
    16-byte key with the iv of the options (16 random bytes when the
    options give none) and enciphers every input. *)
Definition supported_cipher (options : Options) : Prop :=
  forall key iv : Buffer,
    length key = 16%nat ->
    match opt_iv options with Some iv' => iv = iv' | None => length iv = 16%nat end ->
    exists run,
      createCipheriv (str_or (opt_cipher options) "aes-128-ctr") key iv = Some (Some run) /\
      forall data, exists ct, run data = Some ct.

(** A key list a role may hold. *)
Definition role_list_ok (roledKey : list PrivateKey) : Prop :=
  (length roledKey <= MAXIMUM_KEY_NUM)%nat /\ Forall well_formed_key roledKey.

(** Under the password, the decryption of the crypto object returns
    the hex string of the key, in every world. *)
Definition decrypts_to (password : string) (c : CryptoObject) (key : PrivateKey) : Prop :=
  forall w, exists w', decryptKey_step password (JCrypto c) w = (Ok (privateKey key), w').

(** The decipher calls recorded in a log. *)
Definition decipher_calls (log : list Event) : list Event :=
  filter (fun e => match e with Deciphered _ _ _ _ => true | _ => false end) log.

End Invariants.

(** The key list stored for a role in a keyring with its three lists. *)
Definition own_list (txKey updateKey feePayerKey : list PrivateKey) (role : Z)
  : list PrivateKey :=
  if (role =? 0)%Z then txKey else if (role =? 1)%Z then updateKey else feePayerKey.

(** The type tag is the hex prefix and two digits, which is what
    [slice(4)] in [_decode] takes it to be. *)
Definition tag_is_one_byte {txHelper : TransactionHelper} : Prop :=
  exists a b, TX_TYPE_TAG = String "0" (String "x" (String a (String b EmptyString))).

(** The RLP library encodes the tree as prefixed hex and decodes that
    encoding to the tree. *)
Definition rlp_round_trips {rlp : RlpCodec} (tree : Value) : Prop :=
  (exists body : string, RLP_encode tree = String "0" (String "x" body)) /\
  RLP_decode (RLP_encode tree) = tree.

(** [k] zero bytes, in hex. *)
Fixpoint zero_bytes (k : nat) : string :=
  match k with
  | O => EmptyString
  | S k' => String "0" (String "0" (zero_bytes k'))
  end.

(** The transaction as the wire carries it: every field but the chain
    id, which is no part of the encoding. *)
Definition without_chainId (tx : FeeDelegatedChainDataAnchoring)
  : FeeDelegatedChainDataAnchoring :=
  {| base := {| _type := _type (base tx);
                _nonce := _nonce (base tx);
                _gasPrice := _gasPrice (base tx);
                _gas := _gas (base tx);
                _signatures := _signatures (base tx);
                _feePayer := _feePayer (base tx);
                _feePayerSignatures := _feePayerSignatures (base tx);
                _chainId := None |};
     _from := _from tx;
     _input := _input tx |}.

(** [keys[role]] with [ks] pushed at its end. *)
Fixpoint extend_role (keys : list (list PrivateKey)) (role : nat) (ks : list PrivateKey)
  : list (list PrivateKey) :=
  match keys, role with
  | l :: rest, O => (l ++ ks) :: rest
  | l :: rest, S role' => l :: extend_role rest role' ks
  | [], _ => []
  end.

(** Every [PrivateKey] instance in the key material is well formed. *)
Definition instances_well_formed (l : list KeyValue) : Prop :=
  Forall (fun v => forall k, v = KeyObject k -> well_formed_key k) l.

Definition key_input_well_formed (input : KeyInput) : Prop :=
  match input with
  | SingleInput v => instances_well_formed [v]
  | ArrayInput l => instances_well_formed l
  | NestedInput ll => Forall instances_well_formed ll
  end.

(** The key material that decryption hands to the constructor for the
    keys of a role: their hex strings. *)
Definition key_strings (keys : list PrivateKey) : list KeyValue :=
  map KeyString (map privateKey keys).

(** The world after the warning of [Keyring.decrypt]. *)
Definition warned {crypto : Crypto} (w : World) : World :=
  {| entropy := entropy w;
     events := events w ++ [Warned "This is not a V3 or V4 wallet."] |}.

(** The keystore with another [version]. *)
Definition with_version (version : option Z) (keystore : Keystore) : Keystore :=
  {| ks_version := version;
     ks_id := ks_id keystore;
     ks_address := ks_address keystore;
     ks_crypto := ks_crypto keystore;
     ks_keyring := ks_keyring keystore |}.

(** An address as it goes over the wire and comes back: in lower case,
    with the [0x] prefix in front of its forty digits. *)
Definition prefixed_address (a : string) : Prop :=
  exists digits, a = String "0" (String "x" digits) /\
                 String.length digits = 40%nat /\
                 isHexString digits = true /\
                 toLowerCase digits = digits.

(** A hex text of whole bytes: the prefix and an even number of
    hexadecimal digits. *)
Definition hex_bytes (s : string) : Prop :=
  exists digits, s = String "0" (String "x" digits) /\
                 isHexString digits = true /\
                 Nat.even (String.length digits) = true.

Definition valid_signature (sig : Signature) : Prop :=
  hex_bytes (sig_v sig) /\ hex_bytes (sig_r sig) /\ hex_bytes (sig_s sig).

(** A transaction whose fields the wire format carries: the nonce and
    the gas price are defined, [from] and [feePayer] are prefixed
    addresses, the input and the parts of the signatures are hex texts
    of whole bytes. *)
Definition valid_transaction (tx : FeeDelegatedChainDataAnchoring) : Prop :=
  is_defined (_nonce (base tx)) = true /\
  is_defined (_gasPrice (base tx)) = true /\
  prefixed_address (_from tx) /\
  prefixed_address (_feePayer (base tx)) /\
  hex_bytes (_input tx) /\
  Forall valid_signature (_signatures (base tx)) /\
  Forall valid_signature (_feePayerSignatures (base tx)).

(** ** What the further properties speak of *)

(** The shape of a keyring: one key list per role, none longer than
    the maximum, and an address in lower case. *)
Definition keyring_shape {helper : KeyringHelper} (this : Keyring) : Prop :=
  length (_keys this) = 3%nat /\
  Forall (fun roledKey => (length roledKey <= MAXIMUM_KEY_NUM)%nat) (_keys this) /\
  toLowerCase (_address this) = _address this.

(** A computation that draws no random bytes: it leaves the entropy
    source as it was, and returns the same in every world. *)
Definition draws_nothing {crypto : Crypto} {A} (m : M A) : Prop :=
  forall w, entropy (snd (m w)) = entropy w /\ forall w', fst (m w') = fst (m w).

(** What [encryptKey] writes into a crypto object from the options. *)
Definition written_with (options : Options) (c : CryptoObject) : Prop :=
  kdf c = str_or (opt_kdf options) "scrypt" /\
  cipher c = str_or (opt_cipher options) "aes-128-ctr" /\
  kdf_dklen (kdfparams c) = num_or (opt_dklen options) 32 /\
  (forall salt, opt_salt options = Some salt -> kdf_salt (kdfparams c) = toString_hex salt) /\
  (forall iv, opt_iv options = Some iv -> cipherparams_iv c = toString_hex iv).

(** The signed message made with a key. *)
Definition signed_with {messages : MessagePrimitives} (key : PrivateKey) (message : string)
  : outcome SignedMessage :=
  attempt! signature <- of_result (key_signMessage key (hashMessage message));
  Returned {| sm_messageHash := hashMessage message;
              sm_signature := signature;
              sm_message := message |}.

(** The options that [toAccount] looks at for a keyring with a single
    key: the first element of a non-empty array, else the options as
    they are. *)
Definition first_options (options : AccountOptions) : AccountOptions :=
  match options with
  | OptionsArray (first :: _) => OptionsObject first
  | _ => options
  end.

(** The options are an object that defines [threshold] and [weights]. *)
Definition defines_threshold_and_weights (options : AccountOptions) : bool :=
  match options with
  | OptionsObject o => is_object (threshold o) && is_object (weights o)
  | OptionsArray _ => false
  end.

(** The object with other [input] and [data] properties. *)
Definition with_input_data (input data : option Value) (o : CreateTxObj) : CreateTxObj :=
  {| o_nonce := o_nonce o; o_gasPrice := o_gasPrice o; o_gas := o_gas o;
     o_from := o_from o; o_input := input; o_data := data;
     o_signatures := o_signatures o; o_feePayer := o_feePayer o;
     o_feePayerSignatures := o_feePayerSignatures o; o_chainId := o_chainId o |}.

(** The tuple that is encoded for signing. *)
Definition signature_tuple {txHelper : TransactionHelper}
           (this : FeeDelegatedChainDataAnchoring) : Value :=
  VArray [ VString TX_TYPE_TAG;
           VString (Bytes_fromNat (optional_quantity (_nonce (base this))));
           VString (Bytes_fromNat (optional_quantity (_gasPrice (base this))));
           VString (Bytes_fromNat (quantity (_gas (base this))));
           VString (toLowerCase (_from this));
           VString (_input this) ].


(** The KlaytnWalletKey of a key and an address. *)
Definition wallet_key_of (key : PrivateKey) (address : string) : string :=
  (privateKey key ++ "0x00" ++ address)%string.

(** What is assumed of caver-utils for the KlaytnWalletKey format: the
    wallet key of a well-formed key and a prefixed address is told from
    the key on its own, and is parsed into the two. *)
Definition wallet_key_utils_sound {walletKeys : WalletKeyUtils} : Prop :=
  forall (key : PrivateKey) (address : string),
    well_formed_key key -> String.length address = 42%nat ->
    isKlaytnWalletKey (wallet_key_of key address) = true /\
    isKlaytnWalletKey (privateKey key) = false /\
    parsePrivateKey (wallet_key_of key address)
    = Some {| ak_address := address; ak_privateKey := privateKey key |}.

(** ** The RLP codec of eth-lib *)

(** An instance of [RlpCodec] written after [eth-lib/lib/rlp], on hex
    strings; the decoder runs on fuel, one unit per call. *)
Module EthLib.

Definition padEven (s : string) : string :=
  if Nat.even (String.length s) then s else String "0" s.

(** [num.toString(16)], padded to whole bytes. *)
Definition uint (num : nat) : string :=
  padEven (slice_from 2 (HexString.of_nat num)).

(** The header of an item of [len] bytes: one byte below 56, else the
    bytes of the length behind a byte that counts them. *)
Definition rlp_length (len add : nat) : string :=
  if (len <? 56)%nat then uint (add + len)
  else (uint (add + String.length (uint len) / 2 + 55) ++ uint len)%string.

(** [list.join("")]. *)
Fixpoint join (l : list string) : string :=
  match l with
  | [] => EmptyString
  | x :: rest => (x ++ join rest)%string
  end.

Fixpoint dataTree (tree : Value) : string :=
  match tree with
  | VString s =>
      let hex := slice_from 2 s in
      let pre := if negb (String.length hex =? 2)%nat || negb (String.ltb hex "80")
                 then rlp_length (String.length hex / 2) 128 else EmptyString in
      (pre ++ hex)%string
  | VArray l =>
      let hex := join (map dataTree l) in
      (rlp_length (String.length hex / 2) 192 ++ hex)%string
  end.

Definition encode (tree : Value) : string := String "0" (String "x" (dataTree tree)).

(** [parseInt(s, 16)] on hex digits. *)
Definition parseInt16 (s : string) : nat := HexString.to_nat (String "0" (String "x" s)).

Definition parseLength (hex : string) (i : nat) : nat * nat :=
  let len := (parseInt16 (substring i 2 hex) mod 64)%nat in
  if (len <? 56)%nat then (len, i + 2)%nat
  else (parseInt16 (substring (i + 2) ((len - 55) * 2) hex), i + 2 + (len - 55) * 2)%nat.

(** [parseTree] at position [i], and the loop of [parseList] up to
    [lim]; [None] is the exception that [decode] catches. *)
Fixpoint parseTree (fuel : nat) (hex : string) (i : nat) {struct fuel}
  : option (Value * nat) :=
  match fuel with
  | O => None
  | S fuel' =>
      if (String.length hex <=? i)%nat then None
      else
        let head := substring i 2 hex in
        if String.ltb head "80" then Some (VString ("0x" ++ head), i + 2)%nat
        else if String.ltb head "c0" then
          let (len, i) := parseLength hex i in
          Some (VString ("0x" ++ substring i (len * 2) hex), i + len * 2)%nat
        else
          let (len, i) := parseLength hex i in
          parseItems fuel' hex (len * 2 + i) i []
  end
with parseItems (fuel : nat) (hex : string) (lim i : nat) (list : list Value)
                {struct fuel} : option (Value * nat) :=
  match fuel with
  | O => None
  | S fuel' =>
      if (i <? lim)%nat then
        match parseTree fuel' hex i with
        | Some (item, i') => parseItems fuel' hex lim i' (list ++ [item])
        | None => None
        end
      else Some (VArray list, i)
  end.

Definition decode (hex : string) : Value :=
  match parseTree (String.length hex) hex 2 with
  | Some (tree, _) => tree
  | None => VArray []
  end.

#[export] Instance rlp : RlpCodec := {| RLP_encode := encode; RLP_decode := decode |}.

(** The length of an item fits the header: at most eight bytes hold
    it. *)
Definition fits (len : nat) : Prop := (String.length (uint len) <= 16)%nat.

(** The trees that the codec round-trips: the leaves are prefixed hex
    strings of whole bytes, and every length fits its header. *)
Fixpoint well_formed (tree : Value) : Prop :=
  match tree with
  | VString s =>
      exists h, s = String "0" (String "x" h) /\
                Nat.even (String.length h) = true /\ fits (String.length h / 2)
  | VArray l =>
      (fix all (l : list Value) : Prop :=
         match l with
         | [] => True
         | t :: rest => well_formed t /\ all rest
         end) l /\
      fits (String.length (join (map dataTree l)) / 2)
  end.

(** What [byte_facts] checks of a header byte. *)
Definition byte_check (n : nat) : bool :=
  (String.length (uint n) =? 2)%nat && negb (String.ltb (uint n) "80") &&
  Bool.eqb (String.ltb (uint n) "c0") (n <? 192)%nat.

(** What the decoder does on the encoding of a tree, wherever the
    encoding stands in the input. *)
Definition parses_back (t : Value) : Prop :=
  (2 <= String.length (dataTree t))%nat /\
  Nat.even (String.length (dataTree t)) = true /\
  forall (pre suf : string) (fuel : nat),
    (String.length (dataTree t) <= fuel)%nat ->
    parseTree fuel (pre ++ dataTree t ++ suf) (String.length pre)
    = Some (t, String.length pre + String.length (dataTree t))%nat.

End EthLib.

(** ** A small backend to run the model on examples *)

Module Example.

#[export] Instance helper : KeyringHelper := {| MAXIMUM_KEY_NUM := 10 |}.

(** Signatures that only record what was signed, addresses that are the
    last twenty bytes of the scalar. *)
#[export] Instance prim : KeyPrimitives := {|
  ChainId := Z;
  toHex := HexString.of_Z;
  key_sign := fun k h c => Ok {| sig_v := c; sig_r := h; sig_s := privateKey k |};
  getDerivedAddress := fun k => ("0x" ++ toString_hex (skipn 12 (scalar k)))%string;
|}.

(** The first [n] bytes of the endless repetition of [pattern]. *)
Fixpoint cycle (n : nat) (pattern rest : Buffer) : Buffer :=
  match n with
  | O => []
  | S n' =>
      match rest with
      | b :: rest' => b :: cycle n' pattern rest'
      | [] =>
          match pattern with
          | b :: rest' => b :: cycle n' pattern rest'
          | [] => x00 :: cycle n' pattern []
          end
      end
  end.

Definition toy_kdf (password salt : Buffer) (dklen : Z) : option Buffer :=
  if (dklen <? 0)%Z then None
  else Some (cycle (Z.to_nat dklen) (password ++ firstn 1 salt) []).

(** A reversible toy cipher: the input reversed, followed by the first
    key byte; deciphering checks that byte. *)
Definition toy_cipher (key : Buffer) : CipherRun :=
  fun data => Some (rev data ++ [hd x00 key]).

Definition toy_decipher (key : Buffer) : CipherRun :=
  fun data =>
    match rev data with
    | b :: r => if Byte.eqb b (hd x00 key) then Some r else None
    | [] => None
    end.

#[export] Instance crypto : Crypto := {|
  Entropy := nat;
  randomBytes := fun n s => (cycle n (firstn 1 (skipn s [x11; x22; x33; x44])) [], S s);
  scrypt := fun password salt n r p dklen =>
              match n, r, p with
              | Some _, Some _, Some _ => toy_kdf password salt dklen
              | _, _, _ => None
              end;
  pbkdf2Sync := fun password salt c dklen digest =>
                  match c with
                  | Some _ => toy_kdf (rev password) salt dklen
                  | None => None
                  end;
  sha3 := fun b => ("0x" ++ toString_hex b)%string;
  createCipheriv := fun name key iv =>
                      if String.eqb name "aes-128-ctr" then Some (Some (toy_cipher key))
                      else None;
  createDecipheriv := fun name key iv =>
                        if String.eqb name "aes-128-ctr" then Some (toy_decipher key)
                        else None;
  uuid_v4 := fun random => toString_hex random;
|}.

Definition world0 : World := {| entropy := 0%nat; events := [] |}.

Definition no_options : Options :=
  {| opt_salt := None; opt_iv := None; opt_kdf := None; opt_dklen := None;
     opt_c := None; opt_n := None; opt_r := None; opt_p := None;
     opt_cipher := None; opt_uuid := None; opt_address := None |}.

Definition key1 : PrivateKey := {| scalar := cycle 32 [x01; x02; x03] [] |}.
Definition key2 : PrivateKey := {| scalar := cycle 32 [xa1; xb2] [] |}.
Definition key3 : PrivateKey := {| scalar := cycle 32 [xff; x00; x7f; x80] [] |}.

Definition address1 : string := "0x0102030102030102030102030102030102030102".

(** A keyring of each account shape, and the keyring without keys. *)
Definition single_keyring : Keyring :=
  {| _address := address1; _keys := [[key1]; []; []] |}.
Definition multisig_keyring : Keyring :=
  {| _address := address1; _keys := [[key1; key2]; []; []] |}.
Definition role_based_keyring : Keyring :=
  {| _address := address1; _keys := [[key1]; [key2]; [key3; key1]] |}.
Definition update_only_keyring : Keyring :=
  {| _address := address1; _keys := [[]; [key2]; []] |}.
Definition empty_keyring : Keyring :=
  {| _address := address1; _keys := [[]; []; []] |}.

Definition digest1 : string :=
  "0xe9a11d9ef95fb437f75d07ce768d43e74f158dd54b106e7d3746ce29d545b550".

(** What [encryptKey] makes of [key1] under the password [pw] with no
    options in [world0], and the version 3 and version 4 records that
    hold it. *)
Definition crypto1 : CryptoObject :=
  {| ciphertext := "020103020103020103020103020103020103020103020103020103020103020170";
     cipherparams_iv := "22222222222222222222222222222222";
     cipher := "aes-128-ctr";
     kdf := "scrypt";
     kdfparams :=
       {| kdf_dklen := 32;
          kdf_salt := "1111111111111111111111111111111111111111111111111111111111111111";
          kdf_c := None; kdf_prf := None;
          kdf_n := Some 4096%Z; kdf_r := Some 8%Z; kdf_p := Some 1%Z |};
     mac := "77117077117077117077117077117077"
            ++ "020103020103020103020103020103020103020103020103020103020103020170" |}.

Definition keystore_v3 : Keystore :=
  {| ks_version := Some 3%Z; ks_id := "33333333333333333333333333333333";
     ks_address := address1; ks_crypto := Some (JCrypto crypto1); ks_keyring := None |}.

Definition keystore_v4 : Keystore :=
  {| ks_version := Some 4%Z; ks_id := "33333333333333333333333333333333";
     ks_address := address1; ks_crypto := None;
     ks_keyring := Some (JArray [JCrypto crypto1]) |}.

(** The type tag of the transaction type on Klaytn. *)
#[export] Instance txHelper : TransactionHelper := {|
  TX_TYPE_STRING := "TxTypeFeeDelegatedChainDataAnchoring";
  TX_TYPE_TAG := "0x49";
|}.

Definition signature1 : Signature :=
  {| sig_v := "0x0fe9"; sig_r := "0x" ++ toString_hex (scalar key1);
     sig_s := "0x" ++ toString_hex (scalar key2) |}.
Definition signature2 : Signature :=
  {| sig_v := "0x0fea"; sig_r := "0x" ++ toString_hex (scalar key3);
     sig_s := "0x" ++ toString_hex (scalar key1) |}.

(** The body (what follows the type tag) of the encoding of
    [transaction1] below. *)
Definition body1 : string :=
  "f90131808505d21dba0082012c940102030102030102030102030102030102030102"
  ++ "a3f8a6a00000000000000000000000000000000000000000000000000000000000000000"
  ++ "f88ef845820fe9a00102030102030102030102030102030102030102030102030102030102030102"
  ++ "a0a1b2a1b2a1b2a1b2a1b2a1b2a1b2a1b2a1b2a1b2a1b2a1b2a1b2a1b2a1b2a1b2"
  ++ "f845820feaa0ff007f80ff007f80ff007f80ff007f80ff007f80ff007f80ff007f80ff007f80"
  ++ "a00102030102030102030102030102030102030102030102030102030102030102"
  ++ "9433f524631e573329a550296f595c820d6c65213f"
  ++ "f847f845820feaa0ff007f80ff007f80ff007f80ff007f80ff007f80ff007f80ff007f80ff007f80"
  ++ "a00102030102030102030102030102030102030102030102030102030102030102".

(** The same tuple with two zero bytes in front of the gas price and
    one in front of the gas. *)
Definition body1_padded : string :=
  "f901348087000005d21dba008300012c940102030102030102030102030102030102030102"
  ++ "a3f8a6a00000000000000000000000000000000000000000000000000000000000000000"
  ++ "f88ef845820fe9a00102030102030102030102030102030102030102030102030102030102030102"
  ++ "a0a1b2a1b2a1b2a1b2a1b2a1b2a1b2a1b2a1b2a1b2a1b2a1b2a1b2a1b2a1b2a1b2"
  ++ "f845820feaa0ff007f80ff007f80ff007f80ff007f80ff007f80ff007f80ff007f80ff007f80"
  ++ "a00102030102030102030102030102030102030102030102030102030102030102"
  ++ "9433f524631e573329a550296f595c820d6c65213f"
  ++ "f847f845820feaa0ff007f80ff007f80ff007f80ff007f80ff007f80ff007f80ff007f80ff007f80"
  ++ "a00102030102030102030102030102030102030102030102030102030102030102".

Definition transaction1 : FeeDelegatedChainDataAnchoring :=
  {| base := {| _type := "TxTypeFeeDelegatedChainDataAnchoring";
                _nonce := Some 0%N; _gasPrice := Some 25000000000%N; _gas := 300;
                _signatures := [signature1; signature2];
                _feePayer := "0x33f524631e573329a550296f595c820d6c65213f";
                _feePayerSignatures := [signature2];
                _chainId := Some (VString "0x1") |};
     _from := address1;
     _input := "0xf8a6a00000000000000000000000000000000000000000000000000000000000000000" |}.

End Example.

(** ** Samples of the other collaborators *)

Module Samples.

(** Message signatures that only record what was signed, and public
    keys that are the scalar twice. *)
#[export] Instance messages : MessagePrimitives := {|
  hashMessage := fun message => ("hashed:" ++ message)%string;
  key_signMessage := fun k h => Ok {| sig_v := "0x1b"; sig_r := h; sig_s := privateKey k |};
  key_getPublicKey := fun k => ("0x" ++ toString_hex (scalar k ++ scalar k)%list)%string;
|}.

(** Accounts that only record how they were made, and fill functions
    that hand the options on. *)
Inductive SampleAccount : Type :=
| PublicAccount (address : string) (publicKey : option string)
| WeightedMultiSigAccount (address : string) (publicKeys : list string)
                          (options : option AccountOptions)
| RoleBasedAccount (address : string) (publicKeys : list (list string))
                   (options : option AccountOptions).

#[export] Instance accounts : AccountBackend := {|
  Account := SampleAccount;
  FilledOptions := option AccountOptions;
  fillWeightedMultiSigOptionsForRoleBased := fun _ options => Some options;
  fillWeightedMultiSigOptionsForMultiSig := fun _ options => Some options;
  createWithAccountKeyRoleBased := fun a ks o => Some (RoleBasedAccount a ks o);
  createWithAccountKeyWeightedMultiSig := fun a ks o => Some (WeightedMultiSigAccount a ks o);
  createWithAccountKeyPublic := fun a k => Some (PublicAccount a k);
|}.

(** A KlaytnWalletKey is told by its length and the [0x00] in its
    middle. *)
#[export] Instance walletKeys : WalletKeyUtils := {|
  isKlaytnWalletKey := fun s =>
    (String.length s =? 112)%nat && String.eqb (substring 66 4 s) "0x00";
  parsePrivateKey := fun s =>
    Some {| ak_address := slice_from 70 s; ak_privateKey := substring 0 66 s |};
  AccountLib_fromPrivate := fun s =>
    Some {| ak_address := ("0x" ++ substring 26 40 s)%string; ak_privateKey := s |};
|}.




(** Options that give the salt, the iv and the bytes of the id. *)
Definition given_options : Options :=
  {| opt_salt := Some (repeat x5a 32); opt_iv := Some (repeat x3c 16);
     opt_kdf := None; opt_dklen := None; opt_c := None; opt_n := None;
     opt_r := None; opt_p := None; opt_cipher := None;
     opt_uuid := Some (repeat x77 16); opt_address := None |}.

(** Options that name a key derivation that does not exist, and
    options that carry an address. *)
Definition argon_options : Options :=
  {| opt_salt := None; opt_iv := None; opt_kdf := Some "argon2"; opt_dklen := None;
     opt_c := None; opt_n := None; opt_r := None; opt_p := None;
     opt_cipher := None; opt_uuid := None; opt_address := None |}.

Definition address_options : Options :=
  {| opt_salt := None; opt_iv := None; opt_kdf := None; opt_dklen := None;
     opt_c := None; opt_n := None; opt_r := None; opt_p := None;
     opt_cipher := None; opt_uuid := None; opt_address := Some Example.address1 |}.

(** The KlaytnWalletKey of [Example.single_keyring]. *)
Definition wallet_key1 : string :=
  (privateKey Example.key1 ++ "0x00" ++ Example.address1)%string.

(** A crypto object with a key derivation that does not exist. *)
Definition argon_crypto : CryptoObject :=
  {| ciphertext := "00"; cipherparams_iv := "00"; cipher := "aes-128-ctr";
     kdf := "argon2";
     kdfparams := {| kdf_dklen := 32; kdf_salt := "00"; kdf_c := None; kdf_prf := None;
                     kdf_n := None; kdf_r := None; kdf_p := None |};
     mac := "00" |}.

(** A world with another state of the entropy source. *)
Definition world7 : World (crypto := Example.crypto) :=
  @Build_World Example.crypto 7%nat [].

(** Account options with and without the two properties. *)
Definition full_options : WeightedMultiSigOptions :=
  {| threshold := Some 1%Z; weights := Some [1%Z] |}.
Definition bare_options : WeightedMultiSigOptions :=
  {| threshold := Some 1%Z; weights := None |}.

(** The object of a transaction, and [Example.transaction1] before it
    is signed, with another fee payer. *)
Definition object1 : CreateTxObj :=
  {| o_nonce := Some (VString "0x0"); o_gasPrice := Some (VString "0x5d21dba00");
     o_gas := Some (VString "0x12c"); o_from := Some (VString Example.address1);
     o_input := None; o_data := None; o_signatures := None;
     o_feePayer := Some (VString "0x33f524631e573329a550296f595c820d6c65213f");
     o_feePayerSignatures := None; o_chainId := Some (VString "0x1") |}.

(** [object1] with an input and a [from] that carries no prefix, the
    transaction that the constructor returns for it, and the encoding
    of that transaction. *)
Definition object_bare_from : CreateTxObj :=
  {| o_nonce := Some (VString "0x0"); o_gasPrice := Some (VString "0x5d21dba00");
     o_gas := Some (VString "0x12c");
     o_from := Some (VString "0102030102030102030102030102030102030102");
     o_input := Some (VString "0xf8a6"); o_data := None; o_signatures := None;
     o_feePayer := Some (VString "0x33f524631e573329a550296f595c820d6c65213f");
     o_feePayerSignatures := None; o_chainId := Some (VString "0x1") |}.

Definition transaction_bare_from : FeeDelegatedChainDataAnchoring :=
  {| base := {| _type := "TxTypeFeeDelegatedChainDataAnchoring";
                _nonce := Some 0%N; _gasPrice := Some 25000000000%N; _gas := 300;
                _signatures := [];
                _feePayer := "0x33f524631e573329a550296f595c820d6c65213f";
                _feePayerSignatures := [];
                _chainId := Some (VString "0x1") |};
     _from := "0102030102030102030102030102030102030102";
     _input := "0xf8a6" |}.

Definition encoding_bare_from : string :=
  "0x49f838808505d21dba0082012c9302030102030102030102030102030102030102"
  ++ "82f8a6c09433f524631e573329a550296f595c820d6c65213fc0".

Definition transaction2 : FeeDelegatedChainDataAnchoring :=
  {| base := {| _type := "TxTypeFeeDelegatedChainDataAnchoring";
                _nonce := Some 0%N; _gasPrice := Some 25000000000%N; _gas := 300;
                _signatures := [];
                _feePayer := "0x0000000000000000000000000000000000000000";
                _feePayerSignatures := [];
                _chainId := Some (VString "0x1") |};
     _from := Example.address1;
     _input := _input Example.transaction1 |}.

End Samples.

(** * Properties *)

(** ** Hexadecimal text *)

Lemma hex_pair_decodes (x : byte) (rest : string) :
  Buffer_from_hex
    (String (hexDigitOf (Byte.to_N x / 16))
            (String (hexDigitOf (Byte.to_N x mod 16)) rest))
  = x :: Buffer_from_hex rest.
Proof. destruct x; reflexivity. Qed.

Lemma hex_pair_digits (x : byte) :
  isHexDigit (hexDigitOf (Byte.to_N x / 16)) = true /\
  isHexDigit (hexDigitOf (Byte.to_N x mod 16)) = true.
Proof. destruct x; split; reflexivity. Qed.

Lemma Buffer_from_hex_toString_hex (b : Buffer) :
  Buffer_from_hex (toString_hex b) = b.
Proof.
  induction b as [|x b IH]; [reflexivity|].
  cbn [toString_hex]. rewrite hex_pair_decodes. now rewrite IH.
Qed.

Lemma toString_hex_length (b : Buffer) :
  String.length (toString_hex b) = (2 * length b)%nat.
Proof.
  induction b as [|x b IH]; [reflexivity|].
  cbn [toString_hex String.length length]. rewrite IH. lia.
Qed.

Lemma toString_hex_isHexString (b : Buffer) :
  isHexString (toString_hex b) = true.
Proof.
  induction b as [|x b IH]; [reflexivity|].
  cbn [toString_hex isHexString].
  destruct (hex_pair_digits x) as [H1 H2]. now rewrite H1, H2, IH.
Qed.

Lemma remove_first_0x_prefixed (h : string) :
  remove_first_0x ("0x" ++ h) = h.
Proof. reflexivity. Qed.

Lemma lowerChar_idempotent (c : ascii) : lowerChar (lowerChar c) = lowerChar c.
Proof.
  destruct c as [[] [] [] [] [] [] [] []]; reflexivity.
Qed.

Lemma toLowerCase_idempotent (s : string) :
  toLowerCase (toLowerCase s) = toLowerCase s.
Proof.
  induction s as [|c s IH]; [reflexivity|].
  cbn [toLowerCase]. now rewrite lowerChar_idempotent, IH.
Qed.

Lemma isValidPrivateKey_of_key (k : PrivateKey) :
  well_formed_key k -> isValidPrivateKey (privateKey k) = true.
Proof.
  unfold well_formed_key, isValidPrivateKey, privateKey. intros H.
  change (stripHexPrefix ("0x" ++ toString_hex (scalar k))) with (toString_hex (scalar k)).
  rewrite toString_hex_length, H, toString_hex_isHexString. reflexivity.
Qed.

(** Reading back the hex string of a key gives the key. *)
Lemma new_PrivateKey_of_key (k : PrivateKey) :
  well_formed_key k -> new_PrivateKey (KeyString (privateKey k)) = Ok k.
Proof.
  intros H. unfold new_PrivateKey. rewrite (isValidPrivateKey_of_key k H).
  unfold privateKey.
  change (stripHexPrefix ("0x" ++ toString_hex (scalar k))) with (toString_hex (scalar k)).
  rewrite Buffer_from_hex_toString_hex. now destruct k.
Qed.

(** ** Reading a role *)

Section RoleProperties.
Context {prim : KeyPrimitives}.

Lemma length_zero_iff_nil {A} (l : list A) : (length l =? 0)%nat = true <-> l = [].
Proof.
  destruct l; cbn; split; intros H; try reflexivity; discriminate.
Qed.

Lemma one_of_three_roles (role : Z) :
  (0 <= role < KEY_ROLE.RoleLast)%Z -> role = 0%Z \/ role = 1%Z \/ role = 2%Z.
Proof. unfold KEY_ROLE.RoleLast. lia. Qed.

Lemma getKeyByRole_three (this : Keyring) txKey updateKey feePayerKey (role : Z) :
  _keys this = [txKey; updateKey; feePayerKey] ->
  (0 <= role < KEY_ROLE.RoleLast)%Z ->
  getKeyByRole this (Some role) =
    match own_list txKey updateKey feePayerKey role with
    | (_ :: _) as own => Ok own
    | [] =>
        if (role =? 0)%Z then Ok []
        else match txKey with
             | [] => Throw KeyNotExist
             | _ :: _ => Ok txKey
             end
    end.
Proof.
  intros Hkeys Hrole. unfold getKeyByRole. rewrite Hkeys.
  destruct (one_of_three_roles role Hrole) as [-> | [-> | ->]]; cbn.
  - now destruct txKey.
  - destruct updateKey; cbn; [now destruct txKey | reflexivity].
  - destruct feePayerKey; cbn; [now destruct txKey | reflexivity].
Qed.

(** C3 (as amended): for a keyring with its three role lists and a role
    [r] among the three, [getKeyByRole(r)] returns [r]'s list when it is
    not empty; a role other than TransactionKey whose list is empty
    falls back to TransactionKey's list, and fails when that one is
    empty too; TransactionKey never falls back and its own list is
    returned as it is, even when it is empty; an undefined role fails. *)
Theorem getKeyByRole_fallback_rule (this : Keyring) txKey updateKey feePayerKey (role : Z) :
  _keys this = [txKey; updateKey; feePayerKey] ->
  (0 <= role < KEY_ROLE.RoleLast)%Z ->
  let own := own_list txKey updateKey feePayerKey role in
  getKeyByRole this None = Throw RoleUndefined /\
  (own <> [] -> getKeyByRole this (Some role) = Ok own) /\
  (own = [] -> role <> KEY_ROLE.RoleTransactionKey -> txKey <> [] ->
   getKeyByRole this (Some role) = Ok txKey) /\
  (own = [] -> role <> KEY_ROLE.RoleTransactionKey -> txKey = [] ->
   getKeyByRole this (Some role) = Throw KeyNotExist) /\
  (role = KEY_ROLE.RoleTransactionKey -> getKeyByRole this (Some role) = Ok txKey).
Proof.
  intros Hkeys Hrole own.
  pose proof (getKeyByRole_three this _ _ _ role Hkeys Hrole) as E.
  fold own in E. unfold KEY_ROLE.RoleTransactionKey.
  repeat split.
  - intros Hown. rewrite E. destruct own; [contradiction | reflexivity].
  - intros Hown Hr Htx. rewrite E, Hown.
    destruct (Z.eqb_spec role 0); [contradiction|]. destruct txKey; [contradiction | reflexivity].
  - intros Hown Hr Htx. rewrite E, Hown, Htx.
    destruct (Z.eqb_spec role 0); [contradiction | reflexivity].
  - intros ->. rewrite E. subst own. unfold own_list. cbn. now destruct txKey.
Qed.

(** The rule at the keyring [[[]; [key2]; []]] and role AccountUpdateKey. *)
Lemma getKeyByRole_fallback_rule_witness :
  getKeyByRole Example.update_only_keyring None = Throw RoleUndefined /\
  getKeyByRole Example.update_only_keyring (Some 1%Z) = Ok [Example.key2] /\
  getKeyByRole Example.update_only_keyring (Some 0%Z) = Ok [].
Proof.
  pose proof (getKeyByRole_fallback_rule Example.update_only_keyring
                [] [Example.key2] [] 1%Z eq_refl ltac:(cbv; split; congruence)) as H1.
  destruct H1 as (H1 & H2 & _).
  pose proof (getKeyByRole_fallback_rule Example.update_only_keyring
                [] [Example.key2] [] 0%Z eq_refl ltac:(cbv; split; congruence)) as H3.
  destruct H3 as (_ & _ & _ & _ & H3).
  split; [exact H1 | split; [apply H2; discriminate | apply H3; reflexivity]].
Defined.

(** Reading the empty TransactionKey role of a keyring without keys
    returns the empty list: the call does not fail. *)
Lemma getKeyByRole_empty_TransactionKey_returns :
  getKeyByRole Example.empty_keyring (Some KEY_ROLE.RoleTransactionKey) = Ok [].
Proof. reflexivity. Qed.
End RoleProperties.

(** ** Signing with one key *)

Section SigningProperties.
Context {prim : KeyPrimitives}.

Lemma at_index_in_range {A} (l : list A) (i : Z) :
  (0 <= i < Z.of_nat (length l))%Z ->
  exists x, nth_error l (Z.to_nat i) = Some x /\ at_index l i = Some x.
Proof.
  intros H. unfold at_index.
  destruct (Z.ltb_spec i 0); [lia|].
  destruct (nth_error l (Z.to_nat i)) eqn:E; [eauto|].
  apply nth_error_None in E. lia.
Qed.

(** What [signWithKey] does once the hash, the chain id and the role
    have passed their checks and the role is resolved to [keys]. *)
Lemma signWithKey_resolved (this : Keyring) (hash : string) (chainId : ChainId)
      (role : Z) (keys : list PrivateKey) (i : Z) :
  isValidHashStrict hash = true ->
  getKeyByRole this (Some role) = Ok keys ->
  signWithKey this hash (Some chainId) (Some role) (IndexNumber i) =
    if (i <? 0)%Z then Throw NegativeIndex
    else if (i >=? Z.of_nat (length keys))%Z then Throw IndexOutOfRange
    else match at_index keys i with
         | None => Throw TypeError
         | Some key => key_sign key hash (toHex chainId)
         end.
Proof.
  intros Hhash Hkeys. unfold signWithKey. rewrite Hhash, Hkeys. reflexivity.
Qed.

(** C4: for a keyring with its three role lists, a valid 32-byte
    digest, a defined chain id and a role among the three,
    [signWithKey] resolves the role's key list by the fallback rule: a
    role whose own list holds keys signs with its own list; a role
    other than TransactionKey whose own list is empty signs with
    TransactionKey's list when that holds keys, and fails for every
    index, with the error of [getKeyByRole], when that is empty too;
    TransactionKey signs with its own list.  Signing with a list means:
    the call fails for every index below zero and for every index not
    below the length of the list, and for every index in range it
    returns what the [sign] of the key at that index of the list
    returns for the digest and the chain id (handed over in hex); an
    omitted index is index 0. *)
Theorem signWithKey_resolves_role_and_checks_index
        (this : Keyring) (hash : string) (chainId : ChainId) (role : Z)
        (txKey updateKey feePayerKey : list PrivateKey) :
  isValidHashStrict hash = true ->
  _keys this = [txKey; updateKey; feePayerKey] ->
  (0 <= role < KEY_ROLE.RoleLast)%Z ->
  let own := own_list txKey updateKey feePayerKey role in
  let sign := signWithKey this hash (Some chainId) (Some role) in
  let signs_with (resolved : list PrivateKey) :=
    getKeyByRole this (Some role) = Ok resolved /\
    (forall i, (i < 0)%Z -> sign (IndexNumber i) = Throw NegativeIndex) /\
    (forall i, (Z.of_nat (length resolved) <= i)%Z ->
       sign (IndexNumber i) = Throw IndexOutOfRange) /\
    (forall i, (0 <= i < Z.of_nat (length resolved))%Z ->
       exists key,
         nth_error resolved (Z.to_nat i) = Some key /\
         sign (IndexNumber i) = key_sign key hash (toHex chainId)) /\
    sign IndexOmitted = sign (IndexNumber 0) in
  (own <> [] -> signs_with own) /\
  (own = [] -> role <> KEY_ROLE.RoleTransactionKey -> txKey <> [] -> signs_with txKey) /\
  (own = [] -> role <> KEY_ROLE.RoleTransactionKey -> txKey = [] ->
   getKeyByRole this (Some role) = Throw KeyNotExist /\
   forall index, sign index = Throw KeyNotExist) /\
  (role = KEY_ROLE.RoleTransactionKey -> signs_with txKey).
Proof.
  intros Hhash Hthis Hrole own sign signs_with.
  pose proof (getKeyByRole_three this _ _ _ role Hthis Hrole) as E. fold own in E.
  assert (Hsigns : forall keys, getKeyByRole this (Some role) = Ok keys -> signs_with keys).
  { intros keys Hkeys. unfold signs_with, sign.
    split; [exact Hkeys|]. split; [|split; [|split]].
    - intros i Hi. rewrite (signWithKey_resolved _ _ _ _ keys i Hhash Hkeys).
      destruct (Z.ltb_spec i 0); [reflexivity | lia].
    - intros i Hi. rewrite (signWithKey_resolved _ _ _ _ keys i Hhash Hkeys).
      destruct (Z.ltb_spec i 0); [lia|].
      destruct (Z.geb_spec i (Z.of_nat (length keys))); [reflexivity | lia].
    - intros i Hi. rewrite (signWithKey_resolved _ _ _ _ keys i Hhash Hkeys).
      destruct (Z.ltb_spec i 0); [lia|].
      destruct (Z.geb_spec i (Z.of_nat (length keys))); [lia|].
      destruct (at_index_in_range keys i Hi) as (key & Hnth & Hat).
      exists key. now rewrite Hat.
    - unfold signWithKey. now rewrite Hhash, Hkeys. }
  unfold KEY_ROLE.RoleTransactionKey.
  split; [|split; [|split]].
  - intros Hown. apply Hsigns. rewrite E. destruct own; [contradiction | reflexivity].
  - intros Hown Hr Htx. apply Hsigns. rewrite E, Hown.
    destruct (Z.eqb_spec role 0); [contradiction|].
    destruct txKey; [contradiction | reflexivity].
  - intros Hown Hr Htx.
    assert (Hfail : getKeyByRole this (Some role) = Throw KeyNotExist).
    { rewrite E, Hown, Htx. destruct (Z.eqb_spec role 0); [contradiction | reflexivity]. }
    split; [exact Hfail|].
    intros index. unfold sign, signWithKey. now rewrite Hhash, Hfail.
  - intros ->. apply Hsigns. rewrite E. subst own. unfold own_list. cbn. now destruct txKey.
Qed.

End SigningProperties.

(** The theorem on a keyring whose FeePayerKey role falls back to its
    two transaction keys. *)
Lemma signWithKey_resolves_role_and_checks_index_witness :
  isValidHashStrict Example.digest1 = true /\
  signWithKey (prim := Example.prim) Example.multisig_keyring Example.digest1 (Some 1001%Z)
              (Some KEY_ROLE.RoleFeePayerKey) (IndexNumber 2) = Throw IndexOutOfRange /\
  signWithKey (prim := Example.prim) Example.multisig_keyring Example.digest1 (Some 1001%Z)
              (Some KEY_ROLE.RoleFeePayerKey) (IndexNumber (-1)) = Throw NegativeIndex /\
  signWithKey (prim := Example.prim) Example.multisig_keyring Example.digest1 (Some 1001%Z)
              (Some KEY_ROLE.RoleFeePayerKey) (IndexNumber 1)
  = key_sign (KeyPrimitives := Example.prim) Example.key2 Example.digest1 "0x3e9".
Proof.
  pose proof (signWithKey_resolves_role_and_checks_index
                (prim := Example.prim) Example.multisig_keyring Example.digest1
                1001%Z KEY_ROLE.RoleFeePayerKey [Example.key1; Example.key2] [] []
                eq_refl eq_refl ltac:(cbv; split; congruence)) as H.
  cbv zeta in H. destruct H as (_ & Hfallback & _).
  destruct (Hfallback eq_refl ltac:(discriminate) ltac:(discriminate))
    as (_ & Hneg & Hout & Hin & _).
  split; [reflexivity | split; [|split]].
  - apply Hout. cbv. congruence.
  - apply Hneg. reflexivity.
  - destruct (Hin 1%Z ltac:(cbv; split; congruence)) as (key & Hkey & Hsign).
    cbn in Hkey. injection Hkey as <-. exact Hsign.
Defined.


(** ** Decoupled keyrings *)

Section DecoupledProperties.
Context {prim : KeyPrimitives}.

(** C5, [isDecoupled] where it departs from the documented rule (some
    role with more than one key, or a non-empty role other than
    TransactionKey, or an address other than the one derived from the
    first TransactionKey key): a keyring whose address is the one
    derived from its single TransactionKey key is reported as not
    decoupled although the AccountUpdateKey role holds a key, and the
    call raises a TypeError when the TransactionKey role is empty and no
    role holds two keys. *)
Theorem isDecoupled_ignores_other_roles (key1 key2 : PrivateKey) (address : string) :
  isDecoupled {| _address := toLowerCase (getDerivedAddress key1);
                 _keys := [[key1]; [key2]; []] |} = Ok false /\
  isDecoupled {| _address := address; _keys := [[]; [key2]; []] |} = Throw TypeError.
Proof.
  split; [|reflexivity].
  unfold isDecoupled. cbn.
  now rewrite toLowerCase_idempotent, String.eqb_refl.
Qed.

(** What [isDecoupled] computes: [true] when some role holds more than
    one key; otherwise the comparison of the stored address with the
    one derived from the first TransactionKey key. *)
Lemma isDecoupled_single_keys (this : Keyring) (key : PrivateKey) rest updateKey feePayerKey :
  _keys this = [key :: rest; updateKey; feePayerKey] ->
  (length rest = 0)%nat -> (length updateKey <= 1)%nat -> (length feePayerKey <= 1)%nat ->
  isDecoupled this =
    Ok (negb (String.eqb (toLowerCase (_address this))
                         (toLowerCase (getDerivedAddress key)))).
Proof.
  intros Hkeys Hrest Hupd Hfee. unfold isDecoupled. rewrite Hkeys.
  destruct rest; [|discriminate].
  destruct updateKey as [|? [|? ?]]; cbn in Hupd; try lia;
    destruct feePayerKey as [|? [|? ?]]; cbn in Hfee; try lia; reflexivity.
Qed.
End DecoupledProperties.

(** ** Running the monad *)

Section MonadLemmas.
Context {crypto : Crypto}.

Lemma bind_Ok {A B} (m : M A) (k : A -> M B) w a w' :
  m w = (Ok a, w') -> bind m k w = k a w'.
Proof. intros H. unfold bind. now rewrite H. Qed.

Lemma bind_Throw {A B} (m : M A) (k : A -> M B) w e w' :
  m w = (Throw e, w') -> bind m k w = (Throw e, w').
Proof. intros H. unfold bind. now rewrite H. Qed.

Lemma for_each_app_Throw {A B} (f : A -> M B) before x after w ys w1 e w2 :
  for_each f before w = (Ok ys, w1) ->
  f x w1 = (Throw e, w2) ->
  for_each f (before ++ x :: after) w = (Throw e, w2).
Proof.
  revert w ys. induction before as [|y before IH]; intros w ys Hbefore Hx.
  - cbn in Hbefore. injection Hbefore as <- <-.
    cbn. now rewrite (bind_Throw _ _ _ _ _ Hx).
  - cbn in Hbefore |- *. unfold bind at 1 in Hbefore. unfold bind at 1.
    destruct (f y w) as [[b | e'] w'] eqn:Ey; [|discriminate].
    unfold bind at 1 in Hbefore.
    destruct (for_each f before w') as [[bs | e'] w''] eqn:Eb; [|discriminate].
    cbn in Hbefore. injection Hbefore as <- <-.
    now rewrite (bind_Throw _ _ _ _ _ (IH w' bs Eb Hx)).
Qed.
End MonadLemmas.

(** ** Decryption checks the mac first *)

Section MacProperties.
Context {helper : KeyringHelper} {crypto : Crypto}.

Lemma decryptKey_array (l : list Json) (password : string) :
  l <> [] ->
  decryptKey (Some (JArray l)) password =
    bind (for_each (decryptKey_step password) l) (fun d => ret (Some d)).
Proof. destruct l; [contradiction | reflexivity]. Qed.

Lemma decryptKey_step_mac_mismatch (c : CryptoObject) (password : string)
      (derivedKey : Buffer) (w : World) :
  derive c password = Ok derivedKey ->
  compute_mac derivedKey (Buffer_from_hex (ciphertext c)) <> mac c ->
  decryptKey_step password (JCrypto c) w = (Throw WrongPassword, w).
Proof.
  intros Hderive Hmac. unfold decryptKey_step, bind, lift. rewrite Hderive.
  destruct (String.eqb_spec (compute_mac derivedKey (Buffer_from_hex (ciphertext c)))
                            (mac c)); [contradiction | reflexivity].
Qed.

(** C1: for a crypto object and a password for which the key derived
    from the stored [kdf] and [kdfparams] gives a mac, computed over
    [derivedKey[16:32] ++ ciphertext], that differs from the stored one,
    the decryption of that entry fails with the wrong-password error
    and leaves the world as it found it: the decipher is not called.
    So does [decryptKey] on an array at the first such entry (the world
    then holds what the entries before it logged, nothing of this one),
    and so does [Keyring.decrypt] on a version 3 record with that crypto
    object and on a version 4 record whose key list starts with it. *)
Theorem decryptKey_wrong_password_before_decipher
        (c : CryptoObject) (password : string) (derivedKey : Buffer) :
  derive c password = Ok derivedKey ->
  compute_mac derivedKey (Buffer_from_hex (ciphertext c)) <> mac c ->
  (forall w, decryptKey_step password (JCrypto c) w = (Throw WrongPassword, w)) /\
  (forall before after decrypted w w1,
      for_each (decryptKey_step password) before w = (Ok decrypted, w1) ->
      decryptKey (Some (JArray (before ++ JCrypto c :: after))) password w
      = (Throw WrongPassword, w1)) /\
  (forall keystore w,
      ks_version keystore = Some 3%Z ->
      ks_crypto keystore = Some (JCrypto c) ->
      ks_keyring keystore = None ->
      decrypt keystore password w = (Throw WrongPassword, w)) /\
  (forall keystore after w,
      ks_version keystore = Some 4%Z ->
      ks_crypto keystore = None ->
      ks_keyring keystore = Some (JArray (JCrypto c :: after)) ->
      decrypt keystore password w = (Throw WrongPassword, w) /\
      decipher_calls (events (snd (decrypt keystore password w)))
      = decipher_calls (events w)).
Proof.
  intros Hderive Hmac.
  pose proof (decryptKey_step_mac_mismatch c password derivedKey) as Hstep.
  specialize (fun w => Hstep w Hderive Hmac).
  assert (Hfirst : forall after w,
             decryptKey (Some (JArray (JCrypto c :: after))) password w
             = (Throw WrongPassword, w)).
  { intros after w. rewrite decryptKey_array by discriminate.
    apply bind_Throw. cbn. apply bind_Throw. apply Hstep. }
  split; [exact Hstep | split; [|split]].
  - intros before after decrypted w w1 Hbefore.
    rewrite decryptKey_array by (destruct before; discriminate).
    apply bind_Throw. eapply for_each_app_Throw; [exact Hbefore | apply Hstep].
  - intros keystore w Hv Hc Hk. unfold decrypt.
    assert (E : decrypt_checks keystore w = (Ok (Some (JArray [JCrypto c])), w))
      by (unfold decrypt_checks; rewrite Hv, Hc, Hk; reflexivity).
    rewrite (bind_Ok _ _ _ _ _ E). apply bind_Throw.
    cbn [decrypt_keys json_index at_index Z.ltb Z.compare Z.to_nat nth_error isArray].
    apply bind_Throw. apply Hfirst.
  - intros keystore after w Hv Hc Hk.
    assert (E : decrypt keystore password w = (Throw WrongPassword, w)).
    { unfold decrypt.
      assert (E : decrypt_checks keystore w
                  = (Ok (Some (JArray (JCrypto c :: after))), w))
        by (unfold decrypt_checks; rewrite Hv, Hc, Hk; reflexivity).
      rewrite (bind_Ok _ _ _ _ _ E). apply bind_Throw.
      cbn [decrypt_keys json_index at_index Z.ltb Z.compare Z.to_nat nth_error isArray].
      apply bind_Throw. apply Hfirst. }
    now rewrite E.
Qed.
End MacProperties.

(** The theorem at the record [keystore_v3] and a password that differs
    from the one it was encrypted with in one letter. *)
Lemma decryptKey_wrong_password_before_decipher_witness :
  decrypt (helper := Example.helper) (crypto := Example.crypto)
          Example.keystore_v3 "pW" Example.world0
  = (Throw WrongPassword, Example.world0).
Proof.
  refine (proj1 (proj2 (proj2
            (decryptKey_wrong_password_before_decipher
               (helper := Example.helper) (crypto := Example.crypto)
               Example.crypto1 "pW"
               (Example.cycle 32 (Buffer_from "pW" ++ [x11]) []) _ _)))
            Example.keystore_v3 Example.world0 eq_refl eq_refl eq_refl).
  - reflexivity.
  - vm_compute. discriminate.
Defined.

(** ** The version of a keystore *)

Section VersionProperties.
Context {helper : KeyringHelper} {crypto : Crypto}.

Lemma decrypt_checks_other_version (keystore : Keystore) (w : World) (version : Z) :
  ks_version keystore <> Some 3%Z ->
  ks_version keystore <> Some 4%Z ->
  (version = 3%Z /\ is_object (ks_crypto keystore) = true) \/
  (version = 4%Z /\ is_object (ks_keyring keystore) = true) ->
  decrypt_checks keystore w
  = decrypt_checks (with_version (Some version) keystore) (warned w).
Proof.
  intros H3 H4 Hfield. unfold decrypt_checks.
  assert (E3 : match ks_version keystore with
               | Some x => (x =? 3)%Z | None => false end = false).
  { destruct (ks_version keystore) as [x|]; [|reflexivity].
    destruct (Z.eqb_spec x 3); [subst; contradiction | reflexivity]. }
  assert (E4 : match ks_version keystore with
               | Some x => (x =? 4)%Z | None => false end = false).
  { destruct (ks_version keystore) as [x|]; [|reflexivity].
    destruct (Z.eqb_spec x 4); [subst; contradiction | reflexivity]. }
  rewrite E3, E4.
  destruct Hfield as [[-> Hc] | [-> Hk]]; cbn;
    destruct (ks_crypto keystore), (ks_keyring keystore); try discriminate; reflexivity.
Qed.

(** C10: a keystore whose [version] is neither 3 nor 4 is not refused
    for it.  With a [keyring] field it is decrypted as the same record
    with version 4 is, and with a [crypto] field as the same record with
    version 3 is: same result, same calls, after the one warning the
    version check writes.  The checks of the record refuse a version 3
    record without [crypto], a version 4 record without [keyring], and a
    record with both fields whatever its version. *)
Theorem decrypt_version_only_warns (password : string) (w : World) :
  (forall keystore,
      ks_version keystore <> Some 3%Z ->
      ks_version keystore <> Some 4%Z ->
      (is_object (ks_keyring keystore) = true ->
       decrypt keystore password w
       = decrypt (with_version (Some 4%Z) keystore) password (warned w)) /\
      (is_object (ks_crypto keystore) = true ->
       decrypt keystore password w
       = decrypt (with_version (Some 3%Z) keystore) password (warned w))) /\
  (forall keystore,
      ks_version keystore = Some 3%Z -> ks_crypto keystore = None ->
      decrypt keystore password w = (Throw KeystoreV3WithoutCrypto, w)) /\
  (forall keystore,
      ks_version keystore = Some 4%Z -> ks_keyring keystore = None ->
      decrypt keystore password w = (Throw KeystoreV4WithoutKeyring, w)) /\
  (forall keystore,
      is_object (ks_crypto keystore) = true ->
      is_object (ks_keyring keystore) = true ->
      fst (decrypt keystore password w) = Throw CryptoAndKeyringTogether).
Proof.
  split; [|split; [|split]].
  - intros keystore H3 H4. split; intros Hfield; unfold decrypt, bind.
    + now rewrite (decrypt_checks_other_version keystore w 4%Z H3 H4) by auto.
    + now rewrite (decrypt_checks_other_version keystore w 3%Z H3 H4) by auto.
  - intros keystore Hv Hc. unfold decrypt.
    apply bind_Throw. unfold decrypt_checks. rewrite Hv, Hc.
    destruct (ks_keyring keystore); reflexivity.
  - intros keystore Hv Hk. unfold decrypt.
    apply bind_Throw. unfold decrypt_checks. rewrite Hv, Hk.
    destruct (ks_crypto keystore); reflexivity.
  - intros keystore Hc Hk. unfold decrypt, bind at 1. unfold decrypt_checks.
    destruct (ks_crypto keystore); [|discriminate].
    destruct (ks_keyring keystore); [|discriminate].
    destruct (ks_version keystore) as [x|]; [|reflexivity].
    destruct (Z.eqb_spec x 3), (Z.eqb_spec x 4); subst; try discriminate; reflexivity.
Qed.

End VersionProperties.

(** A record with version 7 and the key list of [keystore_v4] decrypts
    to the keyring that was encrypted. *)
Example decrypt_version_7 :
  fst (decrypt (helper := Example.helper) (crypto := Example.crypto)
               (with_version (Some 7%Z) Example.keystore_v4) "pw" Example.world0)
  = Ok Example.single_keyring.
Proof. vm_compute. reflexivity. Qed.

(** ** Encrypting one key, and decrypting it again *)

Section EncryptKeyProperties.
Context {helper : KeyringHelper} {crypto : Crypto}.

Lemma buffer_or_random_returns (x : option Buffer) (n : nat) (w : World) :
  exists b w', buffer_or_random x n w = (Ok b, w') /\
               match x with Some b' => b = b' | None => b = fst (randomBytes n (entropy w)) end.
Proof.
  destruct x as [b|]; cbn.
  - exists b, w. split; reflexivity.
  - unfold draw. destruct (randomBytes n (entropy w)) as [b s] eqn:E.
    eexists _, _. split; reflexivity.
Qed.

Lemma Buffer_slice_key_length (derivedKey : Buffer) :
  (16 <= length derivedKey)%nat -> length (Buffer_slice 0 16 derivedKey) = 16%nat.
Proof.
  intros H. unfold Buffer_slice. cbn [skipn Nat.sub]. rewrite length_firstn. lia.
Qed.

Lemma encipher_runs (name : string) (key iv data : Buffer) run ct (w : World) :
  createCipheriv name key iv = Some (Some run) ->
  run data = Some ct ->
  exists w', encipher name key iv data w = (Ok ct, w').
Proof.
  intros Hc Hr. unfold encipher, bind, lift, emit. rewrite Hc. cbn. rewrite Hr. cbn.
  eexists. reflexivity.
Qed.

Lemma decipher_runs (name : string) (key iv data : Buffer) run ct (w : World) :
  createDecipheriv name key iv = Some run ->
  run ct = Some data ->
  exists w', decipher name key iv ct w = (Ok data, w').
Proof.
  intros Hc Hr. unfold decipher, bind, lift, emit. rewrite Hc. cbn. rewrite Hr. cbn.
  eexists. reflexivity.
Qed.

(** The crypto object that [encryptKey] builds from a derived key and a
    ciphertext decrypts to the key. *)
Lemma built_object_decrypts (password : string) (key : PrivateKey)
      (kdfName cipherName : string) (params : KdfParams)
      (derivedKey iv ct : Buffer) run :
  backend_sound ->
  (forall c, kdf c = kdfName -> kdfparams c = params ->
             derive c password = Ok derivedKey) ->
  createCipheriv cipherName (Buffer_slice 0 16 derivedKey) iv = Some (Some run) ->
  run (Buffer_from_hex (remove_first_0x (privateKey key))) = Some ct ->
  decrypts_to password
    {| ciphertext := toString_hex ct;
       cipherparams_iv := toString_hex iv;
       cipher := cipherName;
       kdf := kdfName;
       kdfparams := params;
       mac := compute_mac derivedKey ct |} key.
Proof.
  intros Hsound Hderive Hcipher Hrun w.
  destruct (decipher_inverts Hsound _ _ _ _ _ _ Hcipher Hrun) as (run' & Hd & Hrun').
  unfold decryptKey_step. cbn [ciphertext cipherparams_iv cipher mac].
  rewrite (bind_Ok _ _ w derivedKey w) by (unfold lift; now rewrite Hderive).
  rewrite !Buffer_from_hex_toString_hex, String.eqb_refl. cbn [negb].
  destruct (decipher_runs cipherName _ iv _ run' ct w Hd Hrun') as (w' & Hw').
  exists w'. rewrite (bind_Ok _ _ _ _ _ Hw'). unfold ret.
  unfold privateKey. rewrite remove_first_0x_prefixed, Buffer_from_hex_toString_hex.
  reflexivity.
Qed.

(** One key: under the assumptions, [encryptKey] returns a crypto
    object, and that object decrypts to the key. *)
Lemma encryptKey_step_sound (password : string) (options : Options) (key : PrivateKey)
      (w : World) :
  backend_sound ->
  supported_kdf options password ->
  supported_cipher options ->
  exists c w',
    encryptKey_step password options key w = (Ok c, w') /\
    decrypts_to password c key.
Proof.
  intros Hsound Hkdf Hcipher. unfold encryptKey_step.
  destruct (buffer_or_random_returns (opt_salt options) 32 w) as (salt & w1 & Hsalt & _).
  rewrite (bind_Ok _ _ _ _ _ Hsalt).
  destruct (buffer_or_random_returns (opt_iv options) 16 w1) as (iv & w2 & Hiv & Hiv').
  rewrite (bind_Ok _ _ _ _ _ Hiv).
  assert (Hivok : match opt_iv options with
                  | Some iv' => iv = iv' | None => length iv = 16%nat end).
  { destruct (opt_iv options); [exact Hiv'|].
    subst iv. apply (randomBytes_length Hsound). }
  destruct (Hkdf (Buffer_from_hex (toString_hex salt)))
    as (derivedKey & Hlen & [[Hname Hcall] | [Hname Hcall]]);
    rewrite Hname; cbn [String.eqb Ascii.eqb Bool.eqb];
    match goal with
    | |- context [bind (bind (lift ?r) ?k) _] =>
        rewrite (bind_Ok (bind (lift r) k) _ w2 _ w2)
          by (unfold bind, lift, ret; rewrite Hcall; reflexivity)
    end;
    destruct (Hcipher (Buffer_slice 0 16 derivedKey) iv
                      (Buffer_slice_key_length _ Hlen) Hivok) as (run & Hrun & Htotal);
    destruct (Htotal (Buffer_from_hex (remove_first_0x (privateKey key)))) as (ct & Hct);
    destruct (encipher_runs _ _ _ _ run ct w2 Hrun Hct) as (w3 & Hw3);
    rewrite (bind_Ok _ _ _ _ _ Hw3);
    eexists _, w3; (split; [reflexivity|]);
    apply (built_object_decrypts password key _ _ _ derivedKey iv ct run Hsound);
    try assumption;
    intros c Hk Hp; unfold derive; rewrite Hk, Hp; cbn; rewrite Hcall; reflexivity.
Qed.


Lemma for_each_decrypts (password : string) (cs : list CryptoObject)
      (keys : list PrivateKey) (w : World) :
  Forall2 (decrypts_to password) cs keys ->
  exists w',
    for_each (decryptKey_step password) (map JCrypto cs) w
    = (Ok (map privateKey keys), w').
Proof.
  intros Hall. revert w. induction Hall as [|c key cs keys Hc Hall IH]; intros w.
  - exists w. reflexivity.
  - destruct (Hc w) as (w1 & H1). destruct (IH w1) as (w2 & H2).
    exists w2. cbn [map for_each].
    rewrite (bind_Ok _ _ _ _ _ H1), (bind_Ok _ _ _ _ _ H2). reflexivity.
Qed.

(** What [decryptKey] hands back for the crypto objects of a role. *)
Lemma decryptKey_role (password : string) (cs : list CryptoObject)
      (keys : list PrivateKey) (w : World) :
  Forall2 (decrypts_to password) cs keys ->
  exists decrypted w',
    decryptKey (Some (crypto_array cs)) password w = (Ok decrypted, w') /\
    role_keys decrypted = map KeyString (map privateKey keys) /\
    (keys <> [] -> decrypted = Some (map privateKey keys)).
Proof.
  intros Hall. destruct Hall as [|c key cs keys Hc Hall].
  - exists None, w. repeat split; [intros H; contradiction].
  - destruct (for_each_decrypts password (c :: cs) (key :: keys) w
                                (Forall2_cons _ _ Hc Hall)) as (w' & Hw').
    exists (Some (map privateKey (key :: keys))), w'.
    unfold crypto_array. rewrite decryptKey_array by discriminate.
    rewrite (bind_Ok _ _ _ _ _ Hw'). repeat split.
Qed.
End EncryptKeyProperties.

(** ** Rebuilding a keyring from decrypted keys *)

Section ConstructionProperties.
Context {helper : KeyringHelper}.

Lemma push_keys_role0 (a : list PrivateKey) rest (keys : list PrivateKey) :
  Forall well_formed_key keys ->
  push_keys (a :: rest) 0 (key_strings keys) = Ok ((a ++ keys) :: rest).
Proof.
  intros Hwf. revert a. induction Hwf as [|key keys Hkey Hwf IH]; intros a.
  - cbn. now rewrite app_nil_r.
  - unfold key_strings. cbn [map push_keys].
    rewrite (new_PrivateKey_of_key key Hkey). cbn [rbind push_key].
    fold (key_strings keys). rewrite IH, <- app_assoc. reflexivity.
Qed.

Lemma push_keys_role1 (a b : list PrivateKey) rest (keys : list PrivateKey) :
  Forall well_formed_key keys ->
  push_keys (a :: b :: rest) 1 (key_strings keys) = Ok (a :: (b ++ keys) :: rest).
Proof.
  intros Hwf. revert b. induction Hwf as [|key keys Hkey Hwf IH]; intros b.
  - cbn. now rewrite app_nil_r.
  - unfold key_strings. cbn [map push_keys].
    rewrite (new_PrivateKey_of_key key Hkey). cbn [rbind push_key].
    fold (key_strings keys). rewrite IH, <- app_assoc. reflexivity.
Qed.

Lemma push_keys_role2 (a b c : list PrivateKey) rest (keys : list PrivateKey) :
  Forall well_formed_key keys ->
  push_keys (a :: b :: c :: rest) 2 (key_strings keys)
  = Ok (a :: b :: (c ++ keys) :: rest).
Proof.
  intros Hwf. revert c. induction Hwf as [|key keys Hkey Hwf IH]; intros c.
  - cbn. now rewrite app_nil_r.
  - unfold key_strings. cbn [map push_keys].
    rewrite (new_PrivateKey_of_key key Hkey). cbn [rbind push_key].
    fold (key_strings keys). rewrite IH, <- app_assoc. reflexivity.
Qed.

Lemma key_strings_length (keys : list PrivateKey) :
  length (key_strings keys) = length keys.
Proof. unfold key_strings. now rewrite !length_map. Qed.

Lemma fillRoleKey_within_maximum (keys : list (list PrivateKey)) (role : nat)
      (roledKey : list PrivateKey) :
  (length roledKey <= MAXIMUM_KEY_NUM)%nat ->
  (role < 3)%nat ->
  fillRoleKey keys role (Some (key_strings roledKey))
  = push_keys keys role (key_strings roledKey).
Proof.
  intros Hmax Hrole. unfold fillRoleKey. rewrite key_strings_length.
  destruct (Nat.ltb_spec MAXIMUM_KEY_NUM (length roledKey)); [lia|].
  change (Z.to_nat KEY_ROLE.RoleLast) with 3%nat.
  destruct (Nat.leb_spec 3 role); [lia | reflexivity].
Qed.

(** The partition by role, as decrypted from the three-list form. *)
Lemma formatting_role_partition (k0 k1 k2 : list PrivateKey) :
  role_list_ok k0 -> role_list_ok k1 -> role_list_ok k2 ->
  formattingForKeyInKeyring (NestedInput [key_strings k0; key_strings k1; key_strings k2])
  = Ok [k0; k1; k2].
Proof.
  intros [M0 W0] [M1 W1] [M2 W2]. unfold formattingForKeyInKeyring.
  cbn [isMultipleKeysFormat isRoleBasedKeysFormat length Nat.leb negb rbind nth_error].
  change (Z.to_nat KEY_ROLE.RoleLast) with 3%nat. cbn [Nat.leb negb rbind].
  unfold generateKeysFormat. change (Z.to_nat KEY_ROLE.RoleLast) with 3%nat.
  cbn [repeat].
  rewrite fillRoleKey_within_maximum, push_keys_role0 by (assumption || lia).
  cbn [rbind app].
  rewrite fillRoleKey_within_maximum, push_keys_role1 by (assumption || lia).
  cbn [rbind app].
  rewrite fillRoleKey_within_maximum, push_keys_role2 by (assumption || lia).
  reflexivity.
Qed.


Lemma createWithRoleBasedKey_restores (this : Keyring) (input : list (list KeyValue)) :
  keyring_invariant this ->
  (length input <= 3)%nat ->
  formattingForKeyInKeyring (NestedInput input) = Ok (_keys this) ->
  createWithRoleBasedKey (_address this) (NestedInput input) = Ok this.
Proof.
  intros (Haddr & Hcanon & _) Hlen Hkeys.
  unfold createWithRoleBasedKey. cbn [isRoleBasedKeysFormat].
  change (Z.to_nat KEY_ROLE.RoleLast) with 3%nat.
  destruct (Nat.leb_spec (length input) 3); [|lia]. cbn [negb].
  unfold new_Keyring, set_address. rewrite Haddr. cbn [negb rbind].
  rewrite Hkeys, Hcanon. cbn [rbind]. now destruct this.
Qed.
End ConstructionProperties.

(** ** The constructor establishes the invariant *)

Lemma isHexDigit_lowerChar (c : ascii) : isHexDigit (lowerChar c) = isHexDigit c.
Proof. destruct c as [[] [] [] [] [] [] [] []]; reflexivity. Qed.

Lemma isHexString_toLowerCase (s : string) :
  isHexString (toLowerCase s) = isHexString s.
Proof.
  induction s as [|c s IH]; [reflexivity|].
  cbn [toLowerCase isHexString]. now rewrite isHexDigit_lowerChar, IH.
Qed.

Lemma length_toLowerCase (s : string) : String.length (toLowerCase s) = String.length s.
Proof. induction s as [|c s IH]; [reflexivity | cbn; now rewrite IH]. Qed.

(** A text starts with [0x], or with [0X], or carries no hex prefix. *)
Lemma hex_prefix_cases (s : string) :
  (exists h, s = String "0" (String "x" h)) \/
  (exists h, s = String "0" (String "X" h)) \/
  (isHexPrefixed s = false /\ addHexPrefix s = String "0" (String "x" s)).
Proof.
  destruct s as [|a [|b s]].
  - right. right. split; reflexivity.
  - right. right. split; [reflexivity|].
    destruct a as [[] [] [] [] [] [] [] []]; reflexivity.
  - destruct (Ascii.eqb_spec a "0") as [->|Ha].
    + destruct (Ascii.eqb_spec b "x") as [->|Hx]; [left; now exists s|].
      destruct (Ascii.eqb_spec b "X") as [->|HX]; [right; left; now exists s|].
      right. right. split.
      * cbn [isHexPrefixed]. apply Ascii.eqb_neq in Hx, HX. now rewrite Hx, HX.
      * destruct b as [[] [] [] [] [] [] [] []]; try reflexivity; contradiction.
    + right. right. split.
      * cbn [isHexPrefixed]. apply Ascii.eqb_neq in Ha. now rewrite Ha.
      * destruct a as [[] [] [] [] [] [] [] []]; try reflexivity; contradiction.
Qed.

(** What the [address] setter stores for an address that does not
    carry the upper-case prefix [0X] passes the check again and is left
    as it is by the prefixing and the lower-casing. *)
Lemma set_address_canonical (addressInput stored : string) :
  (forall h, addressInput <> String "0" (String "X" h)) ->
  set_address addressInput = Ok stored ->
  isAddress stored = true /\
  toLowerCase (addHexPrefix stored) = stored /\
  toLowerCase stored = stored.
Proof.
  intros Hupper.
  unfold set_address. destruct (isAddress addressInput) eqn:Hvalid; [|discriminate].
  cbn [negb]. intros [= <-].
  assert (E : exists h, toLowerCase (addHexPrefix addressInput)
                        = String "0" (String "x" (toLowerCase h)) /\
                        stripHexPrefix addressInput = h).
  { destruct (hex_prefix_cases addressInput) as [[h ->] | [[h ->] | [Hno Hadd]]].
    - exists h. split; reflexivity.
    - now destruct (Hupper h).
    - exists addressInput. unfold stripHexPrefix.
      rewrite Hno, Hadd. split; reflexivity. }
  destruct E as (h & -> & Hh).
  unfold isAddress in Hvalid. rewrite Hh in Hvalid.
  repeat split.
  - unfold isAddress.
    change (stripHexPrefix (String "0" (String "x" (toLowerCase h)))) with (toLowerCase h).
    now rewrite length_toLowerCase, isHexString_toLowerCase.
  - change (addHexPrefix (String "0" (String "x" (toLowerCase h))))
      with (String "0" (String "x" (toLowerCase h))).
    change (toLowerCase (String "0" (String "x" (toLowerCase h))))
      with (String "0" (String "x" (toLowerCase (toLowerCase h)))).
    now rewrite toLowerCase_idempotent.
  - change (toLowerCase (String "0" (String "x" (toLowerCase h))))
      with (String "0" (String "x" (toLowerCase (toLowerCase h)))).
    now rewrite toLowerCase_idempotent.
Qed.

Lemma ascii_to_digit_below_16 (c : ascii) (x : N) :
  HexString.ascii_to_digit c = Some x -> (x < 16)%N.
Proof.
  unfold HexString.ascii_to_digit.
  repeat match goal with
         | |- context [ascii_dec ?a ?b] => destruct (ascii_dec a b)
         end; intros [= <-]; reflexivity.
Qed.

Lemma Buffer_from_hex_length (h : string) :
  isHexString h = true ->
  length (Buffer_from_hex h) = (String.length h / 2)%nat.
Proof.
  enough (H : (isHexString h = true ->
               length (Buffer_from_hex h) = (String.length h / 2)%nat) /\
              forall c, isHexString (String c h) = true ->
                        length (Buffer_from_hex (String c h))
                        = (String.length (String c h) / 2)%nat) by apply H.
  induction h as [|b r [IH1 IH2]]; [split; [reflexivity | intros c _; reflexivity]|].
  split; [apply IH2|].
  intros c H. cbn [isHexString] in H.
  apply andb_true_iff in H as [Hc H]. apply andb_true_iff in H as [Hb Hr].
  unfold isHexDigit in Hc, Hb. cbn [Buffer_from_hex].
  destruct (HexString.ascii_to_digit c) as [x|] eqn:Ex; [|discriminate].
  destruct (HexString.ascii_to_digit b) as [y|] eqn:Ey; [|discriminate].
  pose proof (ascii_to_digit_below_16 c x Ex). pose proof (ascii_to_digit_below_16 b y Ey).
  destruct (Byte.of_N (16 * x + y)) eqn:Eb.
  - cbn [length String.length]. rewrite (IH1 Hr).
    replace (S (S (String.length r))) with (1 * 2 + String.length r)%nat by lia.
    rewrite Nat.div_add_l by lia. reflexivity.
  - apply Byte.of_N_None_iff in Eb. lia.
Qed.

Lemma new_PrivateKey_well_formed (v : KeyValue) (key : PrivateKey) :
  (forall k, v = KeyObject k -> well_formed_key k) ->
  new_PrivateKey v = Ok key -> well_formed_key key.
Proof.
  intros Hinst. destruct v as [s | k |]; cbn; [| intros [= <-]; now apply Hinst | discriminate].
  unfold isValidPrivateKey.
  destruct (Nat.eqb_spec (String.length (stripHexPrefix s)) 64) as [Hlen|]; [|discriminate].
  destruct (isHexString (stripHexPrefix s)) eqn:Hhex; [|discriminate].
  cbn [andb]. intros [= <-]. unfold well_formed_key. cbn [scalar].
  rewrite (Buffer_from_hex_length _ Hhex), Hlen. reflexivity.
Qed.

Lemma push_key_extends (keys : list (list PrivateKey)) (role : nat) (key : PrivateKey) keys' :
  push_key keys role key = Ok keys' -> keys' = extend_role keys role [key].
Proof.
  revert role keys'. induction keys as [|l rest IH]; intros role keys'; [discriminate|].
  destruct role as [|role]; cbn [push_key extend_role].
  - now intros [= <-].
  - destruct (push_key rest role key) as [rest'|] eqn:E; [|discriminate].
    cbn [rbind]. intros [= <-]. now rewrite (IH role rest' E).
Qed.

Lemma extend_role_twice (keys : list (list PrivateKey)) (role : nat) ks1 ks2 :
  extend_role (extend_role keys role ks1) role ks2 = extend_role keys role (ks1 ++ ks2).
Proof.
  revert role. induction keys as [|l rest IH]; intros role; [now destruct role|].
  destruct role as [|role]; cbn [extend_role]; [now rewrite app_assoc | now rewrite IH].
Qed.

Lemma push_keys_extends (keys : list (list PrivateKey)) (role : nat)
      (keyToAdd : list KeyValue) keys' :
  instances_well_formed keyToAdd ->
  push_keys keys role keyToAdd = Ok keys' ->
  exists ks, keys' = extend_role keys role ks /\
             length ks = length keyToAdd /\ Forall well_formed_key ks.
Proof.
  intros Hinst. revert keys keys'.
  induction Hinst as [|v keyToAdd Hv Hinst IH]; intros keys keys'.
  - cbn. intros [= <-]. exists []. split; [|split; [reflexivity | constructor]].
    clear. revert role. induction keys as [|l rest IH]; intros role; [now destruct role|].
    destruct role; cbn [extend_role]; [now rewrite app_nil_r | now rewrite <- IH].
  - cbn [push_keys].
    destruct (new_PrivateKey v) as [key|] eqn:Ekey; [|discriminate]. cbn [rbind].
    destruct (push_key keys role key) as [keys1|] eqn:Epush; [|discriminate]. cbn [rbind].
    intros Hrest. destruct (IH keys1 keys' Hrest) as (ks & -> & Hlen & Hwf).
    exists (key :: ks). rewrite (push_key_extends _ _ _ _ Epush), extend_role_twice.
    split; [reflexivity | split; [cbn; now rewrite Hlen|]].
    constructor; [exact (new_PrivateKey_well_formed v key Hv Ekey) | exact Hwf].
Qed.

Section ConstructorInvariant.
Context {helper : KeyringHelper}.

Lemma fillRoleKey_extends (keys : list (list PrivateKey)) (role : nat)
      (keyToAdd : option (list KeyValue)) keys' :
  match keyToAdd with Some l => instances_well_formed l | None => True end ->
  fillRoleKey keys role keyToAdd = Ok keys' ->
  exists ks, keys' = extend_role keys role ks /\ role_list_ok ks.
Proof.
  intros Hinst. unfold fillRoleKey. destruct keyToAdd as [l|].
  - destruct (Nat.ltb_spec MAXIMUM_KEY_NUM (length l)); [discriminate|].
    destruct (Z.to_nat KEY_ROLE.RoleLast <=? role)%nat; [discriminate|].
    intros Hpush. destruct (push_keys_extends keys role l keys' Hinst Hpush)
      as (ks & -> & Hlen & Hwf).
    exists ks. split; [reflexivity | split; [lia | exact Hwf]].
  - intros [= <-]. exists []. split; [|split; [cbn; lia | constructor]].
    clear. revert role. induction keys as [|l rest IH]; intros role; [now destruct role|].
    destruct role; cbn [extend_role]; [now rewrite app_nil_r | now rewrite <- IH].
Qed.

Lemma nth_error_well_formed (ll : list (list KeyValue)) (i : nat) :
  Forall instances_well_formed ll ->
  match nth_error ll i with Some l => instances_well_formed l | None => True end.
Proof.
  intros H. destruct (nth_error ll i) as [l|] eqn:E; [|exact I].
  apply nth_error_In in E. rewrite Forall_forall in H. now apply H.
Qed.

(** The key setter leaves one key list per role, none longer than the
    maximum, of well-formed keys. *)
Lemma formattingForKeyInKeyring_partition (keyInput : KeyInput) keys :
  key_input_well_formed keyInput ->
  formattingForKeyInKeyring keyInput = Ok keys ->
  exists k0 k1 k2,
    keys = [k0; k1; k2] /\ role_list_ok k0 /\ role_list_ok k1 /\ role_list_ok k2.
Proof.
  intros Hinst. unfold formattingForKeyInKeyring.
  assert (Hfill : forall ll, Forall instances_well_formed ll ->
            (try! keys0 <- fillRoleKey generateKeysFormat 0 (nth_error ll 0);
             try! keys1 <- fillRoleKey keys0 1 (nth_error ll 1);
             try! keys2 <- fillRoleKey keys1 2 (nth_error ll 2);
             Ok keys2) = Ok keys ->
            exists k0 k1 k2,
              keys = [k0; k1; k2] /\ role_list_ok k0 /\ role_list_ok k1 /\ role_list_ok k2).
  { intros ll Hll.
    destruct (fillRoleKey generateKeysFormat 0 (nth_error ll 0)) as [keys0|] eqn:E0;
      [|discriminate]. cbn [rbind].
    destruct (fillRoleKey keys0 1 (nth_error ll 1)) as [keys1|] eqn:E1; [|discriminate].
    cbn [rbind].
    destruct (fillRoleKey keys1 2 (nth_error ll 2)) as [keys2|] eqn:E2; [|discriminate].
    cbn [rbind]. intros [= <-].
    destruct (fillRoleKey_extends _ _ _ _ (nth_error_well_formed ll 0 Hll) E0)
      as (k0 & -> & H0).
    destruct (fillRoleKey_extends _ _ _ _ (nth_error_well_formed ll 1 Hll) E1)
      as (k1 & -> & H1).
    destruct (fillRoleKey_extends _ _ _ _ (nth_error_well_formed ll 2 Hll) E2)
      as (k2 & -> & H2).
    exists k0, k1, k2. repeat split; try apply H0; try apply H1; try apply H2. }
  destruct keyInput as [v | l | ll]; cbn [key_input_well_formed] in Hinst.
  - destruct v; try discriminate; cbn [rbind]; apply Hfill;
      repeat constructor; inversion Hinst; assumption.
  - destruct (isMultipleKeysFormat (ArrayInput l)); [|discriminate].
    cbn [rbind]. apply Hfill. repeat constructor. exact Hinst.
  - destruct (isMultipleKeysFormat (NestedInput ll)).
    + cbn [rbind]. apply Hfill. repeat constructor.
    + destruct (isRoleBasedKeysFormat (NestedInput ll)); [|discriminate].
      cbn [negb rbind]. apply Hfill. exact Hinst.
Qed.

(** A keyring returned by the constructor for an address that does not
    carry the upper-case prefix [0X] satisfies the invariant. *)
Lemma new_Keyring_invariant (address : string) (keys : KeyInput) (this : Keyring) :
  key_input_well_formed keys ->
  (forall h, address <> String "0" (String "X" h)) ->
  new_Keyring address keys = Ok this ->
  keyring_invariant this.
Proof.
  intros Hinst Hupper. unfold new_Keyring.
  destruct (set_address address) as [a|] eqn:Ea; [|discriminate]. cbn [rbind].
  destruct (formattingForKeyInKeyring keys) as [ks|] eqn:Ek; [|discriminate]. cbn [rbind].
  intros [= <-].
  destruct (set_address_canonical _ _ Hupper Ea) as (H1 & H2 & H3).
  destruct (formattingForKeyInKeyring_partition keys ks Hinst Ek)
    as (k0 & k1 & k2 & -> & H0 & Hk1 & Hk2).
  unfold keyring_invariant. cbn [_address _keys].
  repeat split; try assumption; try reflexivity.
  repeat constructor; (apply H0 || apply Hk1 || apply Hk2).
Qed.
End ConstructorInvariant.

(** ** Encrypting a keyring, and decrypting it again *)

Section RoundTrip.
Context {helper : KeyringHelper} {crypto : Crypto}.


Lemma formatEncrypted_4 (address : string) (keyring : Json) (options : Options) (w : World) :
  exists id w',
    formatEncrypted 4 address keyring options w
    = (Ok {| ks_version := Some 4%Z; ks_id := id; ks_address := toLowerCase address;
             ks_crypto := None; ks_keyring := Some keyring |}, w').
Proof.
  unfold formatEncrypted.
  destruct (buffer_or_random_returns (opt_uuid options) 16 w) as (b & w' & Hb & _).
  rewrite (bind_Ok _ _ _ _ _ Hb). cbn. eexists _, _. reflexivity.
Qed.

Lemma decrypt_checks_4 (keystore : Keystore) (keyring : Json) (w : World) :
  ks_version keystore = Some 4%Z ->
  ks_crypto keystore = None ->
  ks_keyring keystore = Some keyring ->
  decrypt_checks keystore w = (Ok (Some keyring), w).
Proof.
  intros Hv Hc Hk. unfold decrypt_checks. rewrite Hv, Hc, Hk. reflexivity.
Qed.



End RoundTrip.

(** ** The example backend meets the assumptions *)

Lemma cycle_length (n : nat) (pattern rest : Buffer) :
  length (Example.cycle n pattern rest) = n.
Proof.
  revert rest. induction n as [|n IH]; intros rest; [reflexivity|].
  cbn [Example.cycle]. destruct rest; [destruct pattern|]; cbn [length]; now rewrite IH.
Qed.

Lemma example_backend_sound : backend_sound (crypto := Example.crypto).
Proof.
  split.
  - intros n s. cbn. apply cycle_length.
  - intros name key iv run data ct Hc Hr. cbn in Hc |- *.
    destruct (String.eqb name "aes-128-ctr"); [|discriminate].
    injection Hc as <-. unfold Example.toy_cipher in Hr. injection Hr as <-.
    exists (Example.toy_decipher key). split; [reflexivity|].
    unfold Example.toy_decipher. rewrite rev_app_distr, rev_involutive. cbn.
    now rewrite (Byte.byte_dec_lb eq_refl).
Qed.

Lemma example_supported_kdf (password : string) :
  supported_kdf (crypto := Example.crypto) Example.no_options password.
Proof.
  intros salt.
  exists (Example.cycle 32 (Buffer_from password ++ firstn 1 salt) []).
  split; [rewrite cycle_length; lia | right; split; reflexivity].
Qed.

Lemma example_supported_cipher :
  supported_cipher (crypto := Example.crypto) Example.no_options.
Proof.
  intros key iv _ _. exists (Example.toy_cipher key). split; [reflexivity|].
  intros data. eexists. reflexivity.
Qed.

Lemma example_keyring_invariant :
  keyring_invariant (helper := Example.helper) Example.role_based_keyring.
Proof.
  repeat split; cbn; repeat constructor.
Qed.



(** The round trip by computation: two transaction keys under [pbkdf2]
    with a salt, an iv and a key length given in the options. *)
Example decrypt_encrypt_pbkdf2 :
  let options :=
    {| opt_salt := Some [x0a; x0b]; opt_iv := Some [x01]; opt_kdf := Some "pbkdf2";
       opt_dklen := Some 24%Z; opt_c := Some 1000%Z; opt_n := None; opt_r := None;
       opt_p := None; opt_cipher := Some "aes-128-ctr"; opt_uuid := None;
       opt_address := None |} in
  match encrypt (crypto := Example.crypto) Example.multisig_keyring "secret" options
                Example.world0 with
  | (Ok keystore, w) =>
      fst (decrypt (helper := Example.helper) (crypto := Example.crypto)
                   keystore "secret" w)
  | (Throw e, _) => Throw e
  end = Ok Example.multisig_keyring.
Proof. vm_compute. reflexivity. Qed.

(** The keyring without keys is outside the theorem: its keystore has
    an empty key list, which [decrypt] hands to the constructor as
    [[undefined]]. *)
Example decrypt_encrypt_empty_keyring :
  match encrypt (crypto := Example.crypto) Example.empty_keyring "pw" Example.no_options
                Example.world0 with
  | (Ok keystore, w) =>
      fst (decrypt (helper := Example.helper) (crypto := Example.crypto) keystore "pw" w)
  | (Throw e, _) => Throw e
  end = Throw InvalidPrivateKey.
Proof. vm_compute. reflexivity. Qed.

(** ** Keystore version 3 *)

Section KeystoreV3Properties.
Context {helper : KeyringHelper} {crypto : Crypto}.

Lemma encryptV3_refuses (this : Keyring) txKey updateKey feePayerKey
      (password : string) (options : Options) (w : World) :
  _keys this = [txKey; updateKey; feePayerKey] ->
  (1 < length txKey)%nat \/ updateKey <> [] \/ feePayerKey <> [] ->
  encryptV3 this password options w = (Throw KeystoreV3NotAvailable, w).
Proof.
  intros Hkeys Hshape. unfold encryptV3. rewrite Hkeys.
  change (at_index [txKey; updateKey; feePayerKey] KEY_ROLE.RoleTransactionKey)
    with (Some txKey).
  cbv beta iota.
  destruct (Nat.ltb_spec 1 (length txKey)) as [Hmany | Hfew]; [reflexivity|].
  apply bind_Throw. cbn [for_each].
  change (at_index [txKey; updateKey; feePayerKey] KEY_ROLE.RoleAccountUpdateKey)
    with (Some updateKey).
  change (at_index [txKey; updateKey; feePayerKey] KEY_ROLE.RoleFeePayerKey)
    with (Some feePayerKey).
  destruct updateKey as [|u updateKey]; [|reflexivity].
  destruct feePayerKey as [|f feePayerKey]; [|reflexivity].
  destruct Hshape as [H | [H | H]]; [lia | contradiction | contradiction].
Qed.

(** C8 (as amended): [encryptV3] fails with the error that points to
    [keyring.encrypt] for every keyring that holds more than one
    TransactionKey key or a key in another role, and encrypts nothing
    then; for a keyring that holds exactly one key, in the
    TransactionKey role, it returns (with options the backend supports)
    a version 3 record under the keyring's address whose [crypto] field
    holds that key, encrypted. *)
Theorem encryptV3_accepts_one_key_only
        (this : Keyring) txKey updateKey feePayerKey
        (password : string) (options : Options) (w : World) :
  _keys this = [txKey; updateKey; feePayerKey] ->
  ((1 < length txKey)%nat \/ updateKey <> [] \/ feePayerKey <> [] ->
   encryptV3 this password options w = (Throw KeystoreV3NotAvailable, w)) /\
  (forall key,
      txKey = [key] -> updateKey = [] -> feePayerKey = [] ->
      backend_sound -> supported_kdf options password -> supported_cipher options ->
      exists c id w',
        encryptV3 this password options w
        = (Ok {| ks_version := Some 3%Z; ks_id := id;
                 ks_address := toLowerCase (_address this);
                 ks_crypto := Some (JArray [JCrypto c]);
                 ks_keyring := None |}, w') /\
        decrypts_to password c key).
Proof.
  intros Hkeys. split; [now apply encryptV3_refuses|].
  intros key -> -> -> Hsound Hkdf Hcipher.
  unfold encryptV3. rewrite Hkeys.
  change (at_index [[key]; []; []] KEY_ROLE.RoleTransactionKey) with (Some [key]).
  cbv beta iota. cbn [length Nat.ltb Nat.leb for_each].
  change (at_index [[key]; []; []] KEY_ROLE.RoleAccountUpdateKey)
    with (Some (@nil PrivateKey)).
  change (at_index [[key]; []; []] KEY_ROLE.RoleFeePayerKey)
    with (Some (@nil PrivateKey)).
  cbn [length Nat.ltb Nat.leb].
  rewrite (bind_Ok _ _ w [tt; tt] w) by reflexivity.
  change (at_index [key] 0) with (Some key). unfold encryptKey.
  destruct (encryptKey_step_sound password options key w Hsound Hkdf Hcipher)
    as (c & w1 & Hc & Hdec).
  rewrite (bind_Ok _ _ w [c] w1)
    by (cbn [for_each]; rewrite (bind_Ok _ _ _ _ _ Hc); reflexivity).
  unfold formatEncrypted.
  destruct (buffer_or_random_returns (opt_uuid options) 16 w1) as (b & w2 & Hb & _).
  rewrite (bind_Ok _ _ _ _ _ Hb). cbn.
  exists c, (uuid_v4 b), w2. split; [reflexivity | exact Hdec].
Qed.
End KeystoreV3Properties.

(** The theorem at the example keyrings with two transaction keys and
    with one. *)
Lemma encryptV3_accepts_one_key_only_witness :
  encryptV3 (crypto := Example.crypto) Example.multisig_keyring "pw"
            Example.no_options Example.world0
  = (Throw KeystoreV3NotAvailable, Example.world0) /\
  exists c id w',
    encryptV3 (crypto := Example.crypto) Example.single_keyring "pw"
              Example.no_options Example.world0
    = (Ok {| ks_version := Some 3%Z; ks_id := id;
             ks_address := Example.address1;
             ks_crypto := Some (JArray [JCrypto c]);
             ks_keyring := None |}, w').
Proof.
  split.
  - apply (proj1 (encryptV3_accepts_one_key_only
                    (crypto := Example.crypto)
                    Example.multisig_keyring [Example.key1; Example.key2] [] []
                    "pw" Example.no_options Example.world0 eq_refl)).
    left. cbn. lia.
  - destruct (proj2 (encryptV3_accepts_one_key_only
                       (crypto := Example.crypto)
                       Example.single_keyring [Example.key1] [] []
                       "pw" Example.no_options Example.world0 eq_refl)
                    Example.key1 eq_refl eq_refl eq_refl
                    example_backend_sound (example_supported_kdf "pw")
                    example_supported_cipher) as (c & id & w' & H & _).
    exists c, id, w'. exact H.
Defined.

(** For the keyring without keys [encryptV3] returns a version 3 record
    with an empty [crypto] list: the call does not fail. *)
Lemma encryptV3_empty_keyring_returns :
  fst (encryptV3 (crypto := Example.crypto) Example.empty_keyring "pw"
                 Example.no_options Example.world0)
  = Ok {| ks_version := Some 3%Z;
          ks_id := "11111111111111111111111111111111";
          ks_address := Example.address1;
          ks_crypto := Some (JArray []);
          ks_keyring := None |}.
Proof. vm_compute. reflexivity. Qed.

(** ** The eth-lib codec round-trips well-formed trees *)

Lemma length_append (a b : string) :
  String.length (a ++ b) = (String.length a + String.length b)%nat.
Proof. induction a as [|c a IH]; cbn; [reflexivity | now rewrite IH]. Qed.

Lemma append_assoc (a b c : string) : ((a ++ b) ++ c = a ++ b ++ c)%string.
Proof. induction a as [|x a IH]; cbn; [reflexivity | now rewrite IH]. Qed.

Lemma append_empty (a : string) : (a ++ "")%string = a.
Proof. induction a as [|x a IH]; cbn; [reflexivity | now rewrite IH]. Qed.

Lemma substring_skip (a b : string) (n m : nat) :
  substring (String.length a + n) m (a ++ b) = substring n m b.
Proof. induction a as [|x a IH]; cbn; [reflexivity | exact IH]. Qed.

Lemma substring_whole (a b : string) :
  substring 0 (String.length a) (a ++ b) = a.
Proof.
  induction a as [|x a IH]; cbn.
  - now destruct b.
  - now rewrite IH.
Qed.

Lemma substring_at (pre a rest : string) (n : nat) :
  n = String.length a ->
  substring (String.length pre) n (pre ++ a ++ rest) = a.
Proof.
  intros ->. rewrite <- (Nat.add_0_r (String.length pre)), substring_skip.
  apply substring_whole.
Qed.

Section EthLibProperties.
Import EthLib.

Lemma even_double_half (n : nat) : Nat.even n = true -> (n / 2 * 2 = n)%nat.
Proof.
  intros H. apply Nat.even_spec in H. destruct H as [k ->].
  replace (2 * k)%nat with (k * 2)%nat by lia. rewrite Nat.div_mul by lia. reflexivity.
Qed.

Lemma padEven_even (s : string) : Nat.even (String.length (padEven s)) = true.
Proof.
  unfold padEven. destruct (Nat.even (String.length s)) eqn:E; [exact E|].
  cbn [String.length]. rewrite Nat.even_succ, <- Nat.negb_even, E. reflexivity.
Qed.

Lemma uint_even (n : nat) : Nat.even (String.length (uint n)) = true.
Proof. apply padEven_even. Qed.

Lemma parseInt16_uint (n : nat) : parseInt16 (uint n) = n.
Proof.
  unfold parseInt16, uint.
  assert (H : exists d, HexString.of_nat n = String "0" (String "x" d)).
  { unfold HexString.of_nat. destruct (N.of_nat n) as [|p];
    [exists "0" | exists (HexString.Raw.of_pos p "")]; reflexivity. }
  destruct H as [d Hd]. rewrite Hd. cbn [slice_from].
  transitivity (HexString.to_nat (HexString.of_nat n));
    [| apply HexString.to_nat_of_nat].
  rewrite Hd.
  unfold padEven. destruct (Nat.even (String.length d)); reflexivity.
Qed.

Lemma uint_length (n : nat) : (0 < n -> 2 <= String.length (uint n))%nat.
Proof.
  intros Hn. pose proof (uint_even n) as He. pose proof (parseInt16_uint n) as Hp.
  destruct (uint n) as [|a [|b r]]; cbn in *; try lia; discriminate.
Qed.

Lemma byte_facts (n : nat) :
  (128 <= n < 256)%nat ->
  String.length (uint n) = 2%nat /\ String.ltb (uint n) "80" = false /\
  String.ltb (uint n) "c0" = (n <? 192)%nat.
Proof.
  intros Hn.
  assert (Hall : forallb byte_check (seq 128 128) = true) by (vm_compute; reflexivity).
  rewrite forallb_forall in Hall. specialize (Hall n).
  assert (Hin : In n (seq 128 128)) by (apply in_seq; lia).
  apply Hall in Hin. unfold byte_check in Hin.
  apply andb_true_iff in Hin. destruct Hin as [Hin H3].
  apply andb_true_iff in Hin. destruct Hin as [H1 H2].
  apply Nat.eqb_eq in H1. apply negb_true_iff in H2. apply Bool.eqb_prop in H3.
  auto.
Qed.

(** The header of an item: its first byte tells strings from lists, and
    [parseLength] reads the length back and stops behind the header. *)
Lemma header_parses (len add : nat) (pre rest : string) :
  fits len -> add = 128%nat \/ add = 192%nat ->
  let hex := (pre ++ rlp_length len add ++ rest)%string in
  String.ltb (substring (String.length pre) 2 hex) "80" = false /\
  String.ltb (substring (String.length pre) 2 hex) "c0" = (add =? 128)%nat /\
  parseLength hex (String.length pre)
  = (len, String.length pre + String.length (rlp_length len add))%nat /\
  (2 <= String.length (rlp_length len add))%nat /\
  Nat.even (String.length (rlp_length len add)) = true.
Proof.
  intros Hfit Hadd hex. subst hex. unfold rlp_length, parseLength.
  destruct (len <? 56)%nat eqn:Hlen.
  - apply Nat.ltb_lt in Hlen.
    destruct (byte_facts (add + len)) as (L & B1 & B2); [lia|].
    rewrite (substring_at pre (uint (add + len)) rest 2) by (symmetry; exact L).
    rewrite parseInt16_uint.
    assert (Hmod : ((add + len) mod 64 = len)%nat).
    { destruct Hadd as [-> | ->].
      - replace (128 + len)%nat with (len + 2 * 64)%nat by lia.
        rewrite Nat.Div0.mod_add. apply Nat.mod_small. lia.
      - replace (192 + len)%nat with (len + 3 * 64)%nat by lia.
        rewrite Nat.Div0.mod_add. apply Nat.mod_small. lia. }
    rewrite Hmod. apply Nat.ltb_lt in Hlen. rewrite Hlen, L.
    split; [exact B1 | split; [| split; [reflexivity | split; [lia | reflexivity]]]].
    rewrite B2. apply Nat.ltb_lt in Hlen. destruct Hadd as [-> | ->].
    + change (128 =? 128)%nat with true. apply Nat.ltb_lt. lia.
    + change (192 =? 128)%nat with false. apply Nat.ltb_ge. lia.
  - apply Nat.ltb_ge in Hlen.
    pose proof (uint_length len ltac:(lia)) as Hk.
    pose proof (uint_even len) as He. unfold fits in Hfit.
    set (k := (String.length (uint len) / 2)%nat).
    assert (Hk2 : (k * 2 = String.length (uint len))%nat)
      by (apply even_double_half; exact He).
    assert (Hkr : (1 <= k <= 8)%nat) by lia.
    destruct (byte_facts (add + k + 55)) as (L & B1 & B2); [lia|].
    rewrite !append_assoc.
    rewrite (substring_at pre (uint (add + k + 55)) _ 2) by (symmetry; exact L).
    rewrite parseInt16_uint.
    assert (Hmod : ((add + k + 55) mod 64 = k + 55)%nat).
    { destruct Hadd as [-> | ->].
      - replace (128 + k + 55)%nat with (k + 55 + 2 * 64)%nat by lia.
        rewrite Nat.Div0.mod_add. apply Nat.mod_small. lia.
      - replace (192 + k + 55)%nat with (k + 55 + 3 * 64)%nat by lia.
        rewrite Nat.Div0.mod_add. apply Nat.mod_small. lia. }
    rewrite Hmod.
    assert (Hlt : (k + 55 <? 56)%nat = false) by (apply Nat.ltb_ge; lia).
    rewrite Hlt. replace (k + 55 - 55)%nat with k by lia.
    rewrite length_append, L.
    replace (String.length pre + 2)%nat
      with (String.length (pre ++ uint (add + k + 55))).
    2:{ rewrite length_append, L. reflexivity. }
    rewrite <- append_assoc.
    rewrite (substring_at (pre ++ uint (add + k + 55)) (uint len) rest) by exact Hk2.
    rewrite parseInt16_uint, length_append, L.
    split; [exact B1 | split; [| split; [f_equal; lia | split; [lia |]]]].
    + rewrite B2. destruct Hadd as [-> | ->].
      * change (128 =? 128)%nat with true. apply Nat.ltb_lt. lia.
      * change (192 =? 128)%nat with false. apply Nat.ltb_ge. lia.
    + cbn [Nat.add]. rewrite !Nat.even_succ_succ. exact He.
Qed.

Lemma parseTree_S (fuel : nat) (hex : string) (i : nat) :
  parseTree (S fuel) hex i
  = if (String.length hex <=? i)%nat then None
    else
      let head := substring i 2 hex in
      if String.ltb head "80" then Some (VString ("0x" ++ head), i + 2)%nat
      else if String.ltb head "c0" then
        let (len, i) := parseLength hex i in
        Some (VString ("0x" ++ substring i (len * 2) hex), i + len * 2)%nat
      else
        let (len, i) := parseLength hex i in
        parseItems fuel hex (len * 2 + i) i [].
Proof. reflexivity. Qed.

Lemma parseItems_S (fuel : nat) (hex : string) (lim i : nat) (list : list Value) :
  parseItems (S fuel) hex lim i list
  = if (i <? lim)%nat then
      match parseTree fuel hex i with
      | Some (item, i') => parseItems fuel hex lim i' (list ++ [item])
      | None => None
      end
    else Some (VArray list, i).
Proof. reflexivity. Qed.

Lemma Value_induction (P : Value -> Prop) :
  (forall s, P (VString s)) ->
  (forall l, Forall P l -> P (VArray l)) ->
  forall t, P t.
Proof.
  intros Hs Ha. fix IH 1. intros [s | l]; [apply Hs | apply Ha].
  induction l as [|t l IHl]; constructor; [apply IH | exact IHl].
Qed.

Lemma join_even (l : list Value) :
  Forall parses_back l -> Nat.even (String.length (join (map dataTree l))) = true.
Proof.
  induction 1 as [|t l (_ & He & _) _ IH]; cbn [map join]; [reflexivity|].
  rewrite length_append, Nat.even_add, He, IH. reflexivity.
Qed.

Lemma parseItems_children (l : list Value) :
  Forall parses_back l ->
  forall (pre suf : string) (acc : list Value) (fuel : nat),
    (String.length (join (map dataTree l)) < fuel)%nat ->
    parseItems fuel (pre ++ join (map dataTree l) ++ suf)
               (String.length pre + String.length (join (map dataTree l)))
               (String.length pre) acc
    = Some (VArray (acc ++ l),
            String.length pre + String.length (join (map dataTree l)))%nat.
Proof.
  induction 1 as [|t l (H2 & _ & Ht) _ IH]; intros pre suf acc fuel Hfuel;
    cbn [map join] in *; destruct fuel as [|fuel]; try lia; rewrite parseItems_S.
  - cbn [String.length]. rewrite Nat.add_0_r, Nat.ltb_irrefl, app_nil_r. reflexivity.
  - rewrite length_append in *.
    assert (Hlt : (String.length pre
                   <? String.length pre
                      + (String.length (dataTree t)
                         + String.length (join (map dataTree l))))%nat = true)
      by (apply Nat.ltb_lt; lia).
    rewrite Hlt, append_assoc, Ht by lia.
    rewrite <- (append_assoc pre), Nat.add_assoc, <- (length_append pre).
    rewrite IH by lia. rewrite <- app_assoc. reflexivity.
Qed.

Lemma all_well_formed (l : list Value) :
  (fix all (l : list Value) : Prop :=
     match l with
     | [] => True
     | t :: rest => well_formed t /\ all rest
     end) l ->
  Forall well_formed l.
Proof. induction l as [|t l IH]; intros H; constructor; [apply H | apply IH, H]. Qed.

Lemma well_formed_parses_back (t : Value) : well_formed t -> parses_back t.
Proof.
  induction t as [s | l IH] using Value_induction.
  - intros (h & -> & He & Hfit). unfold parses_back.
    cbn [dataTree slice_from].
    destruct (negb (String.length h =? 2)%nat || negb (String.ltb h "80")) eqn:Hb.
    + destruct (header_parses (String.length h / 2) 128 EmptyString EmptyString
                  Hfit (or_introl eq_refl)) as (_ & _ & _ & H2 & Hev).
      split; [rewrite length_append; lia|].
      split; [rewrite length_append, Nat.even_add, Hev, He; reflexivity|].
      intros pre suf [|fuel] Hfuel; [rewrite length_append in Hfuel; lia|].
      rewrite parseTree_S, append_assoc.
      destruct (header_parses (String.length h / 2) 128 pre (h ++ suf)
                  Hfit (or_introl eq_refl)) as (B1 & B2 & HL & _ & _).
      cbv zeta in B1, B2, HL.
      assert (Hle : (String.length
                       (pre ++ rlp_length (String.length h / 2) 128 ++ h ++ suf)
                     <=? String.length pre)%nat = false).
      { apply Nat.leb_gt. rewrite !length_append. lia. }
      rewrite Hle. cbv zeta. rewrite B1, B2, HL. change (128 =? 128)%nat with true.
      cbv iota. rewrite <- (length_append pre), <- append_assoc.
      rewrite (substring_at _ h suf) by (apply even_double_half; exact He).
      rewrite (even_double_half _ He), !length_append. do 2 f_equal. lia.
    + apply orb_false_iff in Hb. destruct Hb as [Hl Hlt].
      apply negb_false_iff in Hl, Hlt. apply Nat.eqb_eq in Hl.
      cbn [append]. split; [lia|]. split; [exact He|].
      intros pre suf [|fuel] Hfuel; [lia|].
      rewrite parseTree_S.
      assert (Hle : (String.length (pre ++ h ++ suf) <=? String.length pre)%nat = false).
      { apply Nat.leb_gt. rewrite !length_append. lia. }
      rewrite Hle. cbv zeta. rewrite (substring_at pre h suf) by (symmetry; exact Hl).
      rewrite Hlt, Hl. reflexivity.
  - intros [Hall Hfit]. apply all_well_formed in Hall.
    assert (Hch : Forall parses_back l).
    { rewrite Forall_forall in *. intros t Hin. apply IH; [exact Hin | apply Hall, Hin]. }
    clear IH Hall. unfold parses_back. cbn [dataTree].
    set (body := join (map dataTree l)) in *.
    pose proof (join_even l Hch) as Hev. fold body in Hev.
    destruct (header_parses (String.length body / 2) 192 EmptyString EmptyString
                Hfit (or_intror eq_refl)) as (_ & _ & _ & H2 & Hhe).
    split; [rewrite length_append; lia|].
    split; [rewrite length_append, Nat.even_add, Hhe, Hev; reflexivity|].
    intros pre suf [|fuel] Hfuel; [rewrite length_append in Hfuel; lia|].
    rewrite parseTree_S, append_assoc.
    destruct (header_parses (String.length body / 2) 192 pre (body ++ suf)
                Hfit (or_intror eq_refl)) as (B1 & B2 & HL & _ & _).
    cbv zeta in B1, B2, HL.
    assert (Hle : (String.length
                     (pre ++ rlp_length (String.length body / 2) 192 ++ body ++ suf)
                   <=? String.length pre)%nat = false).
    { apply Nat.leb_gt. rewrite !length_append. lia. }
    rewrite Hle. cbv zeta. rewrite B1, B2, HL. change (192 =? 128)%nat with false.
    cbv iota. rewrite (even_double_half _ Hev).
    rewrite <- (length_append pre), <- append_assoc, Nat.add_comm.
    unfold body. rewrite parseItems_children; [| exact Hch |].
    + fold body. rewrite !length_append. cbn [app]. do 2 f_equal. lia.
    + fold body. rewrite length_append in Hfuel. lia.
Qed.

(** The codec takes a well-formed tree to prefixed hex and back. *)
Lemma decode_encode (tree : Value) :
  well_formed tree -> decode (encode tree) = tree.
Proof.
  intros Hwf. destruct (well_formed_parses_back tree Hwf) as (_ & _ & Hp).
  unfold decode, encode.
  specialize (Hp "0x" EmptyString (String.length (String "0" (String "x" (dataTree tree))))).
  rewrite append_empty in Hp. cbn [append String.length] in Hp.
  cbn [String.length]. rewrite Hp by lia. reflexivity.
Qed.

End EthLibProperties.

(** The assumption of the wire round trip holds of the eth-lib codec on
    every well-formed tree. *)
Lemma EthLib_round_trips (tree : Value) :
  EthLib.well_formed tree -> rlp_round_trips (rlp := EthLib.rlp) tree.
Proof.
  intros Hwf. split.
  - exists (EthLib.dataTree tree). reflexivity.
  - apply decode_encode, Hwf.
Qed.

(** ** The type tag *)

Section TagProperties.
Context {rlp : RlpCodec} {txHelper : TransactionHelper}.

(** C7: a byte string whose leading characters, once the hex prefix is
    in place, are not the type tag of the transaction type is refused
    by [_decode] and so by [decode], whatever follows them. *)
Theorem decode_refuses_other_tag (rlpEncoded : string) :
  substring 0 (String.length TX_TYPE_TAG) (addHexPrefix rlpEncoded) <> TX_TYPE_TAG ->
  _decode rlpEncoded = Throw TagMismatch /\
  decode rlpEncoded = Throw TagMismatch.
Proof.
  intros Htag.
  assert (E : _decode rlpEncoded = Throw TagMismatch).
  { unfold _decode, startsWith.
    destruct (String.prefix TX_TYPE_TAG (addHexPrefix rlpEncoded)) eqn:Hp;
      [|reflexivity].
    apply prefix_correct in Hp. contradiction. }
  split; [exact E|]. unfold decode. now rewrite E.
Qed.
End TagProperties.

(** ** Construction with [input] and [data] *)

Section ConstructionErrors.
Context {rlp : RlpCodec} {txHelper : TransactionHelper}.

Lemma set_input_falsy (v : option Value) :
  truthy v = false -> set_input v = Throw InvalidInputData.
Proof.
  destruct v as [[s | l]|]; cbn; intros H; try reflexivity; try discriminate.
  destruct s; [reflexivity | discriminate].
Qed.

(** C9: constructing the transaction from an object whose [input] and
    [data] are both set (to a truthy value, which is what the
    constructor tests) raises an error, and so does constructing it
    from an object in which neither is set (both absent or empty): no
    instance is returned.  When the checks that run earlier pass, the
    error is the one for [input] and [data] given together,
    respectively the one for invalid input data. *)
Theorem construction_needs_one_of_input_and_data (createTxObj : CreateTxObj) :
  (truthy (o_input createTxObj) = true -> truthy (o_data createTxObj) = true ->
   succeeded (new_FeeDelegatedChainDataAnchoring createTxObj) = false /\
   (forall b from,
       super TX_TYPE_STRING createTxObj = Ok b ->
       set_from (o_from createTxObj) = Ok from ->
       new_FeeDelegatedChainDataAnchoring createTxObj = Throw InputAndDataTogether)) /\
  (truthy (o_input createTxObj) = false -> truthy (o_data createTxObj) = false ->
   succeeded (new_FeeDelegatedChainDataAnchoring createTxObj) = false /\
   (forall b from,
       super TX_TYPE_STRING createTxObj = Ok b ->
       set_from (o_from createTxObj) = Ok from ->
       new_FeeDelegatedChainDataAnchoring createTxObj = Throw InvalidInputData)).
Proof.
  unfold new_FeeDelegatedChainDataAnchoring. split; intros Hi Hd.
  - rewrite Hi, Hd. cbn [andb]. split.
    + destruct (super TX_TYPE_STRING createTxObj); [|reflexivity].
      cbn [rbind]. destruct (set_from (o_from createTxObj)); reflexivity.
    + intros b from -> ->. reflexivity.
  - rewrite Hi. cbn [andb]. unfold value_or. rewrite Hi.
    rewrite (set_input_falsy _ Hd). split.
    + destruct (super TX_TYPE_STRING createTxObj); [|reflexivity].
      cbn [rbind]. destruct (set_from (o_from createTxObj)); reflexivity.
    + intros b from -> ->. reflexivity.
Qed.
End ConstructionErrors.

(** ** Quantities on the wire *)

Lemma stripZeroBytes_value (h : string) :
  HexString.Raw.to_N (stripZeroBytes h) 0%N = HexString.Raw.to_N h 0%N.
Proof.
  enough (H : HexString.Raw.to_N (stripZeroBytes h) 0%N = HexString.Raw.to_N h 0%N /\
              forall c, HexString.Raw.to_N (stripZeroBytes (String c h)) 0%N
                        = HexString.Raw.to_N (String c h) 0%N) by apply H.
  induction h as [|b r [IH1 IH2]]; [split; [reflexivity | intros c; reflexivity]|].
  split; [apply IH2|].
  intros c. cbn [stripZeroBytes].
  destruct (Ascii.eqb_spec c "0"); [|reflexivity].
  destruct (Ascii.eqb_spec b "0"); [|reflexivity].
  subst. cbn [andb]. rewrite IH1. reflexivity.
Qed.

Lemma stripZeroBytes_isHexString (h : string) :
  isHexString h = true -> isHexString (stripZeroBytes h) = true.
Proof.
  enough (H : (isHexString h = true -> isHexString (stripZeroBytes h) = true) /\
              forall c, isHexString (String c h) = true ->
                        isHexString (stripZeroBytes (String c h)) = true) by apply H.
  induction h as [|b r [IH1 IH2]]; [split; [auto | intros c H; exact H]|].
  split; [apply IH2|].
  intros c H. cbn [stripZeroBytes].
  destruct (Ascii.eqb c "0" && Ascii.eqb b "0"); [|exact H].
  apply IH1. cbn [isHexString] in H.
  apply andb_true_iff in H as [_ H]. apply andb_true_iff in H as [_ H]. exact H.
Qed.

Lemma stripZeroBytes_zero_bytes (k : nat) (h : string) :
  stripZeroBytes (zero_bytes k ++ h) = stripZeroBytes h.
Proof. induction k as [|k IH]; [reflexivity | exact IH]. Qed.

Lemma of_pos_isHexString (p : positive) (rest : string) :
  isHexString rest = true -> isHexString (HexString.Raw.of_pos p rest) = true.
Proof.
  revert p rest. fix IH 1. intros p rest H.
  do 4 try destruct p as [p|p|]; cbn [HexString.Raw.of_pos];
    try (apply IH); cbn [isHexString]; rewrite H; reflexivity.
Qed.

(** A quantity written by [Bytes.fromNat], trimmed by [_decode] and
    read by the setter is the quantity. *)
Lemma quantity_round_trip (n : N) :
  set_quantity (Some (VString (trimLeadingZero (Bytes_fromNat (quantity n))))) = Ok n.
Proof.
  destruct n as [|p]; [reflexivity|].
  unfold quantity, HexString.of_N, HexString.of_pos.
  set (d := HexString.Raw.of_pos p "").
  assert (Hhex : isHexString d = true) by (apply of_pos_isHexString; reflexivity).
  assert (Hval : HexString.Raw.to_N d 0%N = N.pos p)
    by (apply (HexString.Raw.to_N_of_pos p "" 0%N)).
  unfold Bytes_fromNat.
  destruct (String.eqb_spec (String "0" (String "x" d)) "0x0") as [E | _].
  { injection E as E. rewrite E in Hval. discriminate. }
  assert (Hread : forall h, isHexString h = true -> HexString.Raw.to_N h 0%N = N.pos p ->
                            set_quantity (Some (VString (trimLeadingZero
                                                          (String "0" (String "x" h)))))
                            = Ok (N.pos p)).
  { intros h Hh Hv. cbn [trimLeadingZero append set_quantity].
    now rewrite (stripZeroBytes_isHexString h Hh), stripZeroBytes_value, Hv. }
  destruct (Nat.even (String.length (String "0" (String "x" d)))).
  - now apply Hread.
  - cbn [slice_from append]. apply Hread; [cbn [isHexString]; now rewrite Hhex | exact Hval].
Qed.

Lemma signatures_round_trip (l : list Signature) :
  set_signatures (Some (signatures_value l)) = Ok l.
Proof.
  unfold set_signatures, signatures_value.
  induction l as [|s l IH]; [reflexivity|].
  cbn [map as_signatures]. rewrite IH. now destruct s.
Qed.

(** ** The wire codec *)

Section WireRoundTrip.
Context {rlp : RlpCodec} {txHelper : TransactionHelper}.

Lemma prefix_of_append (p s : string) : String.prefix p (p ++ s) = true.
Proof.
  induction p as [|a p IH]; [now destruct s|].
  cbn. destruct (ascii_dec a a); [exact IH | contradiction].
Qed.

(** What [_decode] does with a string that carries the tag. *)
Lemma _decode_tagged (body : string) (tuple : Value) :
  tag_is_one_byte ->
  RLP_decode (String "0" (String "x" body)) = tuple ->
  _decode (TX_TYPE_TAG ++ body) =
    (try! nonce <- trimLeadingZero_value (destructure tuple 0);
     try! gasPrice <- trimLeadingZero_value (destructure tuple 1);
     try! gas <- trimLeadingZero_value (destructure tuple 2);
     Ok {| o_nonce := nonce; o_gasPrice := gasPrice; o_gas := gas;
           o_from := destructure tuple 3;
           o_input := destructure tuple 4;
           o_data := None;
           o_signatures := destructure tuple 5;
           o_feePayer := destructure tuple 6;
           o_feePayerSignatures := destructure tuple 7;
           o_chainId := None |}).
Proof.
  intros (a & b & Htag) Hdecode. unfold _decode.
  assert (Hprefixed : addHexPrefix (TX_TYPE_TAG ++ body) = (TX_TYPE_TAG ++ body)%string)
    by (rewrite Htag; reflexivity).
  rewrite Hprefixed. unfold startsWith. rewrite prefix_of_append. cbn [negb].
  assert (Hslice : slice_from 4 (TX_TYPE_TAG ++ body) = body)
    by (rewrite Htag; reflexivity).
  rewrite Hslice. cbn [append]. rewrite Hdecode. reflexivity.
Qed.

Lemma set_address_field (a : string) :
  prefixed_address a ->
  toLowerCase a = a /\
  set_from (Some (VString a)) = Ok a /\
  set_feePayer (Some (VString a)) = Ok a.
Proof.
  intros (digits & -> & Hlen & Hhex & Hlower).
  assert (Hl : toLowerCase (String "0" (String "x" digits)) = String "0" (String "x" digits))
    by (cbn [toLowerCase]; now rewrite Hlower).
  assert (Hvalid : isAddress (String "0" (String "x" digits)) = true).
  { change (isAddress (String "0" (String "x" digits)))
      with ((String.length digits =? 40)%nat && isHexString digits).
    now rewrite Hlen, Hhex. }
  split; [exact Hl|]. unfold set_from, set_feePayer. rewrite Hvalid, Hl.
  split; [reflexivity|].
  destruct digits as [|c digits]; [discriminate Hlen | reflexivity].
Qed.

Lemma set_input_prefixed (digits : string) :
  isHexString digits = true ->
  set_input (value_or (Some (VString (String "0" (String "x" digits)))) None)
  = Ok (String "0" (String "x" digits)).
Proof.
  intros Hhex. unfold value_or. cbn [truthy set_input negb orb].
  change (isHex (String "0" (String "x" digits))) with (isHexString digits).
  now rewrite Hhex.
Qed.

(** The encoders return for transactions whose optional fields are
    defined, and for no other. *)
Lemma getRLPEncoding_reads_defined_fields (tx : FeeDelegatedChainDataAnchoring) :
  succeeded (getRLPEncoding tx) = true <->
  is_defined (_nonce (base tx)) = true /\
  is_defined (_gasPrice (base tx)) = true /\
  is_defined (_chainId (base tx)) = true.
Proof.
  unfold getRLPEncoding, validateOptionalValues.
  destruct (_gasPrice (base tx)), (_nonce (base tx)), (_chainId (base tx)); cbn;
    split; try discriminate; try (intros (? & ? & ?); discriminate); auto.
Qed.

Lemma optional_quantity_round_trip (n : N) :
  set_optional_quantity
    (Some (VString (trimLeadingZero (Bytes_fromNat (optional_quantity (Some n))))))
  = Ok (Some n).
Proof.
  unfold set_optional_quantity. cbn [optional_quantity].
  now rewrite quantity_round_trip.
Qed.

(** C6 (as amended): for a transaction whose nonce, gas price and
    chain id are defined (any non-negative nonce, gas price and gas,
    zero included), whose [from] and [feePayer] are lower-case
    addresses that carry the [0x] prefix, whose [input] is the prefix
    and hexadecimal digits of whole bytes, with any lists of sender and
    fee payer signatures whose parts are such hex texts as well,
    [getRLPEncoding] returns an encoding and [decode] of it returns the
    transaction with the type and the eight fields of the wire tuple as
    they were and the chain id undefined: the chain id is no part of
    the encoding.  This holds for a one-byte type tag and an RLP
    library that decodes what it encodes for the eight-field tuple.  And two encodings that carry the tag and whose
    tuples differ only in zero bytes in front of the nonce, the gas
    price and the gas decode to the same result: [_decode] strips these
    bytes, it does not refuse them. *)
Theorem decode_getRLPEncoding_round_trip_without_chainId
        (tx : FeeDelegatedChainDataAnchoring) :
  tag_is_one_byte ->
  rlp_round_trips (wire_tuple tx) ->
  valid_transaction tx ->
  _type (base tx) = TX_TYPE_STRING ->
  is_defined (_chainId (base tx)) = true ->
  (exists encoding,
      getRLPEncoding tx = Ok encoding /\
      decode encoding = Ok (without_chainId tx)) /\
  (forall body body' nonce gasPrice gas kn kp kg rest,
      RLP_decode (String "0" (String "x" body))
      = VArray (VString ("0x" ++ nonce) :: VString ("0x" ++ gasPrice)
                :: VString ("0x" ++ gas) :: rest) ->
      RLP_decode (String "0" (String "x" body'))
      = VArray (VString ("0x" ++ zero_bytes kn ++ nonce)
                :: VString ("0x" ++ zero_bytes kp ++ gasPrice)
                :: VString ("0x" ++ zero_bytes kg ++ gas) :: rest) ->
      _decode (TX_TYPE_TAG ++ body') = _decode (TX_TYPE_TAG ++ body) /\
      decode (TX_TYPE_TAG ++ body') = decode (TX_TYPE_TAG ++ body)).
Proof.
  intros Htag [[body Hbody] Hrlp]
         (Hnonce & Hprice & Hfrom & Hfee & (digits & Hinput & Hhex & _) & _ & _)
         Htype Hchain.
  split.
  - destruct (set_address_field _ Hfrom) as (Hfroml & Hsetfrom & _).
    destruct (set_address_field _ Hfee) as (Hfeel & _ & Hsetfee).
    unfold getRLPEncoding, validateOptionalValues.
    destruct (_chainId (base tx)); [|discriminate].
    destruct (_gasPrice (base tx)) as [gasPrice|] eqn:Eprice; [|discriminate].
    destruct (_nonce (base tx)) as [nonce|] eqn:Enonce; [|discriminate].
    cbn [rbind].
    eexists. split; [reflexivity|].
    rewrite Hbody. cbn [slice_from]. unfold decode.
    rewrite (_decode_tagged body (wire_tuple tx) Htag) by (now rewrite <- Hbody).
    unfold wire_tuple. rewrite Eprice, Enonce, Hfroml, Hfeel.
    cbn [destructure nth_error trimLeadingZero_value rbind].
    unfold new_FeeDelegatedChainDataAnchoring, super.
    cbn [o_nonce o_gasPrice o_gas o_from o_input o_data o_signatures o_feePayer
         o_feePayerSignatures o_chainId is_defined andb].
    rewrite !optional_quantity_round_trip, quantity_round_trip, !signatures_round_trip.
    cbn [rbind].
    rewrite Hsetfee. cbn [rbind].
    rewrite Hsetfrom. cbn [rbind].
    rewrite Hinput. cbn [truthy andb].
    rewrite (set_input_prefixed digits Hhex). cbn [rbind].
    unfold without_chainId. now rewrite Htype, Hinput, Eprice, Enonce.
  - intros body0 body' nonce gasPrice gas kn kp kg rest Hmin Hpad.
    assert (E : _decode (TX_TYPE_TAG ++ body') = _decode (TX_TYPE_TAG ++ body0)).
    { rewrite (_decode_tagged body' _ Htag Hpad), (_decode_tagged body0 _ Htag Hmin).
      cbn [destructure nth_error trimLeadingZero_value trimLeadingZero append].
      now rewrite !stripZeroBytes_zero_bytes. }
    split; [exact E|]. unfold decode. now rewrite E.
Qed.
End WireRoundTrip.

(** The round trip at [transaction1] with the eth-lib codec and the
    tag [0x49], and the encoding [body1_padded], whose gas price and gas
    carry zero bytes in front. *)
Lemma decode_getRLPEncoding_round_trip_without_chainId_witness :
  (exists encoding,
      getRLPEncoding (rlp := EthLib.rlp) (txHelper := Example.txHelper)
                     Example.transaction1 = Ok encoding /\
      decode (rlp := EthLib.rlp) (txHelper := Example.txHelper) encoding
      = Ok (without_chainId Example.transaction1)) /\
  decode (rlp := EthLib.rlp) (txHelper := Example.txHelper) ("0x49" ++ Example.body1_padded)
  = decode (rlp := EthLib.rlp) (txHelper := Example.txHelper) ("0x49" ++ Example.body1).
Proof.
  assert (Htag : tag_is_one_byte (txHelper := Example.txHelper))
    by (exists "4"%char, "9"%char; reflexivity).
  assert (Hrlp : rlp_round_trips (rlp := EthLib.rlp)
                   (wire_tuple Example.transaction1)).
  { split; [exists Example.body1|]; vm_compute; reflexivity. }
  assert (Hvalid : valid_transaction Example.transaction1).
  { split; [reflexivity|]. split; [reflexivity|].
    split; [eexists; repeat split; reflexivity|].
    split; [eexists; repeat split; reflexivity|].
    split; [eexists; repeat split; reflexivity|].
    split; repeat constructor; eexists; repeat split; reflexivity. }
  destruct (decode_getRLPEncoding_round_trip_without_chainId
              (rlp := EthLib.rlp) (txHelper := Example.txHelper)
              Example.transaction1 Htag Hrlp Hvalid eq_refl eq_refl) as [Hround Hpad].
  split; [exact Hround|].
  apply (Hpad Example.body1 Example.body1_padded "" "05d21dba00" "012c" 0%nat 2%nat 1%nat
              (match wire_tuple Example.transaction1 with
               | VArray l => skipn 3 l
               | VString _ => []
               end)); vm_compute; reflexivity.
Defined.

(** What [decode] returns for the encoding of [transaction1] is not
    [transaction1]: its chain id is undefined.  And the encoding of a
    transaction that the constructor returns for a [from] without the
    prefix is refused by [decode]: the RLP library takes the first two
    characters of a text for the prefix, so that the sender comes back
    with nineteen bytes. *)
Lemma decode_getRLPEncoding_is_not_the_transaction :
  (getRLPEncoding (rlp := EthLib.rlp) (txHelper := Example.txHelper) Example.transaction1
   = Ok ("0x49" ++ Example.body1)%string /\
   decode (rlp := EthLib.rlp) (txHelper := Example.txHelper) ("0x49" ++ Example.body1)
   = Ok (without_chainId Example.transaction1) /\
   _chainId (base Example.transaction1) = Some (VString "0x1") /\
   _chainId (base (without_chainId Example.transaction1)) = None) /\
  (new_FeeDelegatedChainDataAnchoring (txHelper := Example.txHelper) Samples.object_bare_from
   = Ok Samples.transaction_bare_from /\
   getRLPEncoding (rlp := EthLib.rlp) (txHelper := Example.txHelper)
                  Samples.transaction_bare_from
   = Ok Samples.encoding_bare_from /\
   decode (rlp := EthLib.rlp) (txHelper := Example.txHelper) Samples.encoding_bare_from
   = Throw InvalidFrom).
Proof. vm_compute. repeat split. Qed.

(** The tuple of [transaction1] behind the tag [0x48] of another
    transaction type is refused. *)
Lemma decode_refuses_other_tag_witness :
  decode (rlp := EthLib.rlp) (txHelper := Example.txHelper) ("0x48" ++ Example.body1)
  = Throw TagMismatch.
Proof.
  apply (decode_refuses_other_tag (rlp := EthLib.rlp) (txHelper := Example.txHelper)).
  vm_compute. discriminate.
Defined.

(** Construction from an object with valid fields: refused with both
    [input] and [data], refused with neither, accepted with [data]
    alone. *)
Example construction_examples :
  let object input data :=
    {| o_nonce := Some (VString "0x0"); o_gasPrice := Some (VString "0x5d21dba00");
       o_gas := Some (VString "0x12c"); o_from := Some (VString Example.address1);
       o_input := input; o_data := data; o_signatures := None;
       o_feePayer := Some (VString "0x33f524631e573329a550296f595c820d6c65213f");
       o_feePayerSignatures := None; o_chainId := Some (VString "0x1") |} in
  new_FeeDelegatedChainDataAnchoring (txHelper := Example.txHelper)
    (object (Some (VString "0xf8a6")) (Some (VString "0xf8a6")))
  = Throw InvalidTransactionField /\
  new_FeeDelegatedChainDataAnchoring (txHelper := Example.txHelper) (object None None)
  = Throw InvalidInputData /\
  succeeded (new_FeeDelegatedChainDataAnchoring (txHelper := Example.txHelper)
               (object None (Some (VString "0xf8a6")))) = true.
Proof. vm_compute. repeat split. Qed.

(** * Further properties *)

(** ** What the constructor accepts, and what it returns *)

Lemma extend_role_nil (keys : list (list PrivateKey)) (role : nat) :
  extend_role keys role [] = keys.
Proof.
  revert role. induction keys as [|l keys IH]; intros [|role]; cbn [extend_role];
    try reflexivity; [now rewrite app_nil_r | now rewrite IH].
Qed.

Lemma extend_role_length (keys : list (list PrivateKey)) (role : nat) ks :
  length (extend_role keys role ks) = length keys.
Proof.
  revert role. induction keys as [|l keys IH]; intros [|role]; cbn [extend_role length];
    try reflexivity. now rewrite IH.
Qed.

Lemma push_key_in_range (keys : list (list PrivateKey)) (role : nat) (key : PrivateKey) :
  (role < length keys)%nat -> push_key keys role key = Ok (extend_role keys role [key]).
Proof.
  revert role. induction keys as [|l keys IH]; intros [|role] H; cbn [length] in H;
    try lia; cbn [push_key extend_role]; [reflexivity|].
  rewrite IH by lia. reflexivity.
Qed.

(** [PrivateKey] instances are pushed as they are. *)
Lemma push_keys_instances (keys : list (list PrivateKey)) (role : nat)
      (ks : list PrivateKey) :
  (role < length keys)%nat ->
  push_keys keys role (map KeyObject ks) = Ok (extend_role keys role ks).
Proof.
  revert keys. induction ks as [|k ks IH]; intros keys H; cbn [map push_keys].
  - now rewrite extend_role_nil.
  - cbn [new_PrivateKey rbind]. rewrite push_key_in_range by exact H. cbn [rbind].
    rewrite IH by (now rewrite extend_role_length).
    now rewrite extend_role_twice.
Qed.

Lemma key_strings_are_keys (keys : list PrivateKey) :
  forallb isKey (key_strings keys) = true.
Proof. induction keys as [|k keys IH]; [reflexivity | exact IH]. Qed.

Section ConstructorProperties.
Context {helper : KeyringHelper}.

Lemma push_keys_shape (keys : list (list PrivateKey)) (role : nat)
      (keyToAdd : list KeyValue) keys' :
  push_keys keys role keyToAdd = Ok keys' ->
  exists ks, keys' = extend_role keys role ks /\ length ks = length keyToAdd.
Proof.
  revert keys keys'. induction keyToAdd as [|v keyToAdd IH]; intros keys keys'.
  - cbn. intros [= <-]. exists []. now rewrite extend_role_nil.
  - cbn [push_keys].
    destruct (new_PrivateKey v) as [key|]; [|discriminate]. cbn [rbind].
    destruct (push_key keys role key) as [keys1|] eqn:Epush; [|discriminate]. cbn [rbind].
    intros Hrest. destruct (IH keys1 keys' Hrest) as (ks & -> & Hlen).
    exists (key :: ks). rewrite (push_key_extends _ _ _ _ Epush), extend_role_twice.
    split; [reflexivity | cbn; now rewrite Hlen].
Qed.

Lemma fillRoleKey_shape (keys : list (list PrivateKey)) (role : nat)
      (keyToAdd : option (list KeyValue)) keys' :
  fillRoleKey keys role keyToAdd = Ok keys' ->
  exists ks, keys' = extend_role keys role ks /\ (length ks <= MAXIMUM_KEY_NUM)%nat.
Proof.
  unfold fillRoleKey. destruct keyToAdd as [l|].
  - destruct (Nat.ltb_spec MAXIMUM_KEY_NUM (length l)); [discriminate|].
    destruct (Z.to_nat KEY_ROLE.RoleLast <=? role)%nat; [discriminate|].
    intros Hpush. destruct (push_keys_shape keys role l keys' Hpush) as (ks & -> & Hlen).
    exists ks. split; [reflexivity | lia].
  - intros [= <-]. exists []. rewrite extend_role_nil. split; [reflexivity | cbn; lia].
Qed.

(** The key setter leaves one key list per role, none longer than the
    maximum, whatever the key material is. *)
Lemma formattingForKeyInKeyring_shape (keyInput : KeyInput) keys :
  formattingForKeyInKeyring keyInput = Ok keys ->
  exists k0 k1 k2,
    keys = [k0; k1; k2] /\
    (length k0 <= MAXIMUM_KEY_NUM)%nat /\
    (length k1 <= MAXIMUM_KEY_NUM)%nat /\
    (length k2 <= MAXIMUM_KEY_NUM)%nat.
Proof.
  unfold formattingForKeyInKeyring.
  assert (Hfill : forall ll,
            (try! keys0 <- fillRoleKey generateKeysFormat 0 (nth_error ll 0);
             try! keys1 <- fillRoleKey keys0 1 (nth_error ll 1);
             try! keys2 <- fillRoleKey keys1 2 (nth_error ll 2);
             Ok keys2) = Ok keys ->
            exists k0 k1 k2,
              keys = [k0; k1; k2] /\
              (length k0 <= MAXIMUM_KEY_NUM)%nat /\
              (length k1 <= MAXIMUM_KEY_NUM)%nat /\
              (length k2 <= MAXIMUM_KEY_NUM)%nat).
  { intros ll.
    destruct (fillRoleKey generateKeysFormat 0 (nth_error ll 0)) as [keys0|] eqn:E0;
      [|discriminate]. cbn [rbind].
    destruct (fillRoleKey keys0 1 (nth_error ll 1)) as [keys1|] eqn:E1; [|discriminate].
    cbn [rbind].
    destruct (fillRoleKey keys1 2 (nth_error ll 2)) as [keys2|] eqn:E2; [|discriminate].
    cbn [rbind]. intros [= <-].
    destruct (fillRoleKey_shape _ _ _ _ E0) as (k0 & -> & H0).
    destruct (fillRoleKey_shape _ _ _ _ E1) as (k1 & -> & H1).
    destruct (fillRoleKey_shape _ _ _ _ E2) as (k2 & -> & H2).
    exists k0, k1, k2. repeat split; assumption. }
  destruct keyInput as [v | l | ll].
  - destruct v; try discriminate; cbn [rbind]; apply Hfill.
  - destruct (isMultipleKeysFormat (ArrayInput l)); [|discriminate].
    cbn [rbind]. apply Hfill.
  - destruct (isMultipleKeysFormat (NestedInput ll)).
    + cbn [rbind]. apply Hfill.
    + destruct (isRoleBasedKeysFormat (NestedInput ll)); [|discriminate].
      cbn [negb rbind]. apply Hfill.
Qed.

(** What the two setters leave in a keyring that the constructor
    returns. *)
Lemma new_Keyring_shape (address : string) (keys : KeyInput) (this : Keyring) :
  new_Keyring address keys = Ok this ->
  isAddress address = true /\
  _address this = toLowerCase (addHexPrefix address) /\
  keyring_shape this.
Proof.
  unfold new_Keyring, set_address.
  destruct (isAddress address); [|discriminate]. cbn [negb rbind].
  destruct (formattingForKeyInKeyring keys) as [ks|] eqn:Ek; [|discriminate]. cbn [rbind].
  intros [= <-].
  destruct (formattingForKeyInKeyring_shape keys ks Ek) as (k0 & k1 & k2 & -> & H0 & H1 & H2).
  split; [reflexivity|]. split; [reflexivity|].
  unfold keyring_shape. cbn [_address _keys].
  split; [reflexivity|]. split; [repeat constructor; assumption|].
  apply toLowerCase_idempotent.
Qed.


(** X2: the limit on the keys of a role: an array of more than
    [MAXIMUM_KEY_NUM] keys is refused before any of its keys is looked
    at, and an array of up to that many private key strings makes the
    keyring that holds them in the TransactionKey role. *)
Theorem constructor_key_count_limit (address : string) :
  isAddress address = true ->
  (forall l : list KeyValue,
      forallb isKey l = true ->
      (MAXIMUM_KEY_NUM < length l)%nat ->
      new_Keyring address (ArrayInput l) = Throw TooManyKeys) /\
  (forall keys : list PrivateKey,
      Forall well_formed_key keys ->
      (length keys <= MAXIMUM_KEY_NUM)%nat ->
      new_Keyring address (ArrayInput (key_strings keys))
      = Ok {| _address := toLowerCase (addHexPrefix address);
              _keys := [keys; []; []] |}).
Proof.
  intros Ha. split.
  - intros l Hl Hlen. unfold new_Keyring, set_address. rewrite Ha. cbn [negb rbind].
    unfold formattingForKeyInKeyring. cbn [isMultipleKeysFormat]. rewrite Hl.
    cbn [rbind nth_error]. unfold fillRoleKey at 1.
    destruct (Nat.ltb_spec MAXIMUM_KEY_NUM (length l)); [reflexivity | lia].
  - intros keys Hwf Hlen. unfold new_Keyring, set_address. rewrite Ha. cbn [negb rbind].
    unfold formattingForKeyInKeyring. cbn [isMultipleKeysFormat].
    rewrite key_strings_are_keys. cbn [rbind nth_error].
    unfold generateKeysFormat. change (Z.to_nat KEY_ROLE.RoleLast) with 3%nat.
    cbn [repeat].
    rewrite fillRoleKey_within_maximum, push_keys_role0 by (assumption || lia).
    cbn [rbind app].
    change (@nil KeyValue) with (key_strings []).
    rewrite fillRoleKey_within_maximum, push_keys_role1 by (constructor || cbn; lia).
    cbn [rbind app].
    rewrite fillRoleKey_within_maximum, push_keys_role2 by (constructor || cbn; lia).
    reflexivity.
Qed.

(** X3: [copy()] of a keyring that satisfies the invariant returns an equal
    keyring. *)
Theorem copy_returns_equal_keyring (this : Keyring) :
  keyring_invariant this -> copy this = Ok this.
Proof.
  intros (Haddr & Hcanon & _ & Hlen & Hroles).
  destruct this as [address keys]. cbn [_address _keys] in *.
  destruct keys as [|k0 [|k1 [|k2 [|]]]]; try discriminate.
  inversion Hroles as [|? ? [M0 _] H1]; subst.
  inversion H1 as [|? ? [M1 _] H2]; subst.
  inversion H2 as [|? ? [M2 _] _]; subst.
  unfold copy, new_Keyring, set_address. cbn [_address _keys].
  rewrite Haddr, Hcanon. cbn [negb rbind].
  unfold formattingForKeyInKeyring.
  cbn [map isMultipleKeysFormat isRoleBasedKeysFormat length].
  change (Z.to_nat KEY_ROLE.RoleLast) with 3%nat. cbn [Nat.leb negb rbind nth_error].
  unfold generateKeysFormat. change (Z.to_nat KEY_ROLE.RoleLast) with 3%nat.
  cbn [repeat]. unfold fillRoleKey. rewrite !length_map.
  change (Z.to_nat KEY_ROLE.RoleLast) with 3%nat.
  destruct (Nat.ltb_spec MAXIMUM_KEY_NUM (length k0)); [lia|].
  destruct (Nat.ltb_spec MAXIMUM_KEY_NUM (length k1)); [lia|].
  destruct (Nat.ltb_spec MAXIMUM_KEY_NUM (length k2)); [lia|].
  cbn [Nat.leb].
  rewrite push_keys_instances by (cbn; lia). cbn [rbind extend_role app].
  rewrite push_keys_instances by (cbn; lia). cbn [rbind extend_role app].
  rewrite push_keys_instances by (cbn; lia). cbn [rbind extend_role app].
  reflexivity.
Qed.

End ConstructorProperties.

Lemma example_single_keyring_invariant :
  keyring_invariant (helper := Example.helper) Example.single_keyring.
Proof. repeat split; cbn; repeat constructor. Qed.

Lemma example_empty_keyring_invariant :
  keyring_invariant (helper := Example.helper) Example.empty_keyring.
Proof. repeat split; cbn; repeat constructor. Qed.


(** Eleven keys where ten are the maximum, and two keys. *)
Lemma constructor_key_count_limit_witness :
  new_Keyring (helper := Example.helper) Example.address1
              (ArrayInput (repeat (KeyString "not a key") 11)) = Throw TooManyKeys /\
  new_Keyring (helper := Example.helper) Example.address1
              (ArrayInput (key_strings [Example.key1; Example.key2]))
  = Ok Example.multisig_keyring.
Proof.
  destruct (constructor_key_count_limit (helper := Example.helper) Example.address1 eq_refl)
    as [Hmany Hfew].
  split.
  - apply Hmany; [reflexivity | cbn; lia].
  - apply (Hfew [Example.key1; Example.key2]); [repeat constructor | cbn; lia].
Defined.

Lemma copy_returns_equal_keyring_witness :
  copy (helper := Example.helper) Example.role_based_keyring = Ok Example.role_based_keyring.
Proof.
  apply (copy_returns_equal_keyring (helper := Example.helper)).
  exact example_keyring_invariant.
Defined.

(** ** Signing with every key of a role *)

Section SignWithKeysProperties.
Context {helper : KeyringHelper} {prim : KeyPrimitives}.

(** The loop of [signWithKeys] from a list of signatures already made. *)
Lemma sign_loop_Throw (hash chainId : string) (keys : list PrivateKey) (e : Error) :
  fold_left
    (fun signatures key =>
       try! signatures <- signatures;
       try! s <- key_sign key hash chainId;
       Ok (signatures ++ [s]))
    keys (Throw e) = Throw e.
Proof. induction keys as [|key keys IH]; [reflexivity | exact IH]. Qed.

Lemma sign_loop_Ok (hash chainId : string) (keys : list PrivateKey)
      (done sigs : list Signature) :
  fold_left
    (fun signatures key =>
       try! signatures <- signatures;
       try! s <- key_sign key hash chainId;
       Ok (signatures ++ [s]))
    keys (Ok done) = Ok sigs
  <-> exists rest, sigs = done ++ rest /\
                   Forall2 (fun key s => key_sign key hash chainId = Ok s) keys rest.
Proof.
  set (f := fun signatures key =>
              try! signatures <- signatures;
              try! s <- key_sign key hash chainId;
              Ok (signatures ++ [s])).
  revert done sigs. induction keys as [|key keys IH]; intros done sigs; cbn [fold_left].
  - split.
    + intros [= <-]. exists []. split; [now rewrite app_nil_r | constructor].
    + intros (rest & -> & H). inversion H. now rewrite app_nil_r.
  - assert (Hf : f (Ok done) key
                 = match key_sign key hash chainId with
                   | Ok s => Ok (done ++ [s])
                   | Throw e => Throw e
                   end) by reflexivity.
    rewrite Hf. clear Hf.
    destruct (key_sign key hash chainId) as [s|e] eqn:Hs.
    + split.
      * intros H. apply IH in H. destruct H as (rest & -> & H). exists (s :: rest).
        split; [now rewrite <- app_assoc | now constructor].
      * intros (rest & -> & H). inversion H as [|? s' ? rest' Hs' H']; subst.
        rewrite Hs in Hs'. injection Hs' as <-.
        apply IH. exists rest'. split; [now rewrite <- app_assoc | exact H'].
    + subst f. rewrite sign_loop_Throw. split; [discriminate|].
      intros (rest & _ & H). inversion H as [|? s' ? rest' Hs' H']; subst.
      rewrite Hs in Hs'. discriminate.
Qed.

Lemma signWithKeys_resolved (this : Keyring) (hash : string) (chainId : ChainId)
      (role : Z) (keys : list PrivateKey) (sigs : list Signature) :
  isValidHashStrict hash = true ->
  getKeyByRole this (Some role) = Ok keys ->
  signWithKeys this hash (Some chainId) (Some role) = Ok sigs
  <-> Forall2 (fun key s => key_sign key hash (toHex chainId) = Ok s) keys sigs.
Proof.
  intros Hhash Hkeys. unfold signWithKeys. rewrite Hhash, Hkeys. cbn [negb rbind].
  split.
  - intros H. apply sign_loop_Ok in H. destruct H as (rest & -> & H). exact H.
  - intros H. apply sign_loop_Ok. now exists sigs.
Qed.

(** X4: [signWithKeys] succeeds exactly when every key of the resolved
    role signs, and then returns the signatures in the order of the
    keys: the one at position [i] is what [signWithKey] returns for the
    index [i]. *)
Theorem signWithKeys_signs_with_every_key
        (this : Keyring) (hash : string) (chainId : ChainId) (role : Z)
        (keys : list PrivateKey) :
  isValidHashStrict hash = true ->
  getKeyByRole this (Some role) = Ok keys ->
  (forall sigs,
      signWithKeys this hash (Some chainId) (Some role) = Ok sigs
      <-> Forall2 (fun key s => key_sign key hash (toHex chainId) = Ok s) keys sigs) /\
  (forall sigs,
      signWithKeys this hash (Some chainId) (Some role) = Ok sigs ->
      length sigs = length keys /\
      forall (i : nat) s,
        nth_error sigs i = Some s ->
        signWithKey this hash (Some chainId) (Some role) (IndexNumber (Z.of_nat i)) = Ok s) /\
  (forall before key after done e,
      keys = before ++ key :: after ->
      Forall2 (fun key s => key_sign key hash (toHex chainId) = Ok s) before done ->
      key_sign key hash (toHex chainId) = Throw e ->
      signWithKeys this hash (Some chainId) (Some role) = Throw e).
Proof.
  intros Hhash Hkeys. split; [|split].
  - intros sigs. now apply signWithKeys_resolved.
  - intros sigs H. apply (signWithKeys_resolved this hash chainId role keys sigs Hhash Hkeys) in H.
    split; [symmetry; eapply Forall2_length; exact H|].
    intros i s Hi.
    rewrite (signWithKey_resolved this hash chainId role keys (Z.of_nat i) Hhash Hkeys).
    assert (Hlt : (i < length sigs)%nat) by (apply nth_error_Some; congruence).
    pose proof (Forall2_length H) as Hlen.
    destruct (Z.ltb_spec (Z.of_nat i) 0) as [Hneg|_]; [lia|].
    destruct (Z.geb_spec (Z.of_nat i) (Z.of_nat (length keys))) as [Hge|_]; [lia|].
    unfold at_index. destruct (Z.ltb_spec (Z.of_nat i) 0) as [Hneg|_]; [lia|].
    rewrite Nat2Z.id.
    clear Hlt Hlen Hkeys. revert i Hi. induction H as [|key s' keys sigs Hs H IH]; intros i Hi.
    + destruct i; discriminate.
    + destruct i as [|i]; cbn [nth_error] in *; [injection Hi as <-; exact Hs | now apply IH].
  - intros before key after done e -> Hbefore Hkey.
    unfold signWithKeys. rewrite Hhash, Hkeys. cbn [negb rbind].
    rewrite fold_left_app.
    assert (Hdone : fold_left
              (fun signatures key0 =>
                 try! signatures <- signatures;
                 try! s <- key_sign key0 hash (toHex chainId);
                 Ok (signatures ++ [s])) before (Ok []) = Ok done).
    { apply sign_loop_Ok. now exists done. }
    rewrite Hdone. cbn [fold_left rbind]. rewrite Hkey. apply sign_loop_Throw.
Qed.

End SignWithKeysProperties.

(** The FeePayerKey role of a keyring with two TransactionKey keys
    resolves to these. *)
Lemma signWithKeys_signs_with_every_key_witness :
  signWithKeys (prim := Example.prim) Example.multisig_keyring Example.digest1
               (Some 1001%Z) (Some KEY_ROLE.RoleFeePayerKey)
  = Ok [ {| sig_v := "0x3e9"; sig_r := Example.digest1; sig_s := privateKey Example.key1 |};
         {| sig_v := "0x3e9"; sig_r := Example.digest1; sig_s := privateKey Example.key2 |} ] /\
  signWithKey (prim := Example.prim) Example.multisig_keyring Example.digest1
              (Some 1001%Z) (Some KEY_ROLE.RoleFeePayerKey) (IndexNumber 1)
  = Ok {| sig_v := "0x3e9"; sig_r := Example.digest1; sig_s := privateKey Example.key2 |}.
Proof.
  destruct (signWithKeys_signs_with_every_key
              (prim := Example.prim) Example.multisig_keyring Example.digest1 1001%Z
              KEY_ROLE.RoleFeePayerKey [Example.key1; Example.key2] eq_refl eq_refl)
    as (Hall & Hnth & _).
  assert (Hsigs : signWithKeys (prim := Example.prim) Example.multisig_keyring
                    Example.digest1 (Some 1001%Z) (Some KEY_ROLE.RoleFeePayerKey)
                  = Ok [ {| sig_v := "0x3e9"; sig_r := Example.digest1;
                            sig_s := privateKey Example.key1 |};
                         {| sig_v := "0x3e9"; sig_r := Example.digest1;
                            sig_s := privateKey Example.key2 |} ]).
  { apply Hall. constructor; [reflexivity|]. constructor; [reflexivity | constructor]. }
  split; [exact Hsigs|].
  exact (proj2 (Hnth _ Hsigs) 1%nat _ eq_refl).
Defined.

Section SigningEdges.
Context {helper : KeyringHelper} {prim : KeyPrimitives}.

(** X5: signing with the TransactionKey role of a keyring that holds no key
    in it: [signWithKeys] returns the empty list of signatures without
    an error, where [signWithKey] refuses every index. *)
Theorem signWithKeys_empty_TransactionKey
        (this : Keyring) (hash : string) (chainId : ChainId) :
  isValidHashStrict hash = true ->
  at_index (_keys this) KEY_ROLE.RoleTransactionKey = Some [] ->
  signWithKeys this hash (Some chainId) (Some KEY_ROLE.RoleTransactionKey) = Ok [] /\
  signWithKey this hash (Some chainId) (Some KEY_ROLE.RoleTransactionKey) IndexOmitted
  = Throw IndexOutOfRange /\
  (forall i, (0 <= i)%Z ->
     signWithKey this hash (Some chainId) (Some KEY_ROLE.RoleTransactionKey) (IndexNumber i)
     = Throw IndexOutOfRange).
Proof.
  intros Hhash Hkeys.
  assert (Hrole : getKeyByRole this (Some KEY_ROLE.RoleTransactionKey) = Ok []).
  { unfold getKeyByRole. rewrite Hkeys. reflexivity. }
  split; [|split].
  - unfold signWithKeys. rewrite Hhash, Hrole. reflexivity.
  - unfold signWithKey. rewrite Hhash, Hrole. reflexivity.
  - intros i Hi.
    rewrite (signWithKey_resolved this hash chainId _ [] i Hhash Hrole).
    destruct (Z.ltb_spec i 0); [lia|].
    destruct (Z.geb_spec i (Z.of_nat (@length PrivateKey []))); [reflexivity|].
    cbn [length] in *. lia.
Qed.

(** X6: a role number outside the three roles is not refused by a check of
    its own: the read of the missing key list raises the runtime's
    TypeError, in [getKeyByRole] and in both signing functions. *)
Theorem role_out_of_range_raises_TypeError
        (this : Keyring) (hash : string) (chainId : ChainId) (role : Z) (index : IndexArg) :
  length (_keys this) = Z.to_nat KEY_ROLE.RoleLast ->
  (role < 0 \/ KEY_ROLE.RoleLast <= role)%Z ->
  getKeyByRole this (Some role) = Throw TypeError /\
  (isValidHashStrict hash = true ->
   signWithKey this hash (Some chainId) (Some role) index = Throw TypeError /\
   signWithKeys this hash (Some chainId) (Some role) = Throw TypeError).
Proof.
  intros Hlen Hrole.
  assert (Hget : getKeyByRole this (Some role) = Throw TypeError).
  { unfold getKeyByRole, at_index.
    destruct (Z.ltb_spec role 0) as [_|Hpos]; [reflexivity|].
    assert (Hnone : nth_error (_keys this) (Z.to_nat role) = None).
    { apply nth_error_None. rewrite Hlen. unfold KEY_ROLE.RoleLast in *. lia. }
    now rewrite Hnone. }
  split; [exact Hget|]. intros Hhash. split.
  - unfold signWithKey. rewrite Hhash, Hget. reflexivity.
  - unfold signWithKeys. rewrite Hhash, Hget. reflexivity.
Qed.

End SigningEdges.

Lemma signWithKeys_empty_TransactionKey_witness :
  signWithKeys (prim := Example.prim) Example.update_only_keyring Example.digest1
               (Some 1001%Z) (Some KEY_ROLE.RoleTransactionKey) = Ok [] /\
  signWithKey (prim := Example.prim) Example.update_only_keyring Example.digest1
              (Some 1001%Z) (Some KEY_ROLE.RoleTransactionKey) IndexOmitted
  = Throw IndexOutOfRange.
Proof.
  destruct (signWithKeys_empty_TransactionKey
              (prim := Example.prim) Example.update_only_keyring Example.digest1 1001%Z
              eq_refl eq_refl) as (Hall & Hone & _).
  split; [exact Hall | exact Hone].
Defined.

Lemma role_out_of_range_raises_TypeError_witness :
  getKeyByRole Example.role_based_keyring (Some 3%Z) = Throw TypeError /\
  signWithKeys (prim := Example.prim) Example.role_based_keyring Example.digest1
               (Some 1001%Z) (Some 3%Z) = Throw TypeError.
Proof.
  destruct (role_out_of_range_raises_TypeError
              (prim := Example.prim) Example.role_based_keyring Example.digest1 1001%Z
              3%Z IndexOmitted eq_refl
              ltac:(right; unfold KEY_ROLE.RoleLast; lia)) as [Hget Hsign].
  split; [exact Hget | exact (proj2 (Hsign eq_refl))].
Defined.

(** ** Signing a message *)

Section MessageProperties.
Context {prim : KeyPrimitives} {messages : MessagePrimitives}.

(** X7: with a role and an index, [signMessage] resolves the role as
    [getKeyByRole] does and signs with the key at the index; an index
    from the length of the list on is refused, and a negative index,
    for which there is no check, ends in the runtime's TypeError. *)
Theorem signMessage_resolves_role_and_index
        (this : Keyring) (message : string) (role : Z) :
  match getKeyByRole this (Some role) with
  | Throw e =>
      forall index, signMessage this message (Some role) (Some index) = Failed (Raised e)
  | Ok keys =>
      (forall i, (Z.of_nat (length keys) <= i)%Z ->
         signMessage this message (Some role) (Some i) = Failed (Raised IndexOutOfRange)) /\
      (forall i, (i < 0)%Z ->
         signMessage this message (Some role) (Some i) = Failed (Raised TypeError)) /\
      (forall i, (0 <= i < Z.of_nat (length keys))%Z ->
         exists key,
           nth_error keys (Z.to_nat i) = Some key /\
           signMessage this message (Some role) (Some i) = signed_with key message)
  end.
Proof.
  destruct (getKeyByRole this (Some role)) as [keys|e] eqn:Hkeys.
  - split; [|split]; intros i Hi; unfold signMessage; cbn [obind]; rewrite Hkeys;
      cbn [of_result obind].
    + destruct (Z.geb_spec i (Z.of_nat (length keys))); [reflexivity | lia].
    + destruct (Z.geb_spec i (Z.of_nat (length keys))); [lia|].
      unfold at_index. destruct (Z.ltb_spec i 0); [reflexivity | lia].
    + destruct (Z.geb_spec i (Z.of_nat (length keys))); [lia|].
      destruct (at_index_in_range keys i Hi) as (key & Hnth & Hat).
      exists key. split; [exact Hnth|]. rewrite Hat. reflexivity.
  - intros index. unfold signMessage. cbn [obind]. rewrite Hkeys. reflexivity.
Qed.

(** X8: without role and index, [signMessage] signs with the first key of
    the TransactionKey role, as it does for role 0 and index 0; when
    that role holds no key the two calls fail with different errors.
    With only one of role and index the call is refused. *)
Theorem signMessage_default_key (this : Keyring) (message : string) :
  (forall key rest,
      at_index (_keys this) KEY_ROLE.RoleTransactionKey = Some (key :: rest) ->
      signMessage this message None None = signed_with key message /\
      signMessage this message (Some 0%Z) (Some 0%Z) = signed_with key message) /\
  (at_index (_keys this) KEY_ROLE.RoleTransactionKey = Some [] ->
   signMessage this message None None = Failed DefaultKeyEmpty /\
   signMessage this message (Some 0%Z) (Some 0%Z) = Failed (Raised IndexOutOfRange)) /\
  (forall role, signMessage this message (Some role) None = Failed RoleAndIndexNeeded) /\
  (forall index, signMessage this message None (Some index) = Failed RoleAndIndexNeeded).
Proof.
  split; [|split; [|split]].
  - intros key rest Hkeys.
    assert (Hrole : getKeyByRole this (Some 0%Z) = Ok (key :: rest)).
    { unfold getKeyByRole. change KEY_ROLE.RoleTransactionKey with 0%Z in Hkeys.
      rewrite Hkeys. reflexivity. }
    unfold signMessage. rewrite Hkeys. cbn [length Nat.eqb obind].
    change KEY_ROLE.RoleTransactionKey with 0%Z. rewrite Hrole. split; reflexivity.
  - intros Hkeys.
    assert (Hrole : getKeyByRole this (Some 0%Z) = Ok []).
    { unfold getKeyByRole. change KEY_ROLE.RoleTransactionKey with 0%Z in Hkeys.
      rewrite Hkeys. reflexivity. }
    unfold signMessage. rewrite Hkeys. cbn [length Nat.eqb obind].
    rewrite Hrole. split; reflexivity.
  - reflexivity.
  - reflexivity.
Qed.

End MessageProperties.

Example signMessage_examples :
  signMessage (messages := Samples.messages) Example.update_only_keyring "hello"
              (Some KEY_ROLE.RoleAccountUpdateKey) (Some 0%Z)
  = Returned {| sm_messageHash := "hashed:hello";
                sm_signature := {| sig_v := "0x1b"; sig_r := "hashed:hello";
                                   sig_s := privateKey Example.key2 |};
                sm_message := "hello" |} /\
  signMessage (messages := Samples.messages) Example.update_only_keyring "hello" None None
  = Failed DefaultKeyEmpty /\
  signMessage (messages := Samples.messages) Example.single_keyring "hello"
              (Some 0%Z) (Some (-1)%Z)
  = Failed (Raised TypeError).
Proof. vm_compute. repeat split; reflexivity. Qed.

(** ** The KlaytnWalletKey of a keyring *)

Lemma string_length_append (a b : string) :
  String.length (a ++ b) = (String.length a + String.length b)%nat.
Proof. induction a as [|c a IH]; cbn; [reflexivity | now rewrite IH]. Qed.

Lemma substring_of_prefix (a b : string) :
  substring 0 (String.length a) (a ++ b) = a.
Proof.
  induction a as [|x a IH]; cbn.
  - now destruct b.
  - now rewrite IH.
Qed.

Lemma slice_from_append (a b : string) : slice_from (String.length a) (a ++ b) = b.
Proof. induction a as [|x a IH]; cbn; [now destruct b | exact IH]. Qed.

(** An address as the [address] setter stores it carries its prefix. *)
Lemma stored_address_prefixed (a : string) :
  isAddress a = true -> toLowerCase (addHexPrefix a) = a ->
  addHexPrefix a = a /\ String.length a = 42%nat.
Proof.
  intros Ha Hcanon.
  destruct (hex_prefix_cases a) as [[h ->] | [[h ->] | [Hno Hadd]]].
  - split; [reflexivity|].
    unfold isAddress in Ha. apply andb_true_iff in Ha as [Hlen _].
    apply Nat.eqb_eq in Hlen.
    change (stripHexPrefix (String "0" (String "x" h))) with h in Hlen.
    cbn [String.length]. now rewrite Hlen.
  - discriminate Hcanon.
  - rewrite Hadd in Hcanon. rewrite <- Hcanon in Hno. discriminate Hno.
Qed.

Section WalletKeyProperties.
Context {helper : KeyringHelper} {crypto : Crypto}
        {prim : KeyPrimitives} {messages : MessagePrimitives}.

(** X9: for a keyring that satisfies the invariant, [getKlaytnWalletKey]
    returns exactly when the keyring holds one key, in the
    TransactionKey role: the private key, the four characters [0x00]
    and the address, 112 characters of which the first 66 are the key
    and the last 42 the address.  A keyring with more keys is refused,
    and the read of the missing key of a keyring without keys raises the
    runtime's TypeError. *)
Theorem getKlaytnWalletKey_of_single_key (this : Keyring) k0 k1 k2 :
  keyring_invariant this ->
  _keys this = [k0; k1; k2] ->
  match k0, k1, k2 with
  | [key], [], [] =>
      let walletKey := (privateKey key ++ "0x00" ++ _address this)%string in
      getKlaytnWalletKey this = Returned walletKey /\
      String.length walletKey = 112%nat /\
      substring 0 66 walletKey = privateKey key /\
      slice_from 70 walletKey = _address this
  | [], [], [] => getKlaytnWalletKey this = Failed (Raised TypeError)
  | _, _, _ => getKlaytnWalletKey this = Failed WalletKeyNotAvailable
  end.
Proof.
  intros (Haddr & Hcanon & _ & _ & Hroles) Hkeys.
  destruct (stored_address_prefixed _ Haddr Hcanon) as [Hprefix Hlen42].
  unfold getKlaytnWalletKey. rewrite Hkeys.
  destruct k0 as [|key [|key' k0]].
  - destruct k1; [destruct k2|]; reflexivity.
  - destruct k1; [destruct k2|]; try reflexivity.
    cbn [at_index KEY_ROLE.RoleTransactionKey KEY_ROLE.RoleAccountUpdateKey
         KEY_ROLE.RoleFeePayerKey Z.ltb Z.compare Z.to_nat Pos.to_nat Pos.iter_op
         Nat.add nth_error length Nat.ltb Nat.leb fold_left obind].
    rewrite Hprefix.
    assert (Hkey : well_formed_key key).
    { rewrite Hkeys in Hroles. inversion Hroles as [|? ? [_ Hk0] _]; subst.
      now inversion Hk0. }
    assert (Hlen66 : String.length (privateKey key) = 66%nat).
    { unfold privateKey. cbn [append String.length]. rewrite toString_hex_length, Hkey.
      reflexivity. }
    assert (Hpk : addHexPrefix (privateKey key) = privateKey key) by reflexivity.
    rewrite Hpk. cbv zeta.
    split; [reflexivity|]. split; [|split].
    + rewrite !string_length_append, Hlen66, Hlen42. reflexivity.
    + rewrite <- Hlen66. apply substring_of_prefix.
    + change 70%nat with (66 + 4)%nat. rewrite <- Hlen66.
      change (privateKey key ++ "0x00" ++ _address this)%string
        with (privateKey key ++ ("0x00" ++ _address this))%string.
      assert (Hsplit : forall a b, slice_from (String.length a + 4) (a ++ "0x00" ++ b) = b).
      { intros a b. induction a as [|x a IH]; [reflexivity | exact IH]. }
      apply Hsplit.
  - destruct k1; [destruct k2|]; reflexivity.
Qed.

End WalletKeyProperties.

Lemma getKlaytnWalletKey_of_single_key_witness :
  getKlaytnWalletKey Example.single_keyring = Returned Samples.wallet_key1 /\
  String.length Samples.wallet_key1 = 112%nat /\
  substring 0 66 Samples.wallet_key1 = privateKey Example.key1 /\
  slice_from 70 Samples.wallet_key1 = Example.address1.
Proof.
  exact (getKlaytnWalletKey_of_single_key
           (helper := Example.helper) Example.single_keyring [Example.key1] [] []
           example_single_keyring_invariant eq_refl).
Defined.

Section WalletKeyGuard.
Context {helper : KeyringHelper} {crypto : Crypto}
        {prim : KeyPrimitives} {messages : MessagePrimitives}.

(** The errors of [encryptKey]: those of the backend, and the two of
    its own. *)
Lemma encryptKey_step_errors (password : string) (options : Options) (key : PrivateKey)
      w e w' :
  encryptKey_step password options key w = (Throw e, w') ->
  e = BackendError \/ e = UnsupportedKdf \/ e = UnsupportedCipher.
Proof.
  unfold encryptKey_step.
  destruct (buffer_or_random_returns (opt_salt options) 32 w) as (salt & w1 & E1 & _).
  rewrite (bind_Ok _ _ _ _ _ E1).
  destruct (buffer_or_random_returns (opt_iv options) 16 w1) as (iv & w2 & E2 & _).
  rewrite (bind_Ok _ _ _ _ _ E2).
  unfold bind at 1.
  match goal with
  | |- context [match ?m w2 with _ => _ end] =>
      destruct (m w2) as [[[params derivedKey]|e0] w3] eqn:Ekdf
  end.
  - unfold bind at 1. unfold encipher, bind, lift, emit, throw, of_backend.
    destruct (createCipheriv _ _ _) as [[run|]|].
    + destruct (run _); [discriminate|]. intros [= <- _]. auto.
    + intros [= <- _]. auto.
    + intros [= <- _]. auto.
  - intros [= <- _].
    destruct (String.eqb _ "pbkdf2").
    + unfold bind, lift, ret, of_backend in Ekdf.
      destruct (pbkdf2Sync _ _ _ _ _); [discriminate|]. injection Ekdf as <- _. auto.
    + destruct (String.eqb _ "scrypt").
      * unfold bind, lift, ret, of_backend in Ekdf.
        destruct (scrypt _ _ _ _ _ _); [discriminate|]. injection Ekdf as <- _. auto.
      * injection Ekdf as <- _. auto.
Qed.

Lemma for_each_errors {A B} (f : A -> M B) (P : Error -> Prop) (l : list A) w e w' :
  (forall x w0 e0 w1, f x w0 = (Throw e0, w1) -> P e0) ->
  for_each f l w = (Throw e, w') -> P e.
Proof.
  intros Hf. revert w w'. induction l as [|x l IH]; intros w w'; cbn [for_each].
  - discriminate.
  - unfold bind at 1. destruct (f x w) as [[y|e0] w0] eqn:Ey.
    + unfold bind at 1. destruct (for_each f l w0) as [[ys|e1] w1] eqn:El.
      * discriminate.
      * intros [= <- <-]. eapply IH. exact El.
    + intros [= <- <-]. eapply Hf. exact Ey.
Qed.

Lemma encryptKey_errors (privateKey : KeyArg) (password : string) (options : Options)
      w e w' :
  encryptKey privateKey password options w = (Throw e, w') ->
  e = BackendError \/ e = UnsupportedKdf \/ e = UnsupportedCipher.
Proof.
  destruct privateKey as [|k|l]; cbn [encryptKey].
  - discriminate.
  - apply (for_each_errors _ (fun e => e = BackendError \/ e = UnsupportedKdf
                                       \/ e = UnsupportedCipher)).
    apply encryptKey_step_errors.
  - apply (for_each_errors _ (fun e => e = BackendError \/ e = UnsupportedKdf
                                       \/ e = UnsupportedCipher)).
    apply encryptKey_step_errors.
Qed.

(** X10: [getKlaytnWalletKey] and [encryptV3] refuse the same keyrings as
    not available in their format: those with more than one key in the
    TransactionKey role or with a key in another role. *)
Theorem wallet_key_and_keystore_v3_refuse_the_same_keyrings
        (this : Keyring) (password : string) (options : Options) (w : World) :
  getKlaytnWalletKey this = Failed WalletKeyNotAvailable
  <-> fst (encryptV3 this password options w) = Throw KeystoreV3NotAvailable.
Proof.
  assert (Hrest : forall txKey,
             fst (bind (encryptKey (match at_index txKey 0 with
                                    | Some k => ArgKey k
                                    | None => ArgUndefined
                                    end) password options)
                       (fun c => formatEncrypted 3 (_address this) (crypto_array c) options)
                       w)
             <> Throw KeystoreV3NotAvailable).
  { intros txKey. unfold bind at 1.
    destruct (encryptKey _ password options w) as [[c|e] w1] eqn:Ec.
    - unfold formatEncrypted.
      destruct (buffer_or_random_returns (opt_uuid options) 16 w1) as (b & w2 & E & _).
      rewrite (bind_Ok _ _ _ _ _ E). cbn. discriminate.
    - cbn [fst]. intros [= ->].
      destruct (encryptKey_errors _ _ _ _ _ _ Ec) as [H | [H | H]]; discriminate. }
  unfold getKlaytnWalletKey, encryptV3.
  destruct (at_index (_keys this) KEY_ROLE.RoleTransactionKey) as [txKey|];
    [|split; discriminate].
  destruct (1 <? length txKey)%nat; [split; reflexivity|].
  cbn [fold_left for_each obind].
  unfold bind at 1. unfold bind at 1.
  destruct (at_index (_keys this) KEY_ROLE.RoleAccountUpdateKey) as [k1|];
    [|split; discriminate].
  destruct (0 <? length k1)%nat; [split; reflexivity|].
  cbn [ret obind]. unfold bind at 1. unfold bind at 1.
  destruct (at_index (_keys this) KEY_ROLE.RoleFeePayerKey) as [k2|];
    [|split; discriminate].
  destruct (0 <? length k2)%nat; [split; reflexivity|].
  cbn [ret obind]. specialize (Hrest txKey).
  split.
  - destruct (at_index txKey 0); discriminate.
  - intros H. contradiction.
Qed.

End WalletKeyGuard.

(** ** The account of a keyring *)

Section AccountProperties.
Context {prim : KeyPrimitives} {messages : MessagePrimitives} {accounts : AccountBackend}.

Lemma toAccount_role_based (this : Keyring) k0 k1 k2 (options : option AccountOptions) :
  _keys this = [k0; k1; k2] ->
  k1 <> [] \/ k2 <> [] ->
  toAccount this options =
    if is_object options
       && negb (match options with Some (OptionsArray _) => true | _ => false end)
    then Failed OptionsNotArray
    else
      attempt! filled <-
        of_result (of_backend (fillWeightedMultiSigOptionsForRoleBased
                                 [length k0; length k1; length k2] options));
      of_result (of_backend
                   (createWithAccountKeyRoleBased
                      (_address this)
                      [map key_getPublicKey k0; map key_getPublicKey k1;
                       map key_getPublicKey k2] filled)).
Proof.
  intros Hkeys Hrole. unfold toAccount, role_holds_key, getPublicKey. rewrite Hkeys.
  assert (Hne : isEmptyKey [k0; k1; k2] = false).
  { cbn. destruct Hrole as [H | H]; [destruct k1 | destruct k2]; try contradiction;
      cbn; now rewrite ?andb_false_r. }
  rewrite Hne.
  change (at_index [k0; k1; k2] (KEY_ROLE.RoleLast - 1)) with (Some k2).
  change (at_index [k0; k1; k2] (KEY_ROLE.RoleLast - 2)) with (Some k1).
  change (at_index [k0; k1; k2] 0) with (Some k0).
  change (at_index [k0; k1; k2] 1) with (Some k1).
  change (at_index [k0; k1; k2] 2) with (Some k2).
  cbv beta iota.
  assert (Hbased : (attempt! last <- Returned (0 <? length k2)%nat;
                    if last then Returned true else Returned (0 <? length k1)%nat)
                   = Returned true).
  { destruct Hrole as [H | H]; [destruct k1, k2 | destruct k2]; try contradiction;
      reflexivity. }
  rewrite Hbased. cbn [obind negb andb map rbind of_result].
  destruct (is_object options && _); [reflexivity|].
  destruct (fillWeightedMultiSigOptionsForRoleBased _ options); reflexivity.
Qed.

Lemma toAccount_one_role (this : Keyring) k0 (options : option AccountOptions) :
  _keys this = [k0; []; []] ->
  k0 <> [] ->
  toAccount this options =
    let options' :=
      if (length k0 =? 1)%nat then option_map first_options options else options in
    let isWeightedMultiSig :=
      if (1 <? length k0)%nat then true
      else match options' with
           | Some o => defines_threshold_and_weights o
           | None => false
           end in
    if isWeightedMultiSig then
      attempt! filled <-
        of_result (of_backend (fillWeightedMultiSigOptionsForMultiSig (length k0) options'));
      of_result (of_backend
                   (createWithAccountKeyWeightedMultiSig
                      (_address this) (map key_getPublicKey k0) filled))
    else if is_object options' then Failed OptionsWithSingleKey
    else of_result (of_backend
                      (createWithAccountKeyPublic
                         (_address this) (at_index (map key_getPublicKey k0) 0))).
Proof.
  intros Hkeys Hk0. unfold toAccount, role_holds_key, getPublicKey. rewrite Hkeys.
  assert (Hne : isEmptyKey [k0; []; []] = false) by (destruct k0; [contradiction | reflexivity]).
  rewrite Hne.
  change (at_index [k0; []; []] (KEY_ROLE.RoleLast - 1)) with (Some (@nil PrivateKey)).
  change (at_index [k0; []; []] (KEY_ROLE.RoleLast - 2)) with (Some (@nil PrivateKey)).
  change (at_index [k0; []; []] KEY_ROLE.RoleTransactionKey) with (Some k0).
  change (at_index [k0; []; []] 0) with (Some k0).
  change (at_index [k0; []; []] 1) with (Some (@nil PrivateKey)).
  change (at_index [k0; []; []] 2) with (Some (@nil PrivateKey)).
  cbv beta iota.
  destruct k0 as [|a [|b k0]]; [contradiction | |];
    cbn [obind length Nat.eqb Nat.ltb Nat.leb negb andb map rbind of_result]; cbv zeta.
  - destruct options as [[o | [|first rest]]|];
      cbn [is_object andb option_map first_options defines_threshold_and_weights obind
           rbind of_result map].
    + destruct (is_object (threshold o) && is_object (weights o)); [|reflexivity].
      destruct (fillWeightedMultiSigOptionsForMultiSig _ _); reflexivity.
    + reflexivity.
    + destruct (is_object (threshold first) && is_object (weights first)); [|reflexivity].
      destruct (fillWeightedMultiSigOptionsForMultiSig _ _); reflexivity.
    + reflexivity.
  - destruct (fillWeightedMultiSigOptionsForMultiSig _ _); reflexivity.
Qed.

(** X11: what [toAccount] refuses: a keyring without keys; for a keyring
    with a key in a role other than TransactionKey, options that are
    not an array; for a keyring with a single key, options (of which an
    array stands for its first element) that do not define both
    [threshold] and [weights]. *)
Theorem toAccount_refusals (this : Keyring) k0 k1 k2 :
  _keys this = [k0; k1; k2] ->
  (k0 = [] -> k1 = [] -> k2 = [] ->
   forall options, toAccount this options = Failed EmptyKeyInKeyring) /\
  (k1 <> [] \/ k2 <> [] ->
   forall o, toAccount this (Some (OptionsObject o)) = Failed OptionsNotArray) /\
  (forall key options,
      k0 = [key] -> k1 = [] -> k2 = [] ->
      defines_threshold_and_weights (first_options options) = false ->
      toAccount this (Some options) = Failed OptionsWithSingleKey).
Proof.
  intros Hkeys. split; [|split].
  - intros -> -> -> options. unfold toAccount. rewrite Hkeys. reflexivity.
  - intros Hrole o. rewrite (toAccount_role_based this k0 k1 k2 _ Hkeys Hrole). reflexivity.
  - intros key options -> -> -> Hnone.
    rewrite (toAccount_one_role this [key] _ Hkeys) by discriminate.
    cbn [length Nat.eqb Nat.ltb Nat.leb option_map is_object]. cbv zeta.
    rewrite Hnone. reflexivity.
Qed.

(** X12: the account that [toAccount] makes: a role-based one when a role
    other than TransactionKey holds a key, with the numbers of keys and
    the public keys of the three roles; a weighted multi-signature one
    for several keys in the TransactionKey role alone, and for a single
    key with options that define [threshold] and [weights]; a public key
    account for a single key without options. *)
Theorem toAccount_account_kind (this : Keyring) k0 k1 k2 :
  _keys this = [k0; k1; k2] ->
  (k1 <> [] \/ k2 <> [] ->
   forall options,
     (forall o, options <> Some (OptionsObject o)) ->
     toAccount this options =
       attempt! filled <-
         of_result (of_backend (fillWeightedMultiSigOptionsForRoleBased
                                  [length k0; length k1; length k2] options));
       of_result (of_backend
                    (createWithAccountKeyRoleBased
                       (_address this)
                       [map key_getPublicKey k0; map key_getPublicKey k1;
                        map key_getPublicKey k2] filled))) /\
  (k1 = [] -> k2 = [] -> (1 < length k0)%nat ->
   forall options,
     toAccount this options =
       attempt! filled <-
         of_result (of_backend (fillWeightedMultiSigOptionsForMultiSig (length k0) options));
       of_result (of_backend
                    (createWithAccountKeyWeightedMultiSig
                       (_address this) (map key_getPublicKey k0) filled))) /\
  (forall key,
      k0 = [key] -> k1 = [] -> k2 = [] ->
      toAccount this None
      = of_result (of_backend
                     (createWithAccountKeyPublic (_address this)
                                                 (Some (key_getPublicKey key)))) /\
      forall options,
        defines_threshold_and_weights (first_options options) = true ->
        toAccount this (Some options) =
          attempt! filled <-
            of_result (of_backend (fillWeightedMultiSigOptionsForMultiSig
                                     1 (Some (first_options options))));
          of_result (of_backend
                       (createWithAccountKeyWeightedMultiSig
                          (_address this) [key_getPublicKey key] filled))).
Proof.
  intros Hkeys. split; [|split].
  - intros Hrole options Harray.
    rewrite (toAccount_role_based this k0 k1 k2 _ Hkeys Hrole).
    destruct options as [[o | l]|]; [exfalso; now apply (Harray o) | reflexivity | reflexivity].
  - intros -> -> Hmany options.
    rewrite (toAccount_one_role this k0 _ Hkeys) by (destruct k0; [cbn in Hmany; lia | discriminate]).
    destruct (Nat.eqb_spec (length k0) 1) as [H1 | _]; [lia|].
    destruct (Nat.ltb_spec 1 (length k0)); [reflexivity | lia].
  - intros key -> -> ->. split.
    + rewrite (toAccount_one_role this [key] _ Hkeys) by discriminate. reflexivity.
    + intros options Hdef.
      rewrite (toAccount_one_role this [key] _ Hkeys) by discriminate.
      cbn [length Nat.eqb Nat.ltb Nat.leb option_map is_object map]. cbv zeta.
      rewrite Hdef. reflexivity.
Qed.

End AccountProperties.

Lemma toAccount_refusals_witness :
  toAccount (messages := Samples.messages) (accounts := Samples.accounts)
            Example.role_based_keyring (Some (OptionsObject Samples.full_options))
  = Failed OptionsNotArray /\
  toAccount (messages := Samples.messages) (accounts := Samples.accounts)
            Example.single_keyring (Some (OptionsArray [Samples.bare_options]))
  = Failed OptionsWithSingleKey.
Proof.
  split.
  - apply (proj1 (proj2 (toAccount_refusals
                           (messages := Samples.messages) (accounts := Samples.accounts)
                           Example.role_based_keyring [Example.key1] [Example.key2]
                           [Example.key3; Example.key1] eq_refl))).
    left. discriminate.
  - apply (proj2 (proj2 (toAccount_refusals
                           (messages := Samples.messages) (accounts := Samples.accounts)
                           Example.single_keyring [Example.key1] [] [] eq_refl))
             Example.key1); reflexivity.
Defined.

Lemma toAccount_account_kind_witness :
  toAccount (messages := Samples.messages) (accounts := Samples.accounts)
            Example.single_keyring None
  = Returned (Samples.PublicAccount
                Example.address1
                (Some (key_getPublicKey (MessagePrimitives := Samples.messages)
                                        Example.key1))) /\
  toAccount (messages := Samples.messages) (accounts := Samples.accounts)
            Example.multisig_keyring None
  = Returned (Samples.WeightedMultiSigAccount
                Example.address1
                (map (key_getPublicKey (MessagePrimitives := Samples.messages))
                     [Example.key1; Example.key2]) None).
Proof.
  split.
  - exact (proj1 (proj2 (proj2 (toAccount_account_kind
                                  (messages := Samples.messages)
                                  (accounts := Samples.accounts)
                                  Example.single_keyring [Example.key1] [] [] eq_refl))
                    Example.key1 eq_refl eq_refl eq_refl)).
  - exact (proj1 (proj2 (toAccount_account_kind
                           (messages := Samples.messages) (accounts := Samples.accounts)
                           Example.multisig_keyring [Example.key1; Example.key2] [] []
                           eq_refl))
             eq_refl eq_refl ltac:(cbn; lia) None).
Defined.

(** ** The keystores of [encrypt], and the keyrings of [decrypt] *)

Section KeystoreShape.
Context {helper : KeyringHelper} {crypto : Crypto}.

(** X18: every keyring that [Keyring.decrypt] returns holds one key list
    per role, none longer than [MAXIMUM_KEY_NUM], and its address is
    the address of the keystore, which passed the address check, with
    the prefix added, in lower case. *)
Theorem decrypt_returns_keyring_shape
        (keystore : Keystore) (password : string) (w w' : World) (this : Keyring) :
  decrypt keystore password w = (Ok this, w') ->
  isAddress (ks_address keystore) = true /\
  _address this = toLowerCase (addHexPrefix (ks_address keystore)) /\
  keyring_shape this.
Proof.
  unfold decrypt, bind, lift.
  destruct (decrypt_checks keystore w) as [[keyring|] w0]; [|discriminate].
  destruct (decrypt_keys keyring password w0) as [[keys|] w1]; [|discriminate].
  intros [= Hcreate <-].
  unfold createWithRoleBasedKey in Hcreate.
  destruct (isRoleBasedKeysFormat (NestedInput keys)); [|discriminate]. cbn [negb] in Hcreate.
  exact (new_Keyring_shape _ _ _ Hcreate).
Qed.

Lemma for_each_Ok_inv {A B} (f : A -> M B) (P : B -> Prop) (l : list A) w ys w' :
  (forall x w0 y w1, f x w0 = (Ok y, w1) -> P y) ->
  for_each f l w = (Ok ys, w') ->
  length ys = length l /\ Forall P ys.
Proof.
  intros Hf. revert w ys. induction l as [|x l IH]; intros w ys; cbn [for_each].
  - intros [= <- <-]. split; [reflexivity | constructor].
  - unfold bind at 1. destruct (f x w) as [[y|] w0] eqn:Ey; [|discriminate].
    unfold bind at 1. destruct (for_each f l w0) as [[ys'|] w1] eqn:El; [|discriminate].
    intros [= <- <-]. destruct (IH _ _ El) as [Hlen Hall].
    split; [cbn; now rewrite Hlen | constructor; [eapply Hf; exact Ey | exact Hall]].
Qed.

Lemma encryptKey_step_written (password : string) (options : Options) (key : PrivateKey)
      w c w' :
  encryptKey_step password options key w = (Ok c, w') -> written_with options c.
Proof.
  unfold encryptKey_step.
  destruct (buffer_or_random_returns (opt_salt options) 32 w) as (salt & w1 & E1 & Hsalt).
  rewrite (bind_Ok _ _ _ _ _ E1).
  destruct (buffer_or_random_returns (opt_iv options) 16 w1) as (iv & w2 & E2 & Hiv).
  rewrite (bind_Ok _ _ _ _ _ E2).
  unfold bind at 1.
  match goal with
  | |- context [match ?m w2 with _ => _ end] => destruct (m w2) as [[[params derivedKey]|] w3] eqn:Ekdf
  end; [|discriminate].
  unfold bind at 1.
  destruct (encipher _ _ _ _ w3) as [[ct|] w4]; [|discriminate].
  intros [= <- <-]. unfold written_with.
  cbn [kdf cipher kdfparams cipherparams_iv].
  assert (Hparams : kdf_dklen params = num_or (opt_dklen options) 32 /\
                    kdf_salt params = toString_hex salt).
  { destruct (String.eqb _ "pbkdf2").
    - unfold bind, lift, ret in Ekdf.
      destruct (of_backend _); [|discriminate]. injection Ekdf as <- _ _. split; reflexivity.
    - destruct (String.eqb _ "scrypt"); [|discriminate].
      unfold bind, lift, ret in Ekdf.
      destruct (of_backend _); [|discriminate]. injection Ekdf as <- _ _. split; reflexivity. }
  destruct Hparams as [Hd Hs].
  split; [reflexivity|]. split; [reflexivity|]. split; [exact Hd|]. split.
  - intros salt' Hopt. rewrite Hopt in Hsalt. now rewrite Hs, Hsalt.
  - intros iv' Hopt. rewrite Hopt in Hiv. now rewrite Hiv.
Qed.

Lemma encrypt_role_shape (this : Keyring) (password : string) (options : Options)
      k0 k1 k2 (i : Z) (isRoleBased : bool) (w : World) j b w' :
  _keys this = [k0; k1; k2] ->
  i = 0%Z \/ i = 1%Z \/ i = 2%Z ->
  encrypt_role this password options i isRoleBased w = (Ok (j, b), w') ->
  exists cs,
    j = crypto_array cs /\
    length cs = length (own_list k0 k1 k2 i) /\
    Forall (written_with options) cs /\
    b = if (i =? 0)%Z then isRoleBased
        else if (0 <? length (own_list k0 k1 k2 i))%nat then true else isRoleBased.
Proof.
  intros Hkeys Hi. unfold encrypt_role. rewrite Hkeys.
  assert (Hat : at_index [k0; k1; k2] i = Some (own_list k0 k1 k2 i))
    by (destruct Hi as [-> | [-> | ->]]; reflexivity).
  rewrite Hat.
  unfold bind at 1.
  match goal with
  | |- context [match ?m w with _ => _ end] =>
      assert (Hfirst : m w = (Ok (if (i =? 0)%Z then isRoleBased
                                  else if (0 <? length (own_list k0 k1 k2 i))%nat
                                       then true else isRoleBased), w))
        by (destruct Hi as [-> | [-> | ->]]; reflexivity);
      rewrite Hfirst
  end.
  unfold bind at 1. cbn [encryptKey].
  destruct (for_each _ _ w) as [[cs|] w1] eqn:Ecs; [|discriminate].
  intros [= <- <- <-].
  destruct (for_each_Ok_inv _ (written_with options) _ _ _ _
              (encryptKey_step_written password options) Ecs) as [Hlen Hall].
  exists cs. repeat split; assumption.
Qed.

(** X13: the keystore that [encrypt] returns is a version 4 record with the
    lower-cased address and no [crypto] field; its [keyring] holds one
    crypto object for each key, in one flat list when only the
    TransactionKey role holds keys and in three lists otherwise; every
    crypto object names the kdf, the cipher and the key length of the
    options (or the defaults), and carries the salt and the iv of the
    options when these give them: the same for every key. *)
Theorem encrypt_keystore_shape
        (this : Keyring) (password : string) (options : Options) k0 k1 k2
        (w w' : World) (keystore : Keystore) :
  _keys this = [k0; k1; k2] ->
  encrypt this password options w = (Ok keystore, w') ->
  ks_version keystore = Some 4%Z /\
  ks_crypto keystore = None /\
  ks_address keystore = toLowerCase (_address this) /\
  exists cs0 cs1 cs2,
    length cs0 = length k0 /\ length cs1 = length k1 /\ length cs2 = length k2 /\
    Forall (written_with options) (cs0 ++ cs1 ++ cs2) /\
    ks_keyring keystore
    = Some (if (0 <? length k1)%nat || (0 <? length k2)%nat
            then JArray [crypto_array cs0; crypto_array cs1; crypto_array cs2]
            else crypto_array cs0).
Proof.
  intros Hkeys. unfold encrypt.
  unfold bind at 1.
  destruct (encrypt_role this password options 0 false w) as [[[j0 b0]|] w0] eqn:E0;
    [|discriminate].
  unfold bind at 1.
  destruct (encrypt_role this password options 1 b0 w0) as [[[j1 b1]|] w1] eqn:E1;
    [|discriminate].
  unfold bind at 1.
  destruct (encrypt_role this password options 2 b1 w1) as [[[j2 b2]|] w2] eqn:E2;
    [|discriminate].
  destruct (encrypt_role_shape _ _ _ _ _ _ _ _ _ _ _ _ Hkeys (or_introl eq_refl) E0)
    as (cs0 & -> & L0 & W0 & ->).
  destruct (encrypt_role_shape _ _ _ _ _ _ _ _ _ _ _ _ Hkeys
              (or_intror (or_introl eq_refl)) E1) as (cs1 & -> & L1 & W1 & ->).
  destruct (encrypt_role_shape _ _ _ _ _ _ _ _ _ _ _ _ Hkeys
              (or_intror (or_intror eq_refl)) E2) as (cs2 & -> & L2 & W2 & ->).
  cbn [Z.eqb own_list] in *.
  match goal with
  | |- formatEncrypted 4 ?a ?j options w2 = _ -> _ =>
      destruct (formatEncrypted_4 a j options w2) as (id & w3 & Hformat); rewrite Hformat
  end.
  intros [= <- <-]. cbn [ks_version ks_crypto ks_address ks_keyring].
  split; [reflexivity|]. split; [reflexivity|]. split; [reflexivity|].
  exists cs0, cs1, cs2. repeat split; try assumption.
  - rewrite !Forall_app. auto.
  - destruct (0 <? length k1)%nat, (0 <? length k2)%nat; reflexivity.
Qed.

End KeystoreShape.

Lemma encrypt_keystore_shape_witness :
  exists keystore w',
    encrypt (crypto := Example.crypto) Example.role_based_keyring "pw"
            Example.no_options Example.world0 = (Ok keystore, w') /\
    ks_version keystore = Some 4%Z /\
    exists cs0 cs1 cs2,
      length cs0 = 1%nat /\ length cs1 = 1%nat /\ length cs2 = 2%nat /\
      ks_keyring keystore
      = Some (JArray [crypto_array cs0; crypto_array cs1; crypto_array cs2]).
Proof.
  destruct (encrypt (crypto := Example.crypto) Example.role_based_keyring "pw"
                    Example.no_options Example.world0) as [[keystore|e] w'] eqn:E.
  - exists keystore, w'. split; [reflexivity|].
    destruct (encrypt_keystore_shape
                (crypto := Example.crypto) Example.role_based_keyring "pw"
                Example.no_options [Example.key1] [Example.key2]
                [Example.key3; Example.key1] Example.world0 w' keystore eq_refl E)
      as (Hv & _ & _ & cs0 & cs1 & cs2 & L0 & L1 & L2 & _ & Hk).
    split; [exact Hv|]. exists cs0, cs1, cs2. repeat split; assumption.
  - vm_compute in E. discriminate.
Defined.

Lemma decrypt_returns_keyring_shape_witness :
  isAddress (ks_address Example.keystore_v4) = true /\
  _address Example.single_keyring
  = toLowerCase (addHexPrefix (ks_address Example.keystore_v4)) /\
  keyring_shape (helper := Example.helper) Example.single_keyring.
Proof.
  apply (decrypt_returns_keyring_shape
           (helper := Example.helper) (crypto := Example.crypto)
           Example.keystore_v4 "pw" Example.world0
           (snd (decrypt (helper := Example.helper) (crypto := Example.crypto)
                         Example.keystore_v4 "pw" Example.world0))).
  vm_compute. reflexivity.
Defined.

(** ** Random bytes and unsupported options *)

Section EntropyProperties.
Context {helper : KeyringHelper} {crypto : Crypto}.

Lemma draws_nothing_ret {A} (a : A) : draws_nothing (ret a).
Proof. intros w. split; reflexivity. Qed.

Lemma draws_nothing_throw {A} (e : Error) : draws_nothing (throw (A := A) e).
Proof. intros w. split; reflexivity. Qed.

Lemma draws_nothing_lift {A} (r : result A) : draws_nothing (lift r).
Proof. intros w. split; reflexivity. Qed.

Lemma draws_nothing_emit (e : Event) : draws_nothing (emit e).
Proof. intros w. split; reflexivity. Qed.

Lemma draws_nothing_bind {A B} (m : M A) (k : A -> M B) :
  draws_nothing m -> (forall a, draws_nothing (k a)) -> draws_nothing (bind m k).
Proof.
  intros Hm Hk w. unfold bind. split.
  - destruct (Hm w) as [He _]. destruct (m w) as [[a|e] w1]; cbn [snd] in *.
    + destruct (Hk a w1) as [Hka _]. congruence.
    + exact He.
  - intros w'. destruct (Hm w) as [_ Hr]. specialize (Hr w').
    destruct (m w) as [[a|e] w1], (m w') as [[a'|e'] w1']; cbn [fst] in Hr;
      try discriminate.
    + injection Hr as ->. destruct (Hk a w1) as [_ Hka]. apply Hka.
    + injection Hr as ->. reflexivity.
Qed.

Lemma draws_nothing_for_each {A B} (f : A -> M B) (l : list A) :
  (forall x, draws_nothing (f x)) -> draws_nothing (for_each f l).
Proof.
  intros Hf. induction l as [|x l IH]; cbn [for_each].
  - apply draws_nothing_ret.
  - apply draws_nothing_bind; [apply Hf|]. intros y.
    apply draws_nothing_bind; [exact IH|]. intros ys. apply draws_nothing_ret.
Qed.

Lemma draws_nothing_encipher (name : string) (key iv data : Buffer) :
  draws_nothing (encipher name key iv data).
Proof.
  unfold encipher. apply draws_nothing_bind; [apply draws_nothing_lift|].
  intros [run|]; [|apply draws_nothing_throw].
  apply draws_nothing_bind; [apply draws_nothing_emit|]. intros _.
  apply draws_nothing_lift.
Qed.

Lemma draws_nothing_encryptKey_step (password : string) (options : Options)
      (key : PrivateKey) :
  opt_salt options <> None -> opt_iv options <> None ->
  draws_nothing (encryptKey_step password options key).
Proof.
  intros Hsalt Hiv. unfold encryptKey_step.
  destruct (opt_salt options) as [salt|]; [|contradiction].
  destruct (opt_iv options) as [iv|]; [|contradiction].
  cbn [buffer_or_random].
  apply draws_nothing_bind; [apply draws_nothing_ret|]. intros salt'.
  apply draws_nothing_bind; [apply draws_nothing_ret|]. intros iv'.
  apply draws_nothing_bind.
  - destruct (String.eqb _ "pbkdf2").
    + apply draws_nothing_bind; [apply draws_nothing_lift|]. intros d.
      apply draws_nothing_ret.
    + destruct (String.eqb _ "scrypt"); [|apply draws_nothing_throw].
      apply draws_nothing_bind; [apply draws_nothing_lift|]. intros d.
      apply draws_nothing_ret.
  - intros [kdfparams derivedKey].
    apply draws_nothing_bind; [apply draws_nothing_encipher|]. intros ct.
    apply draws_nothing_ret.
Qed.

Lemma draws_nothing_encryptKey (privateKey : KeyArg) (password : string)
      (options : Options) :
  opt_salt options <> None -> opt_iv options <> None ->
  draws_nothing (encryptKey privateKey password options).
Proof.
  intros Hsalt Hiv. destruct privateKey as [|k|l]; cbn [encryptKey].
  - apply draws_nothing_ret.
  - apply draws_nothing_for_each. intros x. now apply draws_nothing_encryptKey_step.
  - apply draws_nothing_for_each. intros x. now apply draws_nothing_encryptKey_step.
Qed.

Lemma draws_nothing_formatEncrypted (version : Z) (address : string) (j : Json)
      (options : Options) :
  opt_uuid options <> None -> draws_nothing (formatEncrypted version address j options).
Proof.
  intros Huuid. unfold formatEncrypted.
  destruct (opt_uuid options) as [u|]; [|contradiction]. cbn [buffer_or_random].
  apply draws_nothing_bind; [apply draws_nothing_ret|]. intros random.
  destruct (version =? 3)%Z; [apply draws_nothing_ret|].
  destruct (version =? 4)%Z; [apply draws_nothing_ret | apply draws_nothing_throw].
Qed.

Lemma draws_nothing_encrypt_role (this : Keyring) (password : string) (options : Options)
      (i : Z) (isRoleBased : bool) :
  opt_salt options <> None -> opt_iv options <> None ->
  draws_nothing (encrypt_role this password options i isRoleBased).
Proof.
  intros Hsalt Hiv. unfold encrypt_role.
  apply draws_nothing_bind.
  - destruct (i >? KEY_ROLE.RoleTransactionKey)%Z; [|apply draws_nothing_ret].
    destruct (at_index (_keys this) i); [apply draws_nothing_ret | apply draws_nothing_throw].
  - intros b. apply draws_nothing_bind; [now apply draws_nothing_encryptKey|].
    intros encrypted. apply draws_nothing_ret.
Qed.

(** X14: with [salt], [iv] and [uuid] given in the options, neither
    [encrypt] nor [encryptV3] draws random bytes: the entropy source is
    left as it was, and the outcome is the same in every world. *)
Theorem encrypt_with_given_salt_iv_uuid_draws_nothing
        (this : Keyring) (password : string) (options : Options) :
  opt_salt options <> None -> opt_iv options <> None -> opt_uuid options <> None ->
  (forall w, entropy (snd (encrypt this password options w)) = entropy w) /\
  (forall w w', fst (encrypt this password options w)
                = fst (encrypt this password options w')) /\
  (forall w, entropy (snd (encryptV3 this password options w)) = entropy w) /\
  (forall w w', fst (encryptV3 this password options w)
                = fst (encryptV3 this password options w')).
Proof.
  intros Hsalt Hiv Huuid.
  assert (H4 : draws_nothing (encrypt this password options)).
  { unfold encrypt.
    apply draws_nothing_bind; [now apply draws_nothing_encrypt_role|]. intros [k0 b0].
    apply draws_nothing_bind; [now apply draws_nothing_encrypt_role|]. intros [k1 b1].
    apply draws_nothing_bind; [now apply draws_nothing_encrypt_role|]. intros [k2 b2].
    now apply draws_nothing_formatEncrypted. }
  assert (H3 : draws_nothing (encryptV3 this password options)).
  { unfold encryptV3.
    destruct (at_index (_keys this) KEY_ROLE.RoleTransactionKey) as [txKey|];
      [|apply draws_nothing_throw].
    destruct (1 <? length txKey)%nat; [apply draws_nothing_throw|].
    apply draws_nothing_bind.
    - apply draws_nothing_for_each. intros i.
      destruct (at_index (_keys this) i) as [roledKey|]; [|apply draws_nothing_throw].
      destruct (0 <? length roledKey)%nat;
        [apply draws_nothing_throw | apply draws_nothing_ret].
    - intros _. apply draws_nothing_bind; [now apply draws_nothing_encryptKey|].
      intros c. now apply draws_nothing_formatEncrypted. }
  split; [intros w; apply H4|]. split; [intros w w'; apply H4|].
  split; [intros w; apply H3 | intros w w'; apply H3].
Qed.

Lemma buffer_or_random_events (x : option Buffer) (n : nat) (w : World) :
  exists b w', buffer_or_random x n w = (Ok b, w') /\ events w' = events w.
Proof.
  destruct x as [b|]; cbn.
  - exists b, w. split; reflexivity.
  - unfold draw. destruct (randomBytes n (entropy w)) as [b s] eqn:E.
    eexists _, _. split; reflexivity.
Qed.

(** X15: with a [kdf] in the options that is neither [pbkdf2] nor [scrypt],
    [encrypt] of a keyring that holds a key in the TransactionKey role
    fails with the unsupported-kdf error, and the log of the world holds
    no cipher call by then; so does [encryptV3] of a keyring with a
    single key. *)
Theorem encrypt_unsupported_kdf
        (this : Keyring) (password : string) (options : Options) (w : World) :
  str_or (opt_kdf options) "scrypt" <> "pbkdf2" ->
  str_or (opt_kdf options) "scrypt" <> "scrypt" ->
  (forall key rest,
      at_index (_keys this) KEY_ROLE.RoleTransactionKey = Some (key :: rest) ->
      fst (encrypt this password options w) = Throw UnsupportedKdf /\
      events (snd (encrypt this password options w)) = events w) /\
  (forall key,
      _keys this = [[key]; []; []] ->
      fst (encryptV3 this password options w) = Throw UnsupportedKdf /\
      events (snd (encryptV3 this password options w)) = events w).
Proof.
  intros Hp Hs.
  assert (Hstep : forall key w0, exists w1,
             encryptKey_step password options key w0 = (Throw UnsupportedKdf, w1) /\
             events w1 = events w0).
  { intros key w0. unfold encryptKey_step.
    destruct (buffer_or_random_events (opt_salt options) 32 w0) as (salt & w1 & E1 & Ev1).
    rewrite (bind_Ok _ _ _ _ _ E1).
    destruct (buffer_or_random_events (opt_iv options) 16 w1) as (iv & w2 & E2 & Ev2).
    rewrite (bind_Ok _ _ _ _ _ E2).
    exists w2. split; [|congruence].
    apply bind_Throw.
    destruct (String.eqb_spec (str_or (opt_kdf options) "scrypt") "pbkdf2");
      [contradiction|].
    destruct (String.eqb_spec (str_or (opt_kdf options) "scrypt") "scrypt");
      [contradiction | reflexivity]. }
  split.
  - intros key rest Hkeys. destruct (Hstep key w) as (w1 & E & Ev).
    assert (Hencrypt : encrypt this password options w = (Throw UnsupportedKdf, w1)).
    { change KEY_ROLE.RoleTransactionKey with 0%Z in Hkeys.
      unfold encrypt. apply bind_Throw. unfold encrypt_role.
      change (0 >? KEY_ROLE.RoleTransactionKey)%Z with false. cbv iota zeta.
      rewrite (bind_Ok _ _ w false w eq_refl).
      apply bind_Throw. rewrite Hkeys. cbn [encryptKey for_each].
      apply bind_Throw. exact E. }
    rewrite Hencrypt. split; [reflexivity | exact Ev].
  - intros key Hkeys. destruct (Hstep key w) as (w1 & E & Ev).
    assert (Hencrypt : encryptV3 this password options w = (Throw UnsupportedKdf, w1)).
    { unfold encryptV3. rewrite Hkeys.
      cbn [at_index KEY_ROLE.RoleTransactionKey KEY_ROLE.RoleAccountUpdateKey
           KEY_ROLE.RoleFeePayerKey Z.ltb Z.compare Z.to_nat Pos.to_nat Pos.iter_op
           Nat.add nth_error length Nat.ltb Nat.leb for_each].
      rewrite (bind_Ok _ _ w [tt; tt] w eq_refl).
      apply bind_Throw. cbn [encryptKey for_each]. apply bind_Throw. exact E. }
    rewrite Hencrypt. split; [reflexivity | exact Ev].
Qed.

End EntropyProperties.

Lemma encrypt_with_given_salt_iv_uuid_draws_nothing_witness :
  entropy (snd (encrypt (crypto := Example.crypto) Example.role_based_keyring "pw"
                        Samples.given_options Example.world0))
  = entropy Example.world0 /\
  fst (encrypt (crypto := Example.crypto) Example.role_based_keyring "pw"
               Samples.given_options Example.world0)
  = fst (encrypt (crypto := Example.crypto) Example.role_based_keyring "pw"
                 Samples.given_options Samples.world7).
Proof.
  destruct (encrypt_with_given_salt_iv_uuid_draws_nothing
              (crypto := Example.crypto) Example.role_based_keyring "pw"
              Samples.given_options ltac:(discriminate) ltac:(discriminate)
              ltac:(discriminate)) as (Hentropy & Hsame & _).
  split; [apply Hentropy | apply Hsame].
Defined.

Lemma encrypt_unsupported_kdf_witness :
  fst (encrypt (crypto := Example.crypto) Example.single_keyring "pw"
               Samples.argon_options Example.world0) = Throw UnsupportedKdf /\
  events (snd (encrypt (crypto := Example.crypto) Example.single_keyring "pw"
                       Samples.argon_options Example.world0))
  = events Example.world0.
Proof.
  exact (proj1 (encrypt_unsupported_kdf
                  (crypto := Example.crypto) Example.single_keyring "pw"
                  Samples.argon_options Example.world0
                  ltac:(cbn; discriminate) ltac:(cbn; discriminate))
           Example.key1 [] eq_refl).
Defined.

(** ** Keystores that are refused *)

Section KeystoreEdges.
Context {helper : KeyringHelper} {crypto : Crypto}.

(** [Keyring.decrypt] stops at a first entry whose decryption fails and
    leaves the world alone. *)
Lemma decrypt_first_entry_fails (c : CryptoObject) (password : string) (e : Error) :
  (forall w, decryptKey_step password (JCrypto c) w = (Throw e, w)) ->
  (forall keystore w,
      ks_version keystore = Some 3%Z ->
      ks_crypto keystore = Some (JCrypto c) ->
      ks_keyring keystore = None ->
      decrypt keystore password w = (Throw e, w)) /\
  (forall keystore after w,
      ks_version keystore = Some 4%Z ->
      ks_crypto keystore = None ->
      ks_keyring keystore = Some (JArray (JCrypto c :: after)) ->
      decrypt keystore password w = (Throw e, w)).
Proof.
  intros Hstep.
  assert (Hfirst : forall after w,
             decryptKey (Some (JArray (JCrypto c :: after))) password w = (Throw e, w)).
  { intros after w. rewrite decryptKey_array by discriminate.
    apply bind_Throw. cbn. apply bind_Throw. apply Hstep. }
  split.
  - intros keystore w Hv Hc Hk. unfold decrypt.
    assert (E : decrypt_checks keystore w = (Ok (Some (JArray [JCrypto c])), w))
      by (unfold decrypt_checks; rewrite Hv, Hc, Hk; reflexivity).
    rewrite (bind_Ok _ _ _ _ _ E). apply bind_Throw.
    cbn [decrypt_keys json_index at_index Z.ltb Z.compare Z.to_nat nth_error isArray].
    apply bind_Throw. apply Hfirst.
  - intros keystore after w Hv Hc Hk. unfold decrypt.
    rewrite (bind_Ok _ _ _ _ _ (decrypt_checks_4 keystore _ w Hv Hc Hk)).
    apply bind_Throw.
    cbn [decrypt_keys json_index at_index Z.ltb Z.compare Z.to_nat nth_error isArray].
    apply bind_Throw. apply Hfirst.
Qed.

(** X19: a crypto object whose key derivation is neither [scrypt] nor
    [pbkdf2], or is [pbkdf2] with another [prf] than [hmac-sha256], is
    refused with the error of its own, and the world stays as it was:
    nothing is deciphered.  So is a version 3 record that holds it, and
    a version 4 record whose key list starts with it. *)
Theorem decryptKey_unsupported_kdf (c : CryptoObject) (password : string) (e : Error) :
  (kdf c <> "scrypt" /\ kdf c <> "pbkdf2" /\ e = UnsupportedKdfScheme) \/
  (kdf c = "pbkdf2" /\ kdf_prf (kdfparams c) <> Some "hmac-sha256" /\
   e = UnsupportedPbkdf2Params) ->
  (forall w, decryptKey_step password (JCrypto c) w = (Throw e, w)) /\
  (forall keystore w,
      ks_version keystore = Some 3%Z ->
      ks_crypto keystore = Some (JCrypto c) ->
      ks_keyring keystore = None ->
      decrypt keystore password w = (Throw e, w)) /\
  (forall keystore after w,
      ks_version keystore = Some 4%Z ->
      ks_crypto keystore = None ->
      ks_keyring keystore = Some (JArray (JCrypto c :: after)) ->
      decrypt keystore password w = (Throw e, w)).
Proof.
  intros Hrefused.
  assert (Hstep : forall w, decryptKey_step password (JCrypto c) w = (Throw e, w)).
  { intros w. unfold decryptKey_step, bind, lift, derive.
    destruct Hrefused as [(Hs & Hp & ->) | (Hp & Hprf & ->)].
    - destruct (String.eqb_spec (kdf c) "scrypt"); [contradiction|].
      destruct (String.eqb_spec (kdf c) "pbkdf2"); [contradiction | reflexivity].
    - rewrite Hp. cbn [String.eqb Ascii.eqb Bool.eqb].
      destruct (kdf_prf (kdfparams c)) as [prf|]; [|reflexivity].
      destruct (String.eqb_spec prf "hmac-sha256"); [subst; contradiction | reflexivity]. }
  split; [exact Hstep|]. apply decrypt_first_entry_fails, Hstep.
Qed.

(** X16: [encrypt] of a keyring without keys returns a keystore, whatever
    the options are, and [Keyring.decrypt] refuses that keystore under
    every password: its empty key list is taken for a single missing
    key. *)
Theorem encrypt_empty_keyring_cannot_be_decrypted
        (this : Keyring) (password : string) (options : Options) (w : World) :
  keyring_invariant this ->
  isEmptyKey (_keys this) = true ->
  (0 < MAXIMUM_KEY_NUM)%nat ->
  exists keystore w',
    encrypt this password options w = (Ok keystore, w') /\
    ks_keyring keystore = Some (JArray []) /\
    forall password' w0,
      decrypt keystore password' w0 = (Throw InvalidPrivateKey, w0).
Proof.
  intros (Haddr & Hcanon & Hlower & Hlen & _) Hempty Hmax.
  destruct this as [address keys]. cbn [_address _keys] in *.
  destruct keys as [|k0 [|k1 [|k2 [|]]]]; try discriminate.
  destruct k0; [|discriminate]. destruct k1; [|discriminate]. destruct k2; [|discriminate].
  clear Hempty Hlen.
  destruct (formatEncrypted_4 address (JArray []) options w) as (id & w' & Hformat).
  set (keystore := {| ks_version := Some 4%Z; ks_id := id;
                      ks_address := toLowerCase address;
                      ks_crypto := None; ks_keyring := Some (JArray []) |}) in *.
  exists keystore, w'. split; [exact Hformat|]. split; [reflexivity|].
  intros password' w0. unfold decrypt.
  rewrite (bind_Ok _ _ _ _ _
             (decrypt_checks_4 keystore (JArray []) w0 eq_refl eq_refl eq_refl)).
  cbn [decrypt_keys json_index at_index Z.ltb Z.compare Z.to_nat nth_error isArray
       decryptKey].
  unfold bind, ret, lift.
  change (Z.to_nat (KEY_ROLE.RoleLast - Z.of_nat (length [KeyUndefined]))) with 2%nat.
  cbn [repeat].
  change (ks_address keystore) with (toLowerCase address). rewrite Hlower.
  unfold createWithRoleBasedKey, new_Keyring, set_address. rewrite Haddr.
  cbn [negb rbind isRoleBasedKeysFormat length].
  change (Z.to_nat KEY_ROLE.RoleLast) with 3%nat. cbn [Nat.leb negb].
  unfold formattingForKeyInKeyring.
  cbn [isMultipleKeysFormat isRoleBasedKeysFormat length].
  change (Z.to_nat KEY_ROLE.RoleLast) with 3%nat. cbn [Nat.leb negb rbind nth_error].
  unfold fillRoleKey at 1. cbn [length].
  destruct (Nat.ltb_spec MAXIMUM_KEY_NUM 1); [lia | reflexivity].
Qed.

End KeystoreEdges.

Lemma decryptKey_unsupported_kdf_witness :
  decryptKey_step (crypto := Example.crypto) "pw" (JCrypto Samples.argon_crypto)
                  Example.world0
  = (Throw UnsupportedKdfScheme, Example.world0).
Proof.
  apply (proj1 (decryptKey_unsupported_kdf
                  (helper := Example.helper) (crypto := Example.crypto)
                  Samples.argon_crypto "pw" UnsupportedKdfScheme
                  ltac:(left; repeat split; discriminate))).
Defined.

Lemma encrypt_empty_keyring_cannot_be_decrypted_witness :
  exists keystore w',
    encrypt (crypto := Example.crypto) Example.empty_keyring "pw"
            Example.no_options Example.world0 = (Ok keystore, w') /\
    ks_keyring keystore = Some (JArray []) /\
    forall password' w0,
      decrypt (helper := Example.helper) (crypto := Example.crypto) keystore password' w0
      = (Throw InvalidPrivateKey, w0).
Proof.
  apply (encrypt_empty_keyring_cannot_be_decrypted
           (helper := Example.helper) (crypto := Example.crypto)).
  - exact example_empty_keyring_invariant.
  - reflexivity.
  - cbn. lia.
Defined.

(** ** Version 3 keystores, encrypted and decrypted again *)

Section KeystoreV3RoundTrip.
Context {helper : KeyringHelper} {crypto : Crypto}.

(** X17: the keystore that [encryptV3] makes of a keyring with a single key
    holds the crypto object in an array of one element, which
    [Keyring.decrypt] reads as the key list of the TransactionKey role:
    under the same password it returns the keyring. *)
Theorem decrypt_encryptV3_round_trip
        (this : Keyring) (key : PrivateKey) (password : string) (options : Options)
        (w : World) :
  backend_sound ->
  keyring_invariant this ->
  _keys this = [[key]; []; []] ->
  supported_kdf options password ->
  supported_cipher options ->
  exists keystore w',
    encryptV3 this password options w = (Ok keystore, w') /\
    ks_version keystore = Some 3%Z /\
    (exists c, ks_crypto keystore = Some (JArray [JCrypto c])) /\
    forall w0, exists w1, decrypt keystore password w0 = (Ok this, w1).
Proof.
  intros Hsound Hinv Hkeys Hkdf Hcipher.
  pose proof Hinv as (Haddr & Hcanon & Hlower & Hlen & Hlists).
  assert (Hkey : role_list_ok [key]).
  { rewrite Hkeys in Hlists. now inversion Hlists. }
  unfold encryptV3. rewrite Hkeys.
  change (at_index [[key]; []; []] KEY_ROLE.RoleTransactionKey) with (Some [key]).
  cbv beta iota. cbn [length Nat.ltb Nat.leb for_each].
  change (at_index [[key]; []; []] KEY_ROLE.RoleAccountUpdateKey)
    with (Some (@nil PrivateKey)).
  change (at_index [[key]; []; []] KEY_ROLE.RoleFeePayerKey)
    with (Some (@nil PrivateKey)).
  cbn [length Nat.ltb Nat.leb].
  rewrite (bind_Ok _ _ w [tt; tt] w) by reflexivity.
  change (at_index [key] 0) with (Some key). unfold encryptKey.
  destruct (encryptKey_step_sound password options key w Hsound Hkdf Hcipher)
    as (c & w1 & Hc & Hdec).
  rewrite (bind_Ok _ _ w [c] w1)
    by (cbn [for_each]; rewrite (bind_Ok _ _ _ _ _ Hc); reflexivity).
  unfold formatEncrypted.
  destruct (buffer_or_random_returns (opt_uuid options) 16 w1) as (b & w2 & Hb & _).
  rewrite (bind_Ok _ _ _ _ _ Hb). cbn [Z.eqb Pos.eqb].
  set (keystore := {| ks_version := Some 3%Z; ks_id := uuid_v4 b;
                      ks_address := toLowerCase (_address this);
                      ks_crypto := Some (crypto_array [c]); ks_keyring := None |}).
  exists keystore, w2. split; [reflexivity|]. split; [reflexivity|].
  split; [exists c; reflexivity|].
  intros w0. unfold decrypt.
  assert (Echecks : decrypt_checks keystore w0
                    = (Ok (Some (JArray [crypto_array [c]])), w0)) by reflexivity.
  rewrite (bind_Ok _ _ _ _ _ Echecks).
  assert (Ekeys : exists w3,
             decrypt_keys (Some (JArray [crypto_array [c]])) password w0
             = (Ok [key_strings [key]; key_strings []; key_strings []], w3)).
  { cbn [decrypt_keys json_index at_index Z.ltb Z.compare Z.to_nat nth_error isArray
         crypto_array map].
    change (at_index [JArray [JCrypto c]] KEY_ROLE.RoleTransactionKey)
      with (Some (JArray [JCrypto c])).
    change (at_index [JArray [JCrypto c]] KEY_ROLE.RoleAccountUpdateKey)
      with (@None Json).
    change (at_index [JArray [JCrypto c]] KEY_ROLE.RoleFeePayerKey) with (@None Json).
    destruct (decryptKey_role password [c] [key] w0) as (d & w3 & Ed & Hd & _).
    { constructor; [exact Hdec | constructor]. }
    change (crypto_array [c]) with (JArray [JCrypto c]) in Ed.
    rewrite (bind_Ok _ _ _ _ _ Ed). cbn [decryptKey].
    rewrite (bind_Ok _ _ w3 None w3) by reflexivity.
    rewrite (bind_Ok _ _ w3 None w3) by reflexivity.
    exists w3. unfold ret. rewrite Hd. reflexivity. }
  destruct Ekeys as (w3 & Ekeys). rewrite (bind_Ok _ _ _ _ _ Ekeys).
  exists w3. unfold lift.
  change (ks_address keystore) with (toLowerCase (_address this)). rewrite Hlower.
  rewrite (createWithRoleBasedKey_restores this); [reflexivity | exact Hinv | cbn; lia |].
  rewrite Hkeys. apply formatting_role_partition; [exact Hkey | |];
    (split; [cbn; lia | constructor]).
Qed.

End KeystoreV3RoundTrip.

Lemma decrypt_encryptV3_round_trip_witness :
  exists keystore w',
    encryptV3 (crypto := Example.crypto) Example.single_keyring "pw"
              Example.no_options Example.world0 = (Ok keystore, w') /\
    ks_version keystore = Some 3%Z /\
    (exists c, ks_crypto keystore = Some (JArray [JCrypto c])) /\
    forall w0, exists w1,
        decrypt (helper := Example.helper) (crypto := Example.crypto) keystore "pw" w0
        = (Ok Example.single_keyring, w1).
Proof.
  apply (decrypt_encryptV3_round_trip
           (helper := Example.helper) (crypto := Example.crypto)
           Example.single_keyring Example.key1).
  - exact example_backend_sound.
  - exact example_single_keyring_invariant.
  - reflexivity.
  - apply example_supported_kdf.
  - exact example_supported_cipher.
Defined.

(** ** The flat and the role-based form of a keystore *)

Section KeystoreForms.
Context {helper : KeyringHelper} {crypto : Crypto}.

(** A role that is missing from the key material and a role with no
    key in it fill the same. *)
Lemma fillRoleKey_nothing (keys : list (list PrivateKey)) (role : nat) :
  (role < 3)%nat -> fillRoleKey keys role (Some []) = fillRoleKey keys role None.
Proof.
  intros Hrole. unfold fillRoleKey. cbn [length].
  destruct (Nat.ltb_spec MAXIMUM_KEY_NUM 0); [lia|].
  change (Z.to_nat KEY_ROLE.RoleLast) with 3%nat.
  destruct (Nat.leb_spec 3 role); [lia | reflexivity].
Qed.

Lemma createWithRoleBasedKey_padding (address : string) (ks : list KeyValue) (n : nat) :
  createWithRoleBasedKey address (NestedInput (ks :: repeat [] n))
  = createWithRoleBasedKey address (NestedInput [ks; []; []]) \/ (2 < n)%nat.
Proof.
  destruct n as [|[|[|n]]]; [| | |right; lia]; left;
    unfold createWithRoleBasedKey, new_Keyring, formattingForKeyInKeyring;
    cbn [repeat isRoleBasedKeysFormat isMultipleKeysFormat length];
    change (Z.to_nat KEY_ROLE.RoleLast) with 3%nat;
    cbn [Nat.leb negb rbind nth_error];
    destruct (set_address address); cbn [rbind]; try reflexivity;
    destruct (fillRoleKey generateKeysFormat 0 (Some ks)) as [keys|]; cbn [rbind];
    try reflexivity;
    rewrite ?(fillRoleKey_nothing keys 1) by lia; cbn [fillRoleKey rbind];
    rewrite ?(fillRoleKey_nothing keys 2) by lia; reflexivity.
Qed.

(** X25: a version 4 keystore whose [keyring] is a flat list of crypto
    objects is decrypted as the keystore that holds the same list for
    the TransactionKey role and empty lists for the other two roles,
    however many crypto objects the list holds: to the same keyring or
    the same error, in the same world. *)
Theorem decrypt_flat_as_role_based
        (keystore : Keystore) (cs : list CryptoObject) (password : string) (w : World) :
  cs <> [] ->
  ks_version keystore = Some 4%Z ->
  ks_crypto keystore = None ->
  ks_keyring keystore = Some (crypto_array cs) ->
  decrypt keystore password w
  = decrypt {| ks_version := Some 4%Z; ks_id := ks_id keystore;
               ks_address := ks_address keystore; ks_crypto := None;
               ks_keyring := Some (JArray [crypto_array cs; JArray []; JArray []]) |}
            password w.
Proof.
  intros Hne Hv Hc Hk.
  set (based := {| ks_version := Some 4%Z; ks_id := ks_id keystore;
                   ks_address := ks_address keystore; ks_crypto := None;
                   ks_keyring := Some (JArray [crypto_array cs; JArray []; JArray []]) |}).
  unfold decrypt.
  rewrite (bind_Ok _ _ _ _ _ (decrypt_checks_4 keystore _ w Hv Hc Hk)).
  rewrite (bind_Ok _ _ _ _ _
             (decrypt_checks_4 based (JArray [crypto_array cs; JArray []; JArray []]) w
                               eq_refl eq_refl eq_refl)).
  change (ks_address based) with (ks_address keystore). clear based.
  destruct cs as [|c cs]; [contradiction|].
  unfold decrypt_keys.
  change (isArray (json_index (crypto_array (c :: cs)) 0)) with false.
  change (isArray (json_index (JArray [crypto_array (c :: cs); JArray []; JArray []]) 0))
    with true.
  cbv iota.
  change (json_index (JArray [crypto_array (c :: cs); JArray []; JArray []])
                     KEY_ROLE.RoleTransactionKey) with (Some (crypto_array (c :: cs))).
  change (json_index (JArray [crypto_array (c :: cs); JArray []; JArray []])
                     KEY_ROLE.RoleAccountUpdateKey) with (Some (JArray [])).
  change (json_index (JArray [crypto_array (c :: cs); JArray []; JArray []])
                     KEY_ROLE.RoleFeePayerKey) with (Some (JArray [])).
  unfold bind at 2. unfold bind at 3. unfold bind at 1. unfold bind at 1.
  destruct (decryptKey (Some (crypto_array (c :: cs))) password w) as [[d|e] w1] eqn:Ed;
    [|reflexivity].
  cbn [decryptKey]. unfold bind, ret, lift. cbn [role_keys].
  assert (Hd : exists strs, d = Some strs /\ strs <> []).
  { unfold crypto_array in Ed. cbn [map] in Ed. rewrite decryptKey_array in Ed by discriminate.
    unfold bind, ret in Ed.
    destruct (for_each _ _ w) as [[strs|] w2] eqn:Ef; [|discriminate].
    injection Ed as <- <-. exists strs. split; [reflexivity|].
    cbn [for_each] in Ef. unfold bind, ret in Ef.
    destruct (decryptKey_step _ _ w) as [[s|] w3]; [|discriminate].
    destruct (for_each _ _ w3) as [[ss|] w4]; [|discriminate].
    injection Ef as <- _. discriminate. }
  destruct Hd as (strs & -> & Hstrs). cbn [role_keys].
  destruct (createWithRoleBasedKey_padding
              (ks_address keystore) (map KeyString strs)
              (Z.to_nat (KEY_ROLE.RoleLast - Z.of_nat (length (map KeyString strs)))))
    as [E | Hbig].
  - rewrite E. reflexivity.
  - exfalso. rewrite length_map in Hbig. unfold KEY_ROLE.RoleLast in Hbig.
    destruct strs; [contradiction | cbn [length] in Hbig; lia].
Qed.

End KeystoreForms.

(** The two forms of [Example.keystore_v4]. *)
Lemma decrypt_flat_as_role_based_witness :
  decrypt (helper := Example.helper) (crypto := Example.crypto)
          Example.keystore_v4 "pw" Example.world0
  = decrypt (helper := Example.helper) (crypto := Example.crypto)
            {| ks_version := Some 4%Z; ks_id := ks_id Example.keystore_v4;
               ks_address := ks_address Example.keystore_v4; ks_crypto := None;
               ks_keyring := Some (JArray [crypto_array [Example.crypto1];
                                           JArray []; JArray []]) |}
            "pw" Example.world0.
Proof.
  apply (decrypt_flat_as_role_based
           (helper := Example.helper) (crypto := Example.crypto)
           Example.keystore_v4 [Example.crypto1] "pw" Example.world0);
    [discriminate | reflexivity | reflexivity | reflexivity].
Defined.

(** ** The KlaytnWalletKey, out and in again *)

Section WalletKeyRoundTrip.
Context {helper : KeyringHelper} {walletKeys : WalletKeyUtils}.

(** X24: the KlaytnWalletKey that [getKlaytnWalletKey] returns for a
    keyring with a single key makes that keyring again, in
    [createFromKlaytnWalletKey] and in [createFromPrivateKey]. *)
Theorem createFromKlaytnWalletKey_of_getKlaytnWalletKey
        (this : Keyring) (key : PrivateKey) :
  wallet_key_utils_sound ->
  keyring_invariant this ->
  _keys this = [[key]; []; []] ->
  exists walletKey,
    getKlaytnWalletKey this = Returned walletKey /\
    createFromKlaytnWalletKey (SingleInput (KeyString walletKey)) = Returned this /\
    createFromPrivateKey (SingleInput (KeyString walletKey)) = Returned this.
Proof.
  intros Hutils Hinv Hkeys.
  pose proof Hinv as (Haddr & Hcanon & _ & _ & Hroles).
  destruct (stored_address_prefixed _ Haddr Hcanon) as [Hprefix Hlen42].
  assert (Hkey : well_formed_key key).
  { rewrite Hkeys in Hroles. inversion Hroles as [|? ? [_ Hk0] _]; subst.
    now inversion Hk0. }
  destruct (Hutils key (_address this) Hkey Hlen42) as (Hwallet & Hplain & Hparse).
  exists (wallet_key_of key (_address this)).
  assert (Hfrom : createFromKlaytnWalletKey
                    (SingleInput (KeyString (wallet_key_of key (_address this))))
                  = Returned this).
  { unfold createFromKlaytnWalletKey. rewrite Hwallet, Hparse.
    cbn [negb of_backend of_result obind ak_address ak_privateKey].
    unfold createWithSingleKey. rewrite Hplain.
    unfold new_Keyring, set_address. rewrite Haddr, Hcanon. cbn [negb rbind].
    unfold formattingForKeyInKeyring. cbn [rbind nth_error].
    unfold generateKeysFormat. change (Z.to_nat KEY_ROLE.RoleLast) with 3%nat.
    cbn [repeat].
    change [KeyString (privateKey key)] with (key_strings [key]).
    rewrite fillRoleKey_within_maximum, push_keys_role0.
    - cbn [rbind app].
      change (@nil KeyValue) with (key_strings []).
      rewrite fillRoleKey_within_maximum, push_keys_role1 by (constructor || cbn; lia).
      cbn [rbind app].
      rewrite fillRoleKey_within_maximum, push_keys_role2 by (constructor || cbn; lia).
      cbn [rbind of_result app]. rewrite <- Hkeys. now destruct this.
    - constructor; [exact Hkey | constructor].
    - rewrite Hkeys in Hroles. inversion Hroles as [|? ? [Hmax _] _]; subst. exact Hmax.
    - lia. }
  split; [|split].
  - unfold getKlaytnWalletKey. rewrite Hkeys.
    cbn [at_index KEY_ROLE.RoleTransactionKey KEY_ROLE.RoleAccountUpdateKey
         KEY_ROLE.RoleFeePayerKey Z.ltb Z.compare Z.to_nat Pos.to_nat Pos.iter_op
         Nat.add nth_error length Nat.ltb Nat.leb fold_left obind].
    rewrite Hprefix. reflexivity.
  - exact Hfrom.
  - unfold createFromPrivateKey. rewrite Hwallet. exact Hfrom.
Qed.

End WalletKeyRoundTrip.

Lemma substring_after (a b c : string) (n : nat) :
  n = String.length b ->
  substring (String.length a) n (a ++ b ++ c) = b.
Proof.
  intros ->. induction a as [|x a IH]; cbn [append String.length substring].
  - apply substring_of_prefix.
  - exact IH.
Qed.

Lemma samples_wallet_key_utils_sound :
  wallet_key_utils_sound (walletKeys := Samples.walletKeys).
Proof.
  intros key address Hkey Hlen. unfold wallet_key_of.
  assert (Hlen66 : String.length (privateKey key) = 66%nat).
  { unfold privateKey. cbn [append String.length]. rewrite toString_hex_length, Hkey.
    reflexivity. }
  assert (Hmiddle : substring 66 4 (privateKey key ++ "0x00" ++ address) = "0x00").
  { rewrite <- Hlen66. now apply substring_after. }
  assert (Hkeypart : substring 0 66 (privateKey key ++ "0x00" ++ address) = privateKey key).
  { rewrite <- Hlen66. apply substring_of_prefix. }
  assert (Haddress : slice_from 70 (privateKey key ++ "0x00" ++ address) = address).
  { change 70%nat with (66 + 4)%nat. rewrite <- Hlen66.
    generalize (privateKey key). intros a.
    induction a as [|x a IH]; [reflexivity | exact IH]. }
  unfold isKlaytnWalletKey, parsePrivateKey, Samples.walletKeys.
  rewrite !string_length_append, Hlen66, Hlen, Hmiddle, Hkeypart, Haddress.
  repeat split; reflexivity.
Qed.

(** The wallet key of [Example.single_keyring], out and in again. *)
Lemma createFromKlaytnWalletKey_of_getKlaytnWalletKey_witness :
  exists walletKey,
    getKlaytnWalletKey Example.single_keyring = Returned walletKey /\
    createFromKlaytnWalletKey (helper := Example.helper) (walletKeys := Samples.walletKeys)
                              (SingleInput (KeyString walletKey))
    = Returned Example.single_keyring /\
    createFromPrivateKey (helper := Example.helper) (walletKeys := Samples.walletKeys)
                         (SingleInput (KeyString walletKey))
    = Returned Example.single_keyring.
Proof.
  apply (createFromKlaytnWalletKey_of_getKlaytnWalletKey
           (helper := Example.helper) (walletKeys := Samples.walletKeys)
           Example.single_keyring Example.key1).
  - exact samples_wallet_key_utils_sound.
  - exact example_single_keyring_invariant.
  - reflexivity.
Defined.

(** ** The static encrypt functions *)

Section FactoryProperties.
Context {helper : KeyringHelper} {crypto : Crypto} {walletKeys : WalletKeyUtils}.

(** X20: a KlaytnWalletKey string together with an address in the options
    is never encrypted: [Keyring.encrypt] parses the key and compares
    the addresses, and then hands the string to [createWithSingleKey],
    which refuses a KlaytnWalletKey; [Keyring.encryptV3] hands it over
    at once.  Nothing is drawn or enciphered. *)
Theorem static_encrypt_refuses_wallet_key_with_address
        (s address password : string) (options : Options) (w : World) :
  isKlaytnWalletKey s = true ->
  address_given options = Some address ->
  (exists f,
      Keyring_encrypt (KeyMaterial (SingleInput (KeyString s))) password options w
      = (Failed f, w) /\
      (f = Raised InvalidParameterFormat \/ f = AddressMismatch \/
       createFromKlaytnWalletKey (SingleInput (KeyString s)) = Failed f)) /\
  Keyring_encryptV3 (KeyMaterial (SingleInput (KeyString s))) password options w
  = (Failed (Raised InvalidParameterFormat), w) /\
  (forall address', create address' (SingleInput (KeyString s))
                    = Failed (Raised InvalidParameterFormat)).
Proof.
  intros Hwallet Haddress. split; [|split].
  - unfold Keyring_encrypt, on_keyring, keyring_to_encrypt. rewrite Haddress, Hwallet.
    destruct (createFromKlaytnWalletKey (SingleInput (KeyString s))) as [k|f] eqn:Ek;
      cbn [obind].
    + destruct (negb _); cbn [obind].
      * exists AddressMismatch. auto.
      * unfold createWithSingleKey. rewrite Hwallet. cbn [of_result].
        exists (Raised InvalidParameterFormat). auto.
    + exists f. auto.
  - unfold Keyring_encryptV3, on_keyring, keyring_to_encryptV3. rewrite Haddress.
    unfold createWithSingleKey. rewrite Hwallet. reflexivity.
  - intros address'. unfold create, createWithSingleKey. rewrite Hwallet. reflexivity.
Qed.

End FactoryProperties.

Lemma static_encrypt_refuses_wallet_key_with_address_witness :
  (exists f,
      Keyring_encrypt (helper := Example.helper) (crypto := Example.crypto)
                      (walletKeys := Samples.walletKeys)
                      (KeyMaterial (SingleInput (KeyString Samples.wallet_key1))) "pw"
                      Samples.address_options Example.world0
      = (Failed f, Example.world0)) /\
  Keyring_encryptV3 (helper := Example.helper) (crypto := Example.crypto)
                    (walletKeys := Samples.walletKeys)
                    (KeyMaterial (SingleInput (KeyString Samples.wallet_key1))) "pw"
                    Samples.address_options Example.world0
  = (Failed (Raised InvalidParameterFormat), Example.world0).
Proof.
  destruct (static_encrypt_refuses_wallet_key_with_address
              (helper := Example.helper) (crypto := Example.crypto)
              (walletKeys := Samples.walletKeys)
              Samples.wallet_key1 Example.address1 "pw" Samples.address_options
              Example.world0 eq_refl eq_refl) as ((f & Hf & _) & Hv3 & _).
  split; [exists f; exact Hf | exact Hv3].
Defined.

(** ** The transaction: input, data and the encoding for signing *)

Section SigningPayload.
Context {rlp : RlpCodec} {txHelper : TransactionHelper}.

(** X21: [data] is another name for [input]: an object that defines
    [data] and no [input] is constructed as the object that defines the
    same value as its [input] and no [data]: both give the same
    instance, or the same error. *)
Theorem data_is_an_alias_of_input (o : CreateTxObj) (data : option Value) :
  new_FeeDelegatedChainDataAnchoring (with_input_data None data o)
  = new_FeeDelegatedChainDataAnchoring (with_input_data data None o).
Proof.
  unfold new_FeeDelegatedChainDataAnchoring, super.
  cbn [with_input_data o_nonce o_gasPrice o_gas o_from o_input o_data o_signatures
       o_feePayer o_feePayerSignatures o_chainId is_defined andb].
  rewrite andb_false_r.
  destruct (set_quantity (o_gas o)); [|reflexivity]. cbn [rbind].
  destruct (set_optional_quantity (o_nonce o)); [|reflexivity]. cbn [rbind].
  destruct (set_optional_quantity (o_gasPrice o)); [|reflexivity]. cbn [rbind].
  destruct (set_signatures (o_signatures o)); [|reflexivity]. cbn [rbind].
  destruct (set_feePayer (o_feePayer o)); [|reflexivity]. cbn [rbind].
  destruct (set_signatures (o_feePayerSignatures o)); [|reflexivity]. cbn [rbind].
  destruct (set_from (o_from o)); [|reflexivity]. cbn [rbind].
  unfold value_or. cbn [andb truthy]. rewrite andb_false_r.
  destruct (truthy data) eqn:Hdata; [reflexivity|].
  destruct data as [[[|c s]|l]|]; try discriminate; reflexivity.
Qed.

Lemma Bytes_fromNat_quantity_injective (n m : N) :
  Bytes_fromNat (quantity n) = Bytes_fromNat (quantity m) -> n = m.
Proof.
  intros H. pose proof (quantity_round_trip n) as Hn. rewrite H, quantity_round_trip in Hn.
  now injection Hn.
Qed.

(** X22: the encoding for signing covers the nonce, the gas price, the gas,
    the sender and the input, and nothing else of the transaction: two
    transactions with the chain id defined that agree on the five have
    the same encoding, and (the RLP library decoding what it encodes)
    two transactions with the same encoding agree on the five. *)
Theorem signing_payload_covers_five_fields (tx1 tx2 : FeeDelegatedChainDataAnchoring) :
  is_object (_chainId (base tx1)) = true ->
  is_object (_chainId (base tx2)) = true ->
  toLowerCase (_from tx1) = _from tx1 ->
  toLowerCase (_from tx2) = _from tx2 ->
  (_nonce (base tx1) = _nonce (base tx2) ->
   _gasPrice (base tx1) = _gasPrice (base tx2) ->
   _gas (base tx1) = _gas (base tx2) ->
   _from tx1 = _from tx2 ->
   _input tx1 = _input tx2 ->
   getCommonRLPEncodingForSignature tx1 = getCommonRLPEncodingForSignature tx2) /\
  (forall encoding,
      RLP_decode (RLP_encode (signature_tuple tx1)) = signature_tuple tx1 ->
      RLP_decode (RLP_encode (signature_tuple tx2)) = signature_tuple tx2 ->
      getCommonRLPEncodingForSignature tx1 = Ok encoding ->
      getCommonRLPEncodingForSignature tx2 = Ok encoding ->
      _nonce (base tx1) = _nonce (base tx2) /\
      _gasPrice (base tx1) = _gasPrice (base tx2) /\
      _gas (base tx1) = _gas (base tx2) /\
      _from tx1 = _from tx2 /\
      _input tx1 = _input tx2).
Proof.
  intros Hc1 Hc2 Hf1 Hf2. split.
  - intros Hn Hp Hg Hf Hi.
    unfold getCommonRLPEncodingForSignature, validateOptionalValues.
    rewrite Hn, Hp, Hg, Hf, Hi.
    destruct (_chainId (base tx1)); [|discriminate].
    destruct (_chainId (base tx2)); [|discriminate]. reflexivity.
  - intros encoding R1 R2 E1 E2.
    assert (Hread : forall tx,
               getCommonRLPEncodingForSignature tx = Ok encoding ->
               encoding = RLP_encode (signature_tuple tx) /\
               exists nonce gasPrice,
                 _nonce (base tx) = Some nonce /\ _gasPrice (base tx) = Some gasPrice).
    { clear E1 E2. intros tx.
      unfold getCommonRLPEncodingForSignature, validateOptionalValues, signature_tuple.
      destruct (_gasPrice (base tx)) as [gasPrice|]; [|discriminate].
      destruct (_nonce (base tx)) as [nonce|]; [|discriminate].
      destruct (_chainId (base tx)); [|discriminate].
      cbn [rbind]. intros H. injection H as H.
      split; [symmetry; exact H|]. now exists nonce, gasPrice. }
    destruct (Hread tx1 E1) as (H1 & n1 & p1 & Hn1 & Hp1).
    destruct (Hread tx2 E2) as (H2 & n2 & p2 & Hn2 & Hp2).
    assert (Ht : signature_tuple tx1 = signature_tuple tx2)
      by (rewrite <- R1, <- H1, H2; exact R2).
    unfold signature_tuple in Ht. rewrite Hn1, Hp1, Hn2, Hp2 in Ht.
    cbn [optional_quantity] in Ht. injection Ht as Hn Hp Hg Hf Hi.
    rewrite Hf1, Hf2 in Hf. rewrite Hn1, Hp1, Hn2, Hp2.
    apply Bytes_fromNat_quantity_injective in Hn, Hp, Hg. subst.
    repeat split; assumption.
Qed.

End SigningPayload.

Lemma data_is_an_alias_of_input_witness :
  new_FeeDelegatedChainDataAnchoring
    (txHelper := Example.txHelper)
    (with_input_data None (Some (VString "0xab")) Samples.object1)
  = new_FeeDelegatedChainDataAnchoring
      (txHelper := Example.txHelper)
      (with_input_data (Some (VString "0xab")) None Samples.object1).
Proof.
  exact (data_is_an_alias_of_input
           (txHelper := Example.txHelper) Samples.object1 (Some (VString "0xab"))).
Defined.

Lemma signing_payload_covers_five_fields_witness :
  getCommonRLPEncodingForSignature (rlp := EthLib.rlp) (txHelper := Example.txHelper)
                                   Example.transaction1
  = getCommonRLPEncodingForSignature (rlp := EthLib.rlp) (txHelper := Example.txHelper)
                                     Samples.transaction2.
Proof.
  apply (proj1 (signing_payload_covers_five_fields
                  (rlp := EthLib.rlp) (txHelper := Example.txHelper)
                  Example.transaction1 Samples.transaction2
                  eq_refl eq_refl eq_refl eq_refl)); reflexivity.
Defined.

(** ** What the constructor of the transaction stores *)

Lemma isHexPrefixed_toLowerCase (s : string) :
  isHexPrefixed (toLowerCase s) = isHexPrefixed s.
Proof.
  destruct s as [|a [|b s]]; try reflexivity. cbn [toLowerCase isHexPrefixed].
  destruct a as [[] [] [] [] [] [] [] []]; try reflexivity;
    destruct b as [[] [] [] [] [] [] [] []]; reflexivity.
Qed.

Lemma slice_from_toLowerCase (n : nat) (s : string) :
  slice_from n (toLowerCase s) = toLowerCase (slice_from n s).
Proof.
  revert s. induction n as [|n IH]; intros s; [reflexivity|].
  destruct s as [|c s]; [reflexivity | apply IH].
Qed.

Lemma stripHexPrefix_toLowerCase (s : string) :
  stripHexPrefix (toLowerCase s) = toLowerCase (stripHexPrefix s).
Proof.
  unfold stripHexPrefix. rewrite isHexPrefixed_toLowerCase.
  destruct (isHexPrefixed s); [apply slice_from_toLowerCase | reflexivity].
Qed.

Lemma isAddress_toLowerCase (s : string) : isAddress (toLowerCase s) = isAddress s.
Proof.
  unfold isAddress. cbv zeta.
  now rewrite stripHexPrefix_toLowerCase, length_toLowerCase, isHexString_toLowerCase.
Qed.

Section TransactionConstructor.
Context {rlp : RlpCodec} {txHelper : TransactionHelper}.

(** X23: a transaction that the constructor returns was made from an
    object whose [from] is a text that passes the address check, and
    holds that text in lower case, which passes the check as well; the
    same holds of the sender of a transaction that [decode] returns. *)
Theorem constructor_stores_lower_case_from :
  (forall createTxObj tx,
      new_FeeDelegatedChainDataAnchoring createTxObj = Ok tx ->
      exists address,
        o_from createTxObj = Some (VString address) /\
        isAddress address = true /\
        _from tx = toLowerCase address /\
        isAddress (_from tx) = true /\
        toLowerCase (_from tx) = _from tx) /\
  (forall rlpEncoded tx,
      decode rlpEncoded = Ok tx ->
      isAddress (_from tx) = true /\ toLowerCase (_from tx) = _from tx).
Proof.
  assert (Hnew : forall createTxObj tx,
             new_FeeDelegatedChainDataAnchoring createTxObj = Ok tx ->
             exists address,
               o_from createTxObj = Some (VString address) /\
               isAddress address = true /\
               _from tx = toLowerCase address /\
               isAddress (_from tx) = true /\
               toLowerCase (_from tx) = _from tx).
  { intros o tx. unfold new_FeeDelegatedChainDataAnchoring.
    destruct (super TX_TYPE_STRING o) as [b|]; [|discriminate].
    cbn [rbind].
    destruct (set_from (o_from o)) as [from|] eqn:Efrom; [|discriminate]. cbn [rbind].
    destruct (truthy (o_input o) && truthy (o_data o)); [discriminate|].
    destruct (set_input (value_or (o_input o) (o_data o))) as [input|]; [|discriminate].
    cbn [rbind]. intros [= <-]. cbn [_from].
    unfold set_from in Efrom. destruct (o_from o) as [[a|]|]; try discriminate.
    destruct (isAddress a) eqn:Ha; [|discriminate]. cbn [negb] in Efrom.
    injection Efrom as <-. exists a.
    split; [reflexivity|]. split; [exact Ha|]. split; [reflexivity|].
    split; [now rewrite isAddress_toLowerCase | apply toLowerCase_idempotent]. }
  split; [exact Hnew|].
  intros rlpEncoded tx. unfold decode.
  destruct (_decode rlpEncoded) as [o|]; [|discriminate]. cbn [rbind].
  intros Htx. destruct (Hnew o tx Htx) as (address & _ & _ & _ & H). exact H.
Qed.

End TransactionConstructor.
